(** * i-saw-that: the watcher / backup engine

    A shallow embedding of [watcher.go] and of the validation helpers it
    calls ([validateName], [validateWaitTime], [validateFolderFormat],
    [validateDir], [validateSourceAndDestination], in the form that writes
    through the [errs] pointer), together with the properties the
    specification states about them.

    Contents.
    - Go strings, [path/filepath] and [time] as far as the watcher uses
      them.
    - Errors, the data model, configuration validation and [NewWatcher].
    - Directory trees and the tree comparator ([doFoldersMatch]).
    - The methods of the watcher, in a monad of state, effects and
      blocking: the observer registry, [createBackup], [StartWatcher].
    - The debounce loop ([backupLoop]) with the notifier, on a time line.
    - The properties, C1 to C10.

    Conventions.
    - A Go [error] is the list of the leaf errors that [errors.Join]
      gathered; the [nil] error is the empty list.
    - [float64] wait times and timestamps are exact rationals ([Q]); the
      conversion [int64(x)] truncates toward zero.  IEEE rounding is outside
      the model.
    - Paths are Unix paths (separator [/], no volume names).
    - [time.Format] is a parameter of the definitions that use it; the
      concrete [GoTime.utcFormat] renders the numeric layout elements in
      UTC and serves the computed examples.
    - The operating system (os.Stat, os.MkdirAll, os.ReadDir, os.ReadFile,
      os.WriteFile, cp.Copy, the clock) is an environment the functions are
      given. *)

From Stdlib Require Import String Ascii List ZArith QArith Lia Bool Arith.
Import ListNotations.
Set Warnings "-register-all".  (* nested inductive types below *)
Open Scope string_scope.

(* ================================================================== *)
(** * Go strings and path/filepath (Unix)                              *)
(* ================================================================== *)

Module GoPath.

(** [strings.HasPrefix s prefix]. *)
Definition HasPrefix (s pre : string) : bool := String.prefix pre s.

Definition Separator : ascii := "/"%char.

(** [strings.Split s "/"]. *)
Fixpoint split_slash (s : string) : list string :=
  match s with
  | EmptyString => [EmptyString]
  | String c s' =>
      if Ascii.eqb c Separator then EmptyString :: split_slash s'
      else match split_slash s' with
           | h :: t => String c h :: t
           | [] => [String c EmptyString]
           end
  end.

(** [strings.Join elems "/"]. *)
Definition join_slash (elems : list string) : string := String.concat "/" elems.

(** [filepath.IsAbs]. *)
Definition IsAbs (p : string) : bool := HasPrefix p "/".

(** One element of the path seen by [filepath.Clean]; [acc] is the stack of
    the elements kept so far, most recent first. *)
Definition clean_step (rooted : bool) (acc : list string) (c : string)
  : list string :=
  if (c =? "") || (c =? ".") then acc
  else if c =? ".." then
    match acc with
    | top :: rest => if top =? ".." then c :: acc else rest
    | [] => if rooted then [] else [c]
    end
  else c :: acc.

Definition clean_elems (rooted : bool) (elems : list string) : list string :=
  rev (fold_left (clean_step rooted) elems []).

(** [filepath.Clean]: the shortest path equivalent to [p] by purely lexical
    processing. *)
Definition Clean (p : string) : string :=
  if p =? "" then "."
  else
    let rooted := IsAbs p in
    let cs := clean_elems rooted (split_slash p) in
    if rooted then "/" ++ join_slash cs
    else match cs with [] => "." | _ => join_slash cs end.

(** [filepath.Join a b]. *)
Definition Join (a b : string) : string :=
  if negb (a =? "") then Clean (a ++ "/" ++ b)
  else if negb (b =? "") then Clean b
  else "".

(** [filepath.Abs]; [getwd] is the outcome of [os.Getwd] ([None] when it
    fails).  On failure Go returns the empty string with the error. *)
Definition Abs (getwd : option string) (p : string) : string * bool :=
  if IsAbs p then (Clean p, true)
  else match getwd with
       | Some wd => (Join wd p, true)
       | None => ("", false)
       end.

(** The elements of a cleaned path, the leading separator removed. *)
Definition elems_of (p : string) : list string :=
  filter (fun c => negb (c =? "")) (split_slash p).

Fixpoint strip_common (b t : list string) : list string * list string :=
  match b, t with
  | x :: b', y :: t' => if x =? y then strip_common b' t' else (b, t)
  | _, _ => (b, t)
  end.

(** [filepath.Rel basepath targpath]; [None] is Go's
    "Rel: can't make ... relative to ..." error. *)
Definition Rel (basepath targpath : string) : option string :=
  let base := Clean basepath in
  let targ := Clean targpath in
  if targ =? base then Some "."
  else
    let base := if base =? "." then "" else base in
    if negb (Bool.eqb (IsAbs base) (IsAbs targ)) then None
    else
      let '(br, tr) := strip_common (elems_of base) (elems_of targ) in
      match br with
      | [] => Some (join_slash tr)
      | b0 :: _ =>
          if b0 =? ".." then None
          else Some (join_slash (map (fun _ => "..") br ++ tr)%list)
      end.

(** An absolute, cleaned path built from its elements. *)
Definition rooted (elems : list string) : string := "/" ++ join_slash elems.

(** A file name: not empty, not [.] or [..], no separator inside. *)
Fixpoint no_slash (s : string) : bool :=
  match s with
  | EmptyString => true
  | String c s' => negb (Ascii.eqb c Separator) && no_slash s'
  end.

Definition is_name (s : string) : bool :=
  negb (s =? "") && negb (s =? ".") && negb (s =? "..") && no_slash s.

End GoPath.


(* ================================================================== *)
(** * Go time: instants and layouts                                    *)
(* ================================================================== *)

Module GoTime.

Open Scope Z_scope.

(** A [time.Time], by what [t.Unix()] and [t.Nanosecond()] return. *)
Record Time : Type := mkTime { Unix : Z; Nanosecond : Z }.

Definition Time_eqb (a b : Time) : bool :=
  (Unix a =? Unix b) && (Nanosecond a =? Nanosecond b).

Definition e9 : Z := 1000000000.

(** [time.Unix(sec, nsec)]: nanoseconds below 0 or from 1e9 on are carried
    into the seconds. *)
Definition time_Unix (sec nsec : Z) : Time :=
  if (nsec <? 0) || (e9 <=? nsec) then
    let n := Z.quot nsec e9 in
    let sec := sec + n in
    let nsec := nsec - n * e9 in
    if nsec <? 0 then mkTime (sec - 1) (nsec + e9) else mkTime sec nsec
  else mkTime sec nsec.

(** The instant as a count of nanoseconds since the epoch. *)
Definition UnixNano (t : Time) : Z := Unix t * e9 + Nanosecond t.

(** [int64(x)] for a [float64] in range: truncation toward zero. *)
Definition trunc (x : Q) : Z := Z.quot (Qnum x) (Z.pos (Qden x)).

(** [float64(timestamp.Unix()) + float64(timestamp.Nanosecond())/1e9]. *)
Definition seconds_since_epoch (t : Time) : Q :=
  (inject_Z (Unix t) + inject_Z (Nanosecond t) / inject_Z e9)%Q.

(** ** Calendar fields (proleptic Gregorian, UTC) *)

Record Civil : Type := mkCivil {
  year : Z; month : Z; day : Z; hour : Z; minute : Z; second : Z; nano : Z
}.

Definition civil_of (t : Time) : Civil :=
  let days := Unix t / 86400 in
  let rem := Unix t mod 86400 in
  let z := days + 719468 in
  let era := z / 146097 in
  let doe := z - era * 146097 in
  let yoe := (doe - doe / 1460 + doe / 36524 - doe / 146096) / 365 in
  let doy := doe - (365 * yoe + yoe / 4 - yoe / 100) in
  let mp := (5 * doy + 2) / 153 in
  let d := doy - (153 * mp + 2) / 5 + 1 in
  let m := if mp <? 10 then mp + 3 else mp - 9 in
  let y := yoe + era * 400 + (if m <=? 2 then 1 else 0) in
  mkCivil y m d (rem / 3600) ((rem mod 3600) / 60) (rem mod 60) (Nanosecond t).

(** ** Decimal rendering *)

Definition digit (d : Z) : ascii := ascii_of_nat (48 + Z.to_nat d).

Fixpoint dec_rev (fuel : nat) (n : Z) : string :=
  match fuel with
  | O => EmptyString
  | S fuel' =>
      if n <? 10 then String (digit n) EmptyString
      else String (digit (n mod 10)) (dec_rev fuel' (n / 10))
  end.

Fixpoint rev_string (s acc : string) : string :=
  match s with
  | EmptyString => acc
  | String c s' => rev_string s' (String c acc)
  end.

Fixpoint zeros (n : nat) : string :=
  match n with O => EmptyString | S n' => String "0"%char (zeros n') end.

(** [appendInt(b, x, width)]: decimal, zero-padded to [width]. *)
Definition appendInt (x : Z) (width : nat) : string :=
  let digits := rev_string (dec_rev 40 (Z.abs x)) EmptyString in
  let padded := (zeros (width - String.length digits) ++ digits)%string in
  if x <? 0 then String "-"%char padded else padded.

Fixpoint take (n : nat) (s : string) : string :=
  match n, s with
  | S n', String c s' => String c (take n' s')
  | _, _ => EmptyString
  end.

Fixpoint trim_zeros_rev (s : string) : string :=
  match s with
  | String "0"%char s' => trim_zeros_rev s'
  | _ => s
  end.

(** [appendNano]: the fractional second, [n] digits; [trim] is the [9]
    form, which drops trailing zeros and an empty fraction. *)
Definition appendNano (sep : ascii) (nanosec : Z) (n : nat) (trim : bool) : string :=
  if trim && ((n =? 0)%nat || (nanosec =? 0)) then EmptyString
  else
    let ds := take (Nat.min n 9) (appendInt nanosec 9) in
    if trim then
      match trim_zeros_rev (rev_string ds EmptyString) with
      | EmptyString => EmptyString
      | r => String sep (rev_string r EmptyString)
      end
    else String sep ds.

(** ** Layout scanning *)

Definition is_digit (c : ascii) : bool :=
  let n := nat_of_ascii c in (48 <=? n)%nat && (n <=? 57)%nat.

(** The run of [ch] at the head of [s]: its length and what follows. *)
Fixpoint span_char (ch : ascii) (s : string) : nat * string :=
  match s with
  | String c s' =>
      if Ascii.eqb c ch then let '(n, r) := span_char ch s' in (S n, r)
      else (O, s)
  | EmptyString => (O, s)
  end.

Definition starts_digit (s : string) : bool :=
  match s with String c _ => is_digit c | EmptyString => false end.

Definition hour12 (h : Z) : Z :=
  let r := h mod 12 in if r =? 0 then 12 else r.

(** [t.Format(layout)] for the numeric layout elements
    [2006 06 01 1 02 2 15 03 3 04 4 05 5] and the fractional seconds
    [.000] / [.999] (also with a comma), rendered in UTC.  Every other
    character of the layout is copied. *)
Fixpoint format_chunks (fuel : nat) (layout : string) (c : Civil) : string :=
  match fuel with
  | O => EmptyString
  | S fuel' =>
      match layout with
      | EmptyString => EmptyString
      | String "0"%char (String "1"%char r) => appendInt (month c) 2 ++ format_chunks fuel' r c
      | String "0"%char (String "2"%char r) => appendInt (day c) 2 ++ format_chunks fuel' r c
      | String "0"%char (String "3"%char r) => appendInt (hour12 (hour c)) 2 ++ format_chunks fuel' r c
      | String "0"%char (String "4"%char r) => appendInt (minute c) 2 ++ format_chunks fuel' r c
      | String "0"%char (String "5"%char r) => appendInt (second c) 2 ++ format_chunks fuel' r c
      | String "0"%char (String "6"%char r) => appendInt (year c mod 100) 2 ++ format_chunks fuel' r c
      | String "1"%char (String "5"%char r) => appendInt (hour c) 2 ++ format_chunks fuel' r c
      | String "1"%char r => appendInt (month c) 0 ++ format_chunks fuel' r c
      | String "2"%char (String "0"%char (String "0"%char (String "6"%char r))) =>
          appendInt (year c) 4 ++ format_chunks fuel' r c
      | String "2"%char r => appendInt (day c) 0 ++ format_chunks fuel' r c
      | String "3"%char r => appendInt (hour12 (hour c)) 0 ++ format_chunks fuel' r c
      | String "4"%char r => appendInt (minute c) 0 ++ format_chunks fuel' r c
      | String "5"%char r => appendInt (second c) 0 ++ format_chunks fuel' r c
      | String ch r =>
          if (Ascii.eqb ch "."%char || Ascii.eqb ch ","%char) then
            match r with
            | String d _ =>
                if (Ascii.eqb d "0"%char || Ascii.eqb d "9"%char) then
                  let '(n, after) := span_char d r in
                  if starts_digit after then String ch (format_chunks fuel' r c)
                  else appendNano ch (nano c) n (Ascii.eqb d "9"%char)
                         ++ format_chunks fuel' after c
                else String ch (format_chunks fuel' r c)
            | EmptyString => String ch EmptyString
            end
          else String ch (format_chunks fuel' r c)
      end
  end%string.

Definition utcFormat (layout : string) (t : Time) : string :=
  format_chunks (S (String.length layout)) layout (civil_of t).

End GoTime.

(* ================================================================== *)
(** * Errors                                                           *)
(* ================================================================== *)

(** The sentinel errors of the validation code. *)
Inductive Sentinel : Type :=
| ErrorInvalidNameV2
| ErrorInvalidWaitTime
| ErrorInvalidSource
| ErrorInvalidDestination
| ErrorInvalidFolderFormat.

Definition Sentinel_eqb (a b : Sentinel) : bool :=
  match a, b with
  | ErrorInvalidNameV2, ErrorInvalidNameV2
  | ErrorInvalidWaitTime, ErrorInvalidWaitTime
  | ErrorInvalidSource, ErrorInvalidSource
  | ErrorInvalidDestination, ErrorInvalidDestination
  | ErrorInvalidFolderFormat, ErrorInvalidFolderFormat => true
  | _, _ => false
  end.

Definition Sentinel_text (s : Sentinel) : string :=
  match s with
  | ErrorInvalidNameV2 => "error validating name"
  | ErrorInvalidWaitTime => "error validating wait time"
  | ErrorInvalidSource => "error validating source"
  | ErrorInvalidDestination => "error validating destination"
  | ErrorInvalidFolderFormat => "error validating folder format"
  end.

(** Why [loadMetadata] failed. *)
Inductive LoadFailure : Type :=
| ReadFailure (cause : string)     (* "error reading metadata file: %w" *)
| ParseFailure (cause : string).   (* "error parsing metadata JSON: %w" *)

(** One leaf error, by the [fmt.Errorf] call that builds it. *)
Inductive GoError : Type :=
| NameEmpty                                       (* validateName *)
| WaitTimeNotPositive                             (* validateWaitTime *)
| LacksPrecision                                  (* validateFolderFormat *)
| MkdirFailure (cause : string)                   (* the error of os.MkdirAll, as it is *)
| InvalidName (s : Sentinel) (cause : string)     (* "%w: invalid name: %w" *)
| NotADirectory (s : Sentinel) (path : string)    (* "%w: %s exists but is not a directory" *)
| StatFailure (s : Sentinel) (cause : string)     (* "%w: %w" *)
| AbsFailure (s : Sentinel)                       (* "%w: error getting absolute path: %w" *)
| SamePathsSource                                 (* "%w: source and destination paths cannot be the same" *)
| SamePathsDestination                            (* "%w: destination and source paths cannot be the same" *)
| RelFailure                                      (* "%w: error checking relative path ..." *)
| InsideSource                                    (* "%w: destination path cannot be inside the source path" *)
| LoadMetadataFailure (f : LoadFailure).          (* "error loading metadata: %w" *)

(** A Go [error] value: [nil] is [[]]; [errors.Join] concatenates. *)
Definition error : Type := list GoError.

Definition errors_Join (a b : error) : error := (a ++ b)%list.

(** The sentinel a leaf error wraps, for [errors.Is]. *)
Definition wrapped (e : GoError) : option Sentinel :=
  match e with
  | NameEmpty => Some ErrorInvalidNameV2
  | WaitTimeNotPositive => Some ErrorInvalidWaitTime
  | LacksPrecision => Some ErrorInvalidFolderFormat
  | MkdirFailure _ => None
  | InvalidName s _ | NotADirectory s _ | StatFailure s _ | AbsFailure s => Some s
  | SamePathsSource => Some ErrorInvalidSource
  | SamePathsDestination => Some ErrorInvalidDestination
  | RelFailure => Some ErrorInvalidDestination
  | InsideSource => Some ErrorInvalidDestination
  | LoadMetadataFailure _ => None
  end.

Definition errors_Is (err : error) (s : Sentinel) : bool :=
  existsb (fun e => match wrapped e with
                    | Some s' => Sentinel_eqb s s'
                    | None => false
                    end) err.

(** [e.Error()] of a leaf error. *)
Definition Error_text (e : GoError) : string :=
  match e with
  | NameEmpty => Sentinel_text ErrorInvalidNameV2 ++ ": name cannot be empty"
  | WaitTimeNotPositive =>
      Sentinel_text ErrorInvalidWaitTime ++ ": wait time must be at least 0 seconds"
  | LacksPrecision =>
      Sentinel_text ErrorInvalidFolderFormat
      ++ ": folder format lacks adequate precision for wait time"
  | MkdirFailure cause => cause
  | InvalidName s cause => Sentinel_text s ++ ": invalid name: " ++ cause
  | NotADirectory s path => Sentinel_text s ++ ": " ++ path ++ " exists but is not a directory"
  | StatFailure s cause => Sentinel_text s ++ ": " ++ cause
  | AbsFailure s => Sentinel_text s ++ ": error getting absolute path: getwd"
  | SamePathsSource =>
      Sentinel_text ErrorInvalidSource ++ ": source and destination paths cannot be the same"
  | SamePathsDestination =>
      Sentinel_text ErrorInvalidDestination
      ++ ": destination and source paths cannot be the same"
  | RelFailure =>
      Sentinel_text ErrorInvalidDestination
      ++ ": error checking relative path from source to destination: Rel"
  | InsideSource =>
      Sentinel_text ErrorInvalidDestination
      ++ ": destination path cannot be inside the source path"
  | LoadMetadataFailure (ReadFailure cause) =>
      "error loading metadata: error reading metadata file: " ++ cause
  | LoadMetadataFailure (ParseFailure cause) =>
      "error loading metadata: error parsing metadata JSON: " ++ cause
  end.

(* ================================================================== *)
(** * The data model                                                   *)
(* ================================================================== *)

Record Backup : Type := mkBackup {
  Backup_Name : string;
  Timestamp : Q;
  Path : string;
  Compressed : bool
}.

(** An observer, by its identity (the interface value compared with [==]). *)
Definition BackupCompleteObserver : Type := nat.

Record Watcher : Type := mkWatcher {
  Name : string;
  Source : string;
  Destination : string;
  Enabled : bool;
  WaitTime : Q;
  FolderFormat : string;
  Metadata : list Backup;
  (* runtime handles *)
  mu : bool;                                    (* [true]: the mutex is held *)
  fsnotifyWatcher : bool;                       (* [true]: not nil *)
  customObservers : list BackupCompleteObserver;
  backupRequestChan : nat                       (* requests waiting in the channel *)
}.

(** [make(chan struct{}, 1)]: the capacity of [backupRequestChan]. *)
Definition backupRequestChan_capacity : nat := 1.

Definition set_Metadata (m : list Backup) (w : Watcher) : Watcher :=
  mkWatcher (Name w) (Source w) (Destination w) (Enabled w) (WaitTime w)
    (FolderFormat w) m (mu w) (fsnotifyWatcher w) (customObservers w)
    (backupRequestChan w).

Definition set_mu (b : bool) (w : Watcher) : Watcher :=
  mkWatcher (Name w) (Source w) (Destination w) (Enabled w) (WaitTime w)
    (FolderFormat w) (Metadata w) b (fsnotifyWatcher w) (customObservers w)
    (backupRequestChan w).

Definition set_fsnotifyWatcher (b : bool) (w : Watcher) : Watcher :=
  mkWatcher (Name w) (Source w) (Destination w) (Enabled w) (WaitTime w)
    (FolderFormat w) (Metadata w) (mu w) b (customObservers w)
    (backupRequestChan w).

Definition set_customObservers (o : list BackupCompleteObserver) (w : Watcher)
  : Watcher :=
  mkWatcher (Name w) (Source w) (Destination w) (Enabled w) (WaitTime w)
    (FolderFormat w) (Metadata w) (mu w) (fsnotifyWatcher w) o
    (backupRequestChan w).

Definition set_backupRequestChan (n : nat) (w : Watcher) : Watcher :=
  mkWatcher (Name w) (Source w) (Destination w) (Enabled w) (WaitTime w)
    (FolderFormat w) (Metadata w) (mu w) (fsnotifyWatcher w)
    (customObservers w) n.

(* ================================================================== *)
(** * Configuration validation                                         *)
(* ================================================================== *)

(** What [os.Stat] answers for a path. *)
Inductive StatResult : Type :=
| StatDir                          (* exists, a directory *)
| StatNotDir                       (* exists, not a directory *)
| StatNotExist                     (* os.IsNotExist(err) *)
| StatPathError (cause : string)   (* another *os.PathError *)
| StatOtherError (cause : string). (* an error that is no *os.PathError *)

(** What the file system answers to one call of [validateDir]: the result of
    [os.Stat], and the error of [os.MkdirAll] should it be called. *)
Record DirProbe : Type := mkProbe {
  probe_stat : StatResult;
  probe_mkdir : option string
}.

(** What [os.ReadFile] and [json.Unmarshal] make of the metadata file. *)
Inductive MetaFile : Type :=
| MetaNotExist
| MetaUnreadable (cause : string)
| MetaMalformed (cause : string)
| MetaContent (history : list Backup).

(** The environment of one call of [NewWatcher]. *)
Record ValidationEnv : Type := mkValidationEnv {
  getwd : option string;
  probe_format : DirProbe;
  probe_source : DirProbe;
  probe_destination : DirProbe;
  metadata_file : MetaFile
}.

Definition validateName (name : string) (errs : error) : error :=
  if name =? "" then errors_Join errs [NameEmpty] else errs.

Definition validateWaitTime (waitTime : Q) (errs : error) : error :=
  if Qle_bool waitTime 0 then errors_Join errs [WaitTimeNotPositive] else errs.

Definition validateDir (os : DirProbe) (path : string)
    (invalidNameError : Sentinel) (errs : error) : error :=
  match probe_stat os with
  | StatNotExist =>
      match probe_mkdir os with
      | Some cause => errors_Join errs [MkdirFailure cause]
      | None => errs
      end
  | StatPathError cause => errors_Join errs [InvalidName invalidNameError cause]
  | StatNotDir => errors_Join errs [NotADirectory invalidNameError path]
  | StatOtherError cause => errors_Join errs [StatFailure invalidNameError cause]
  | StatDir => errs
  end.

(** [validateDirOld] returns its own joined error instead of writing through
    the pointer. *)
Definition validateDirOld (os : DirProbe) (path : string)
    (invalidNameError : Sentinel) : error :=
  validateDir os path invalidNameError [].

Section WithLayout.

(** [t.Format(layout)] of the Go standard library. *)
Variable Format : string -> GoTime.Time -> string.

(** The two instants [validateFolderFormat] formats. *)
Definition format_seconds (waitTime : Q) : Z := GoTime.trunc waitTime.
Definition format_nanoseconds (waitTime : Q) : Z :=
  GoTime.trunc ((waitTime - inject_Z (format_seconds waitTime))
                * inject_Z GoTime.e9)%Q.

Definition formats_collide (waitTime : Q) (folderFormat : string) : bool :=
  let format1 := Format folderFormat (GoTime.time_Unix 0 0) in
  let format2 := Format folderFormat
                   (GoTime.time_Unix (format_seconds waitTime)
                                     (format_nanoseconds waitTime)) in
  format1 =? format2.

Definition validateFolderFormat (os : DirProbe) (waitTime : Q)
    (folderFormat : string) (errs : error) : error :=
  let errs := if formats_collide waitTime folderFormat
              then errors_Join errs [LacksPrecision] else errs in
  validateDir os folderFormat ErrorInvalidFolderFormat errs.

Definition validateSourceAndDestination (env : ValidationEnv)
    (source destination : string) (errs : error) : error :=
  (* Generic directory validation *)
  let errs := errors_Join errs
                (validateDirOld (probe_source env) source ErrorInvalidSource) in
  let errs := errors_Join errs
                (validateDirOld (probe_destination env) destination
                   ErrorInvalidDestination) in
  (* Absolute paths *)
  let '(absSource, ok) := GoPath.Abs (getwd env) source in
  let errs := if ok then errs
              else errors_Join errs [AbsFailure ErrorInvalidSource] in
  let '(absDest, ok) := GoPath.Abs (getwd env) destination in
  let errs := if ok then errs
              else errors_Join errs [AbsFailure ErrorInvalidDestination] in
  (* Source and destination are different *)
  let errs := if absSource =? absDest
              then errors_Join (errors_Join errs [SamePathsSource])
                               [SamePathsDestination]
              else errs in
  (* Destination is not inside of source *)
  let '(relPath, errs) :=
    match GoPath.Rel absSource absDest with
    | Some r => (r, errs)
    | None => ("", errors_Join errs [RelFailure])
    end in
  if negb (GoPath.IsAbs relPath) && negb (GoPath.HasPrefix relPath "..")
     && negb (relPath =? ".")
  then errors_Join errs [InsideSource]
  else errs.

Definition metadataJSONPath (w : Watcher) : string :=
  GoPath.Join (Destination w) "metadata.json".

Definition loadMetadata (file : MetaFile) (w : Watcher)
  : Watcher * option LoadFailure :=
  match file with
  | MetaNotExist => (w, None)
  | MetaUnreadable cause => (w, Some (ReadFailure cause))
  | MetaMalformed cause => (w, Some (ParseFailure cause))
  | MetaContent metadata => (set_Metadata metadata w, None)
  end.

Definition NewWatcher (env : ValidationEnv) (name source destination : string)
    (waitTime : Q) (folderFormat : string) (enabled : bool)
  : Watcher * error :=
  let errs : error := [] in
  let errs := validateName name errs in
  let errs := validateWaitTime waitTime errs in
  let errs := validateFolderFormat (probe_format env) waitTime folderFormat errs in
  let errs := validateSourceAndDestination env source destination errs in
  let w := mkWatcher name source destination enabled waitTime folderFormat
             [] false false [] 0 in
  let '(w, err) := loadMetadata (metadata_file env) w in
  let errs := match err with
              | Some f => errors_Join errs [LoadMetadataFailure f]
              | None => errs
              end in
  (w, errs).

End WithLayout.

(** What [NewWatcher] reports about the metadata file. *)
Definition load_violations (file : MetaFile) : error :=
  match file with
  | MetaUnreadable cause => [LoadMetadataFailure (ReadFailure cause)]
  | MetaMalformed cause => [LoadMetadataFailure (ParseFailure cause)]
  | _ => []
  end.


(** An environment in which every probed path is an existing directory, the
    working directory is [/] and no metadata file exists yet. *)
Definition env_all_directories : ValidationEnv :=
  mkValidationEnv (Some "/") (mkProbe StatDir None) (mkProbe StatDir None)
    (mkProbe StatDir None) MetaNotExist.

(** An environment in which the path named by the folder format is a
    regular file, and source and destination are directories. *)
Definition env_layout_taken : ValidationEnv :=
  mkValidationEnv (Some "/") (mkProbe StatNotDir None) (mkProbe StatDir None)
    (mkProbe StatDir None) MetaNotExist.

(** An environment in which the three probed paths are regular files. *)
Definition env_all_files : ValidationEnv :=
  mkValidationEnv (Some "/") (mkProbe StatNotDir None) (mkProbe StatNotDir None)
    (mkProbe StatNotDir None) MetaNotExist.

(** The layout the command line and the tests use. *)
Definition default_layout : string := "2006-01-02_15-04-05.000000".

(* ================================================================== *)
(** * Directory trees and the tree comparator                          *)
(* ================================================================== *)

(** What is found at a path.  The entries of a directory come in the order
    [os.ReadDir] lists them. *)
Inductive Node : Type :=
| File (content : option string) (mtime : GoTime.Time)
    (* a non-directory [os.Stat] can reach; [None]: [os.ReadFile] fails *)
| Dir (entries : list (string * Node))
| Broken (isDir : bool).
    (* an entry that is listed with this kind but that the system calls
       fail on: [os.ReadDir] for a directory, [os.Stat] otherwise *)

(** The file system, by what is found at each path. *)
Definition FileSystem : Type := string -> option Node.

(** [entry.IsDir()]. *)
Definition IsDir (n : Node) : bool :=
  match n with
  | Dir _ => true
  | Broken isDir => isDir
  | File _ _ => false
  end.

(** [os.Stat(path)] on a listed entry: its [ModTime], or nothing on error. *)
Definition os_Stat (n : Node) : option GoTime.Time :=
  match n with
  | File _ mtime => Some mtime
  | Dir _ => Some (GoTime.mkTime 0 0)
  | Broken _ => None
  end.

(** [os.ReadFile(path)]. *)
Definition os_ReadFile (n : Node) : option string :=
  match n with
  | File content _ => content
  | _ => None
  end.

(** [os.ReadDir(path)]. *)
Definition os_ReadDir (n : option Node) : option (list (string * Node)) :=
  match n with
  | Some (Dir entries) => Some entries
  | _ => None
  end.

(** The errors of the comparator, by the [fmt.Errorf] call. *)
Inductive CompareError : Type :=
| ErrReadSourceDir        (* "error reading source directory: %w" *)
| ErrReadDestDir          (* "error reading destination directory: %w" *)
| ErrStatSourceFile       (* "error stating source file: %v" *)
| ErrStatDestFile         (* "error stating destination file: %v" *)
| ErrReadSourceFile       (* "error reading source file: %v" *)
| ErrReadDestFile         (* "error reading destination file: %v" *)
| ErrComparingDirectories (cause : CompareError)  (* "error comparing directories: %w" *)
| ErrComparingFiles (cause : CompareError).       (* "error comparing files: %w" *)

Definition doFilesMatch (source destination : Node) : bool * option CompareError :=
  match os_Stat source with
  | None => (false, Some ErrStatSourceFile)
  | Some sourceModTime =>
  match os_Stat destination with
  | None => (false, Some ErrStatDestFile)
  | Some destModTime =>
  match os_ReadFile source with
  | None => (false, Some ErrReadSourceFile)
  | Some sourceContent =>
  match os_ReadFile destination with
  | None => (false, Some ErrReadDestFile)
  | Some destContent =>
      if negb (sourceContent =? destContent) then (false, None)
      else if negb (GoTime.Time_eqb sourceModTime destModTime) then (false, None)
      else (true, None)
  end end end end.

(** [doFoldersMatch] on what the two paths hold.  The tree found at
    [filepath.Join(source, entry.Name())] is the listed entry itself. *)
Fixpoint doFoldersMatch_at (source destination : Node) {struct source}
  : bool * option CompareError :=
  match source with
  | Dir sourceEntries =>
      match destination with
      | Dir destEntries =>
          if negb (List.length sourceEntries =? List.length destEntries)%nat
          then (false, None)
          else
            (fix each (ses des : list (string * Node)) {struct ses}
               : bool * option CompareError :=
               match ses, des with
               | (sourceName, sourceEntry) :: ses', (destName, destinationEntry) :: des' =>
                   if negb (sourceName =? destName) then (false, None)
                   else if IsDir sourceEntry && IsDir destinationEntry then
                     match doFoldersMatch_at sourceEntry destinationEntry with
                     | (_, Some err) => (false, Some (ErrComparingDirectories err))
                     | (false, None) => (false, None)
                     | (true, None) => each ses' des'
                     end
                   else if negb (IsDir sourceEntry) && negb (IsDir destinationEntry) then
                     match doFilesMatch sourceEntry destinationEntry with
                     | (_, Some err) => (false, Some (ErrComparingFiles err))
                     | (false, None) => (false, None)
                     | (true, None) => each ses' des'
                     end
                   else (false, None)
               | _, _ => (true, None)
               end) sourceEntries destEntries
      | _ => (false, Some ErrReadDestDir)
      end
  | _ => (false, Some ErrReadSourceDir)
  end.

Definition doFoldersMatch (fs : FileSystem) (source destination : string)
  : bool * option CompareError :=
  match os_ReadDir (fs source) with
  | None => (false, Some ErrReadSourceDir)
  | Some sourceEntries =>
      match os_ReadDir (fs destination) with
      | None => (false, Some ErrReadDestDir)
      | Some destEntries =>
          doFoldersMatch_at (Dir sourceEntries) (Dir destEntries)
      end
  end.

(** ** The comparison as the specification words it *)

(** Two listed entries are of the same kind (file or directory). *)
Definition same_kind (a b : Node) : Prop := IsDir a = IsDir b.

(** Two files match: both can be read, with the same bytes and the same
    modification time. *)
Definition files_match (a b : Node) : Prop :=
  exists content ma mb,
    a = File (Some content) ma /\ b = File (Some content) mb
    /\ GoTime.Unix ma = GoTime.Unix mb
    /\ GoTime.Nanosecond ma = GoTime.Nanosecond mb.

(** Two directory trees match: at every level the counts agree and every
    positional pair has the same name, the same kind, matching subtrees for
    directories and matching content and time for files. *)
Inductive trees_match : Node -> Node -> Prop :=
| trees_match_dir : forall ses des,
    List.length ses = List.length des ->
    entries_match ses des ->
    trees_match (Dir ses) (Dir des)
with entries_match : list (string * Node) -> list (string * Node) -> Prop :=
| entries_match_nil : entries_match [] []
| entries_match_dir : forall name s d ses des,
    IsDir s = true -> IsDir d = true ->
    trees_match s d ->
    entries_match ses des ->
    entries_match ((name, s) :: ses) ((name, d) :: des)
| entries_match_file : forall name s d ses des,
    IsDir s = false -> IsDir d = false ->
    files_match s d ->
    entries_match ses des ->
    entries_match ((name, s) :: ses) ((name, d) :: des).

(** The loop of [doFoldersMatch] over the positional pairs, with the
    recursive call taken as [compare]. *)
Fixpoint compare_entries (compare : Node -> Node -> bool * option CompareError)
    (ses des : list (string * Node)) : bool * option CompareError :=
  match ses, des with
  | (sourceName, sourceEntry) :: ses', (destName, destinationEntry) :: des' =>
      if negb (sourceName =? destName) then (false, None)
      else if IsDir sourceEntry && IsDir destinationEntry then
        match compare sourceEntry destinationEntry with
        | (_, Some err) => (false, Some (ErrComparingDirectories err))
        | (false, None) => (false, None)
        | (true, None) => compare_entries compare ses' des'
        end
      else if negb (IsDir sourceEntry) && negb (IsDir destinationEntry) then
        match doFilesMatch sourceEntry destinationEntry with
        | (_, Some err) => (false, Some (ErrComparingFiles err))
        | (false, None) => (false, None)
        | (true, None) => compare_entries compare ses' des'
        end
      else (false, None)
  | _, _ => (true, None)
  end.

(* ================================================================== *)
(** * Methods of the watcher: state, effects and blocking              *)
(* ================================================================== *)

Inductive Goroutine : Type := GoStartFSNotifyWatcher | GoBackupLoop.

(** What a [cp.Copy] call did. *)
Inductive CopyResult : Type :=
| Copied                          (* returned nil *)
| CopyFailed (leftTarget : bool). (* returned an error; the target folder was
                                     created all the same, or not *)

(** What a method does to the world around the watcher, in order. *)
Inductive Effect : Type :=
| ESpawn (g : Goroutine)                                (* go w.g() *)
| ERequestBackup                                        (* w.backupRequestChan <- struct{}{} *)
| EStat (path : string)                                 (* os.Stat *)
| ECopy (source destination : string) (r : CopyResult)  (* cp.Copy, PreserveTimes *)
| ESleep (milliseconds : Z)                             (* time.Sleep *)
| EWriteFile (path : string) (history : list Backup) (ok : bool)
                                                        (* os.WriteFile of the marshalled history *)
| EOnBackupCompletion (o : BackupCompleteObserver).     (* observer.OnBackupCompletion(w) *)

(** A method either returns, or stays blocked for ever (on the mutex it
    already holds, or on the full channel). *)
Inductive Outcome (A : Type) : Type :=
| Returns (a : A) (w : Watcher) (trace : list Effect)
| Blocks (w : Watcher) (trace : list Effect).
Arguments Returns {A} a w trace.
Arguments Blocks {A} w trace.

Definition Go (A : Type) : Type := Watcher -> Outcome A.

Definition ret {A} (a : A) : Go A := fun w => Returns a w [].

Definition bind {A B} (m : Go A) (k : A -> Go B) : Go B :=
  fun w =>
    match m w with
    | Returns a w' t =>
        match k a w' with
        | Returns b w'' t' => Returns b w'' (t ++ t')%list
        | Blocks w'' t' => Blocks w'' (t ++ t')%list
        end
    | Blocks w' t => Blocks w' t
    end.

Declare Scope go_scope.
Delimit Scope go_scope with go.
Notation "x <- m ;; k" := (bind m (fun x => k))
  (at level 61, m at next level, right associativity) : go_scope.
Notation "m ;; k" := (bind m (fun _ => k))
  (at level 61, right associativity) : go_scope.
Open Scope go_scope.

Definition get : Go Watcher := fun w => Returns w w [].
Definition modify (f : Watcher -> Watcher) : Go unit := fun w => Returns tt (f w) [].
Definition emit (e : Effect) : Go unit := fun w => Returns tt w [e].

(** [w.mu.Lock()]: [sync.Mutex] is not reentrant. *)
Definition Lock : Go unit :=
  fun w => if mu w then Blocks w [] else Returns tt (set_mu true w) [].

(** [w.mu.Unlock()]. *)
Definition Unlock : Go unit := modify (set_mu false).

(** [w.backupRequestChan <- struct{}{}]. *)
Definition send_backupRequest : Go unit :=
  fun w =>
    if (backupRequestChan w <? backupRequestChan_capacity)%nat
    then Returns tt (set_backupRequestChan (S (backupRequestChan w)) w) [ERequestBackup]
    else Blocks w [].

Fixpoint for_each {A} (l : list A) (body : A -> Go unit) : Go unit :=
  match l with
  | [] => ret tt
  | x :: l' => body x ;; for_each l' body
  end.

(** ** The observer registry *)

Definition AddObserver (observer : BackupCompleteObserver) : Go unit :=
  Lock ;;
  w <- get ;;
  (if existsb (Nat.eqb observer) (customObservers w)
   then ret tt (* Already added *)
   else modify (set_customObservers (customObservers w ++ [observer])%list)) ;;
  Unlock.

Fixpoint remove_first (observer : BackupCompleteObserver)
    (l : list BackupCompleteObserver) : list BackupCompleteObserver :=
  match l with
  | [] => []
  | obs :: l' => if Nat.eqb obs observer then l' else obs :: remove_first observer l'
  end.

Definition RemoveObserver (observer : BackupCompleteObserver) : Go unit :=
  Lock ;;
  w <- get ;;
  modify (set_customObservers (remove_first observer (customObservers w))) ;;
  Unlock.

(** What an observer's [OnBackupCompletion] does with the watcher it is
    handed. *)
Inductive RegistryCall : Type :=
| CallAddObserver (o : BackupCompleteObserver)
| CallRemoveObserver (o : BackupCompleteObserver).

Definition Callbacks : Type := BackupCompleteObserver -> list RegistryCall.

Definition run_call (c : RegistryCall) : Go unit :=
  match c with
  | CallAddObserver o => AddObserver o
  | CallRemoveObserver o => RemoveObserver o
  end.

(** [observer.OnBackupCompletion(w)]. *)
Definition OnBackupCompletion (cb : Callbacks) (observer : BackupCompleteObserver)
  : Go unit :=
  emit (EOnBackupCompletion observer) ;;
  for_each (cb observer) run_call.

Definition notifyObservers (cb : Callbacks) : Go unit :=
  Lock ;;
  w <- get ;;
  let observers := customObservers w in  (* copy(observers, w.customObservers) *)
  for_each observers (OnBackupCompletion cb) ;;
  Unlock.  (* deferred *)

(** Observers whose callback leaves the registry alone. *)
Definition passive (cb : Callbacks) : Prop := forall o, cb o = [].

Definition no_callbacks : Callbacks := fun _ => [].

(** ** One snapshot attempt *)

(** The environment of one call of [createBackup]. *)
Record SnapshotEnv : Type := mkSnapshotEnv {
  now : GoTime.Time;               (* time.Now() *)
  path_exists : string -> bool;    (* os.Stat(path) returns no error *)
  copy_result : nat -> CopyResult; (* the result of the n-th call of cp.Copy *)
  write_ok : bool                  (* os.WriteFile returns no error *)
}.

(** The retry loop: at most [n] calls of [cp.Copy], 100 ms after each
    failure. *)
Fixpoint copy_attempts (env : SnapshotEnv) (source destination : string)
    (n i : nat) : Go unit :=
  match n with
  | O => ret tt
  | S n' =>
      match copy_result env i with
      | Copied => emit (ECopy source destination Copied)
      | CopyFailed leftTarget =>
          emit (ECopy source destination (CopyFailed leftTarget)) ;;
          emit (ESleep 100) ;;
          copy_attempts env source destination n' (S i)
      end
  end.

Definition saveMetadata (env : SnapshotEnv) : Go unit :=
  w <- get ;;
  emit (EWriteFile (metadataJSONPath w) (Metadata w) (write_ok env)).

Section WithLayoutMethods.

Variable Format : string -> GoTime.Time -> string.

Definition createBackup (cb : Callbacks) (env : SnapshotEnv) : Go unit :=
  Lock ;;
  w <- get ;;
  let sourceSnapshot := Source w in
  let destinationSnapshot := Destination w in
  let folderFormatSnapshot := FolderFormat w in
  Unlock ;;
  let timestamp := now env in
  let timestampFolder := Format folderFormatSnapshot timestamp in
  let destinationPath := GoPath.Join destinationSnapshot timestampFolder in
  emit (EStat destinationPath) ;;
  if path_exists env destinationPath then ret tt
  else
    copy_attempts env sourceSnapshot destinationPath 100 0 ;;
    let backup := mkBackup "" (GoTime.seconds_since_epoch timestamp)
                    timestampFolder false in
    Lock ;;
    modify (fun w => set_Metadata (Metadata w ++ [backup])%list w) ;;
    Unlock ;;
    saveMetadata env ;;
    notifyObservers cb.

End WithLayoutMethods.

(** ** Start *)

Inductive StartError : Type :=
| WatcherDisabled                  (* "watcher is disabled" *)
| WatcherAlreadyRunning            (* "watcher is already running" *)
| CheckFailed (cause : CompareError).
    (* "error checking if backup is up to date: %w" *)

Definition no_backup : Backup := mkBackup "" 0 "" false.

Definition createBackupIfBackupIsOutdated (fs : FileSystem)
  : Go (option CompareError) :=
  w <- get ;;
  if (List.length (Metadata w) =? 0)%nat then
    send_backupRequest ;; ret None
  else
    let latestBackupPath :=
      GoPath.Join (Destination w) (Path (List.last (Metadata w) no_backup)) in
    match doFoldersMatch fs (Source w) latestBackupPath with
    | (_, Some err) => ret (Some err)
    | (foldersMatch, None) =>
        (if negb foldersMatch then send_backupRequest else ret tt) ;;
        ret None
    end.

(** [StartWatcher].  The field [fsnotifyWatcher] is set by the goroutine
    [startFSNotifyWatcher] as its first step; it is set here when the
    goroutine is started. *)
Definition StartWatcher (fs : FileSystem) : Go (option StartError) :=
  Lock ;;
  w <- get ;;
  if negb (Enabled w) then Unlock ;; ret (Some WatcherDisabled)
  else if fsnotifyWatcher w then Unlock ;; ret (Some WatcherAlreadyRunning)
  else
    emit (ESpawn GoStartFSNotifyWatcher) ;;
    modify (set_fsnotifyWatcher true) ;;
    emit (ESpawn GoBackupLoop) ;;
    err <- createBackupIfBackupIsOutdated fs ;;
    Unlock ;;
    match err with
    | Some e => ret (Some (CheckFailed e))
    | None => ret None
    end.


(** The number of backup requests a trace puts on the channel. *)
Definition requests (trace : list Effect) : nat :=
  List.length (filter (fun e => match e with ERequestBackup => true | _ => false end)
                 trace).

(** The observers a trace calls back, in order. *)
Definition notified (trace : list Effect) : list BackupCompleteObserver :=
  flat_map (fun e => match e with EOnBackupCompletion o => [o] | _ => [] end) trace.

(** The calls of [cp.Copy] in a trace. *)
Definition copies (trace : list Effect) : list CopyResult :=
  flat_map (fun e => match e with ECopy _ _ r => [r] | _ => [] end) trace.

(** The pauses of a trace, in milliseconds. *)
Definition sleeps (trace : list Effect) : list Z :=
  flat_map (fun e => match e with ESleep ms => [ms] | _ => [] end) trace.

(** The histories a trace writes to the metadata file. *)
Definition writes (trace : list Effect) : list (string * list Backup) :=
  flat_map (fun e => match e with EWriteFile p h _ => [(p, h)] | _ => [] end) trace.

(** A trace put in front of what follows. *)
Definition prepend {A} (t : list Effect) (o : Outcome A) : Outcome A :=
  match o with
  | Returns a w t' => Returns a w (t ++ t')%list
  | Blocks w t' => Blocks w (t ++ t')%list
  end.

(** The watcher an outcome leaves, and its trace. *)
Definition final_watcher {A} (o : Outcome A) : Watcher :=
  match o with Returns _ w _ => w | Blocks w _ => w end.

Definition trace_of {A} (o : Outcome A) : list Effect :=
  match o with Returns _ _ t => t | Blocks _ t => t end.

(** The effects of the retry loop. *)
Fixpoint copy_trace (env : SnapshotEnv) (source destination : string)
    (n i : nat) : list Effect :=
  match n with
  | O => []
  | S n' =>
      match copy_result env i with
      | Copied => [ECopy source destination Copied]
      | CopyFailed leftTarget =>
          ECopy source destination (CopyFailed leftTarget)
          :: ESleep 100 :: copy_trace env source destination n' (S i)
      end
  end.

Definition is_failure (r : CopyResult) : bool :=
  match r with Copied => false | CopyFailed _ => true end.

(** A record and the instant it was taken at, under a layout. *)
Definition record_of (Format : string -> GoTime.Time -> string)
    (layout : string) (t : GoTime.Time) : Backup :=
  mkBackup "" (GoTime.seconds_since_epoch t) (Format layout t) false.


(** A watcher as the tests build it: observers 1 and 2 registered, one
    earlier backup in the history. *)
Definition sample_watcher : Watcher :=
  mkWatcher "Test Watcher" "/tmp/source" "/tmp/destination" true 1
    default_layout
    [mkBackup "" 1700000000 "2023-11-14_22-13-20.000000" false]
    false true [1; 2]%nat 0.

(** An environment in which the target is free, the first two copies fail
    on a locked file and the third succeeds. *)
Definition sample_snapshot_env : SnapshotEnv :=
  mkSnapshotEnv (GoTime.mkTime 1700000100 250000000) (fun _ => false)
    (fun i => if (i <? 2)%nat then CopyFailed false else Copied) true.

(** An environment in which the target folder is already there. *)
Definition taken_snapshot_env : SnapshotEnv :=
  mkSnapshotEnv (GoTime.mkTime 1700000100 250000000) (fun _ => true)
    (fun _ => Copied) true.

(** An environment in which no copy ever succeeds and the metadata file
    cannot be written. *)
Definition failing_snapshot_env : SnapshotEnv :=
  mkSnapshotEnv (GoTime.mkTime 1700000100 250000000) (fun _ => false)
    (fun _ => CopyFailed false) false.

(** An observer that unregisters itself when it is called back. *)
Definition unregistering : Callbacks := fun o => [CallRemoveObserver o].

(** A file system with the source of [sample_watcher] and its latest backup
    holding the same tree. *)
Definition sample_tree : Node :=
  Dir [ ("file0.txt", File (Some "abc") (GoTime.mkTime 1672574400 0));
        ("subfolder0", Dir [("file0.txt", File (Some "xyz") (GoTime.mkTime 1672574400 5))]) ].

Definition fs_in_sync : FileSystem :=
  fun p => if p =? "/tmp/source" then Some sample_tree
           else if p =? "/tmp/destination/2023-11-14_22-13-20.000000"
                then Some sample_tree
                else None.

(** The same, after a file of the source was touched. *)
Definition fs_diverged : FileSystem :=
  fun p => if p =? "/tmp/source"
           then Some (Dir [ ("file0.txt", File (Some "abc") (GoTime.mkTime 1672574401 0));
                            ("subfolder0",
                             Dir [("file0.txt", File (Some "xyz") (GoTime.mkTime 1672574400 5))]) ])
           else fs_in_sync p.

(** [sample_watcher] before it is started. *)
Definition stopped_watcher : Watcher := set_fsnotifyWatcher false sample_watcher.

(* ================================================================== *)
(** * The debounce loop                                                *)
(* ================================================================== *)

(** Instants and durations are counts of nanoseconds.  The loop
    ([backupLoop]) and the notifier ([startFSNotifyWatcher]) share the
    channel [backupRequestChan]; everything else of the loop is local.

    The two goroutines run as soon as they can: a send that has room, a
    receive and the arming of the timer take no time, while a call of
    [createBackup] takes the time its [duration] says, during which the
    loop is not at its [select]. *)

Record Loop : Type := mkLoop {
  timer : option Z;     (* [timerChan]: when the armed timer expires; [None]: nil *)
  busy : option Z;      (* inside [createBackup] until this instant *)
  stopped : bool;       (* [backupLoop] has returned *)
  chan : nat;           (* requests waiting in [backupRequestChan] *)
  queued : nat;         (* file events the notifier has still to send *)
  received : nat;       (* requests the loop has taken from the channel *)
  attempts : list Z     (* the instants at which [createBackup] was called *)
}.

(** The loop at its [select], nothing armed, nothing requested. *)
Definition idle : Loop := mkLoop None None false 0 0 0 [].

(** The cases of the [select] of [backupLoop]. *)
Inductive SelectCase : Type := CaseStop | CaseRequest | CaseTimer.

(** [time.Duration(w.WaitTime * float64(time.Second))]. *)
Definition wait_of (w : Watcher) : Z :=
  GoTime.trunc (WaitTime w * inject_Z GoTime.e9)%Q.

(** [time.Now()] as a count of nanoseconds, back as a [time.Time]. *)
Definition instant (n : Z) : GoTime.Time :=
  GoTime.mkTime (n / GoTime.e9) (n mod GoTime.e9).

Section DebounceLoop.

(** The wait time of the watcher, and how long the snapshot attempt started
    at a given instant runs. *)
Variable wait : Z.
Variable duration : Z -> Z.

(** Whether a case of the [select] can be taken at instant [now]. *)
Definition ready (c : SelectCase) (now : Z) (l : Loop) : bool :=
  match c with
  | CaseStop => false  (* nothing in watcher.go closes or writes [stopChan] *)
  | CaseRequest => (0 <? chan l)%nat
  | CaseTimer => match timer l with
                 | Some deadline => (deadline <=? now)%Z
                 | None => false
                 end
  end.

(** The body of a case of the [select], taken at instant [now]. *)
Definition backupLoop_case (c : SelectCase) (now : Z) (l : Loop) : Loop :=
  match c with
  | CaseStop =>
      mkLoop (timer l) (busy l) true (chan l) (queued l) (received l) (attempts l)
  | CaseRequest =>
      (* timer.Stop(); timer = time.NewTimer(wait); timerChan = timer.C *)
      mkLoop (Some (now + Z.max 0 wait)%Z) (busy l) (stopped l) (pred (chan l))
        (queued l) (S (received l)) (attempts l)
  | CaseTimer =>
      (* w.createBackup(); timer = nil; timerChan = nil *)
      mkLoop None (Some (now + Z.max 0 (duration now))%Z) (stopped l) (chan l)
        (queued l) (received l) (attempts l ++ [now])%list
  end.

(** [createBackup] returns: the loop is back at its [select]. *)
Definition createBackup_returns (l : Loop) : Loop :=
  mkLoop (timer l) None (stopped l) (chan l) (queued l) (received l) (attempts l).

(** The file system reports a change. *)
Definition file_event (l : Loop) : Loop :=
  mkLoop (timer l) (busy l) (stopped l) (chan l) (S (queued l)) (received l)
    (attempts l).

(** The notifier sends the request of its oldest event, if the channel has
    room; otherwise it stays blocked on the send. *)
Definition notifier_sends (l : Loop) : Loop :=
  match queued l with
  | S q =>
      if (chan l <? backupRequestChan_capacity)%nat
      then mkLoop (timer l) (busy l) (stopped l) (S (chan l)) q (received l)
             (attempts l)
      else l
  | O => l
  end.

(** With the loop at its [select] at instant [now]: the requests go
    through the channel one by one until none is left. *)
Fixpoint settle (fuel : nat) (now : Z) (l : Loop) : Loop :=
  match fuel with
  | O => l
  | S fuel' =>
      if ready CaseRequest now l
      then settle fuel' now (backupLoop_case CaseRequest now l)
      else match queued l with
           | S _ => settle fuel' now (notifier_sends l)
           | O => l
           end
  end.

Definition settle_all (now : Z) (l : Loop) : Loop :=
  settle (2 * (queued l + chan l)) now l.

(** Everything that happens up to instant [t] with no new file event: the
    running snapshot returns and the waiting requests are taken; an expired
    timer starts a snapshot.  An expiry at [t] itself comes first (Go leaves
    the choice open when a request is ready at the same instant). *)
Fixpoint advance (fuel : nat) (t : Z) (l : Loop) : Loop :=
  match fuel with
  | O => l
  | S fuel' =>
      match busy l with
      | Some finish =>
          if (finish <=? t)%Z
          then advance fuel' t (settle_all finish (createBackup_returns l))
          else l
      | None =>
          match timer l with
          | Some deadline =>
              if (deadline <=? t)%Z
              then advance fuel' t (backupLoop_case CaseTimer deadline l)
              else l
          | None => l
          end
      end
  end.

(** Enough for a loop whose channel is empty whenever it is at its
    [select]: see [advance_is_complete]. *)
Definition advance_fuel : nat := 5.

(** A file event at instant [t]. *)
Definition notify (l : Loop) (t : Z) : Loop :=
  let l := file_event (advance advance_fuel t l) in
  match busy l with
  | Some _ => notifier_sends l
  | None => settle_all t l
  end.

(** The file events of a list, in order. *)
Definition run (events : list Z) (l : Loop) : Loop := fold_left notify events l.

(** No more file events: the loop runs until nothing is left to do. *)
Fixpoint quiesce (fuel : nat) (l : Loop) : Loop :=
  match fuel with
  | O => l
  | S fuel' =>
      match busy l with
      | Some finish => quiesce fuel' (settle_all finish (createBackup_returns l))
      | None =>
          match timer l with
          | Some deadline => quiesce fuel' (backupLoop_case CaseTimer deadline l)
          | None => l
          end
      end
  end.

Definition quiescent (l : Loop) : Prop :=
  timer l = None /\ busy l = None /\ chan l = 0%nat /\ queued l = 0%nat.

(** Nothing is due at instant [t]. *)
Definition nothing_due (t : Z) (l : Loop) : Prop :=
  match busy l with
  | Some finish => (t < finish)%Z
  | None => match timer l with
            | Some deadline => (t < deadline)%Z
            | None => True
            end
  end.

(** At its [select] the loop has taken every request. *)
Definition drained (l : Loop) : Prop :=
  (chan l <= backupRequestChan_capacity)%nat
  /\ (busy l = None -> chan l = 0%nat /\ queued l = 0%nat)
  /\ (busy l <> None -> timer l = None).

End DebounceLoop.

(** Every pair of neighbours of a list of instants satisfies [P]. *)
Fixpoint neighbours (P : Z -> Z -> Prop) (ts : list Z) : Prop :=
  match ts with
  | t1 :: ((t2 :: _) as rest) => P t1 t2 /\ neighbours P rest
  | _ => True
  end.

(** ** From the attempts to the history *)

Definition leaves_target (r : CopyResult) : bool :=
  match r with Copied => true | CopyFailed leftTarget => leftTarget end.

(** The paths on disk after the copies of a trace. *)
Definition disk_after (disk : list string) (trace : list Effect) : list string :=
  (flat_map (fun e => match e with
                      | ECopy _ destination r =>
                          if leaves_target r then [destination] else []
                      | _ => []
                      end) trace ++ disk)%list.

Definition on_disk (disk : list string) (path : string) : bool :=
  existsb (String.eqb path) disk.

(** The environment of the snapshot attempt made at instant [t]: the clock
    reads [t], a path exists when it is on disk. *)
Definition attempt_env (copy : Z -> nat -> CopyResult) (write : Z -> bool)
    (disk : list string) (t : Z) : SnapshotEnv :=
  mkSnapshotEnv (instant t) (on_disk disk) (copy t) (write t).

(** The snapshot attempts made at the given instants, one after the other:
    the watcher and the disk they leave. *)
Fixpoint replay (Format : string -> GoTime.Time -> string) (cb : Callbacks)
    (copy : Z -> nat -> CopyResult) (write : Z -> bool)
    (ts : list Z) (disk : list string) (w : Watcher) : Watcher * list string :=
  match ts with
  | [] => (w, disk)
  | t :: ts' =>
      match createBackup Format cb (attempt_env copy write disk t) w with
      | Returns _ w' trace =>
          replay Format cb copy write ts' (disk_after disk trace) w'
      | Blocks w' trace => (w', disk_after disk trace)
      end
  end.

(** Every copy succeeds at once, every write succeeds. *)
Definition copy_always_works : Z -> nat -> CopyResult := fun _ _ => Copied.
Definition write_always_works : Z -> bool := fun _ => true.

(** One second, in nanoseconds. *)
Definition second_ns : Z := 1000000000.

(** The loop after it has taken [n] requests at instant [now]: the timer is
    armed afresh, the channel and the notifier are empty. *)
Definition took (wait : Z) (n : nat) (now : Z) (l : Loop) : Loop :=
  mkLoop (Some (now + Z.max 0 wait)%Z) (busy l) (stopped l) 0 0
    (n + received l) (attempts l).

(** The folder a snapshot attempt of [w] at instant [t] goes to. *)
Definition target_of (Format : string -> GoTime.Time -> string) (w : Watcher)
    (t : Z) : string :=
  GoPath.Join (Destination w) (Format (FolderFormat w) (instant t)).

(** A watcher with a wait time of ten seconds and no history. *)
Definition slow_watcher : Watcher :=
  mkWatcher "Main Watcher" "/tmp/source" "/tmp/destination" true 10
    default_layout [] false true [] 0.

(** A watcher whose folders are named by the second of the minute; the
    layout tells the epoch from one second later, so [NewWatcher] takes it. *)
Definition seconds_watcher : Watcher :=
  mkWatcher "Main Watcher" "/tmp/source" "/tmp/destination" true 1
    "05" [] false true [] 0.

(** The scenario of the test [TestAddingFilesSlowly]: five files written
    500 ms apart, with a wait time of one second. *)
Definition five_files_500ms_apart : list Z :=
  [0; 500000000; 1000000000; 1500000000; 2000000000]%Z.

(** A loop inside the snapshot attempt it started at 1 s, which runs until
    60.5 s. *)
Definition loop_in_snapshot : Loop :=
  mkLoop None (Some 60500000000%Z) false 0 0 1 [1000000000%Z].

(** The violations that relate a source and a destination given by their
    elements below the root. *)
Definition relational_violations (s d : list string) : error :=
  ((if GoPath.rooted s =? GoPath.rooted d
    then [SamePathsSource; SamePathsDestination] else [])
   ++ match GoPath.Rel (GoPath.rooted s) (GoPath.rooted d) with
      | Some r =>
          if negb (GoPath.IsAbs r) && negb (GoPath.HasPrefix r "..") && negb (r =? ".")
          then [InsideSource] else []
      | None => [RelFailure; InsideSource]
      end)%list.

(** The loop right after [StartWatcher]: at its [select], with the requests
    that the start has put on the channel. *)
Definition loop_of (w : Watcher) : Loop :=
  mkLoop None None false (backupRequestChan w) 0 0 [].
(* ================================================================== *)
(** * Notions used by the further properties                           *)
(* ================================================================== *)

(** After [validateDir] the path is a directory: it was one, or it did not
    exist and [os.MkdirAll] made it. *)
Definition usable_directory (os : DirProbe) : Prop :=
  probe_stat os = StatDir
  \/ (probe_stat os = StatNotExist /\ probe_mkdir os = None).

(** [os.Stat] answers in a way [validateDir] reports under the caller's
    sentinel: the path is there and no directory, or the call failed for
    another reason than the path not existing. *)
Definition stat_rejects (os : DirProbe) : Prop :=
  match probe_stat os with
  | StatDir | StatNotExist => False
  | StatNotDir | StatPathError _ | StatOtherError _ => True
  end.

(** The test [validateSourceAndDestination] makes on the relative path from
    the source to the destination; a failed [filepath.Rel] leaves the empty
    string in [relPath]. *)
Definition seen_inside (absSource absDest : string) : bool :=
  let relPath := match GoPath.Rel absSource absDest with
                 | Some r => r
                 | None => ""
                 end in
  negb (GoPath.IsAbs relPath) && negb (GoPath.HasPrefix relPath "..")
  && negb (relPath =? ".").

(** An environment in which [os.Getwd] fails; the three probed paths are
    directories. *)
Definition env_no_working_directory : ValidationEnv :=
  mkValidationEnv None (mkProbe StatDir None) (mkProbe StatDir None)
    (mkProbe StatDir None) MetaNotExist.


(** The folder of the most recent record of the history. *)
Definition latest_backup_path (w : Watcher) : string :=
  GoPath.Join (Destination w) (Path (List.last (Metadata w) no_backup)).

(** Everything in a tree can be read: the directories can be listed, the
    files can be stated and read. *)
Fixpoint readable (n : Node) : bool :=
  match n with
  | File content _ => match content with Some _ => true | None => false end
  | Dir entries => forallb (fun e => readable (snd e)) entries
  | Broken _ => false
  end.

(* ================================================================== *)
(** * The comparison the tests use                                     *)
(* ================================================================== *)

(** The errors of [CompareFiles] (test helpers), by the [fmt.Errorf] call;
    the file names of the two messages about a difference are left out. *)
Inductive CompareFilesError : Type :=
| StatingSourceFile      (* "error stating source file: %v" *)
| StatingDestinationFile (* "error stating destination file: %v" *)
| ReadingSourceFile      (* "error reading source file: %v" *)
| ReadingDestinationFile (* "error reading destination file: %v" *)
| ContentsDiffer (sourceContent destContent : string)
    (* "file contents don't match. ..." with the contents cut to 100 bytes *)
| ModTimesDiffer (sourceModTime destModTime : GoTime.Time).
    (* "file modification times don't match. ..." *)

(** [content[:100]] when [len(content) > 100]. *)
Definition first_100 (content : string) : string :=
  if (100 <? String.length content)%nat then GoTime.take 100 content else content.

(** [CompareFiles]: [None] is the [nil] error. *)
Definition CompareFiles (source destination : Node) : option CompareFilesError :=
  match os_Stat source with
  | None => Some StatingSourceFile
  | Some sourceModTime =>
  match os_Stat destination with
  | None => Some StatingDestinationFile
  | Some destModTime =>
  match os_ReadFile source with
  | None => Some ReadingSourceFile
  | Some sourceContent =>
  match os_ReadFile destination with
  | None => Some ReadingDestinationFile
  | Some destContent =>
      if negb (sourceContent =? destContent)
      then Some (ContentsDiffer (first_100 sourceContent) (first_100 destContent))
      else if negb (GoTime.Time_eqb sourceModTime destModTime)
      then Some (ModTimesDiffer sourceModTime destModTime)
      else None
  end end end end.

(** The calls of [t.Fatalf] in [CompareSourceAndDestination]; each one ends
    the test. *)
Inductive TestFatal : Type :=
| FatalReadingSource       (* "Error reading source directory: %v" *)
| FatalReadingDestination  (* "Error reading destination directory: %v" *)
| FatalEntryCounts (sourceCount destCount : nat)
    (* "Directory entry counts don't match. ..." *)
| FatalEntryNames (index : nat) (sourceName destName : string)
    (* "Directory entries don't match at index %d. ..." *)
| FatalComparingFiles (err : CompareFilesError)  (* "Error comparing files: %v" *)
| FatalTypeMismatch (name : string).            (* "Type mismatch for entry: %s" *)

(** [CompareSourceAndDestination] on what the two paths hold: [None] when
    it returns, the test going on. *)
Fixpoint CompareSourceAndDestination (source destination : Node) {struct source}
  : option TestFatal :=
  match source with
  | Dir sourceEntries =>
      match destination with
      | Dir destEntries =>
          if negb (List.length sourceEntries =? List.length destEntries)%nat
          then Some (FatalEntryCounts (List.length sourceEntries)
                       (List.length destEntries))
          else
            (fix each (i : nat) (ses des : list (string * Node)) {struct ses}
               : option TestFatal :=
               match ses, des with
               | (sourceName, sourceEntry) :: ses', (destName, destinationEntry) :: des' =>
                   if negb (sourceName =? destName)
                   then Some (FatalEntryNames i sourceName destName)
                   else if IsDir sourceEntry && IsDir destinationEntry then
                     match CompareSourceAndDestination sourceEntry destinationEntry with
                     | Some fatal => Some fatal
                     | None => each (S i) ses' des'
                     end
                   else if negb (IsDir sourceEntry) && negb (IsDir destinationEntry) then
                     match CompareFiles sourceEntry destinationEntry with
                     | Some err => Some (FatalComparingFiles err)
                     | None => each (S i) ses' des'
                     end
                   else Some (FatalTypeMismatch sourceName)
               | _, _ => None
               end) 0%nat sourceEntries destEntries
      | _ => Some FatalReadingDestination
      end
  | _ => Some FatalReadingSource
  end.

(** The loop of [CompareSourceAndDestination] from index [i] on, with the
    recursive call taken as [check]. *)
Fixpoint check_entries (check : Node -> Node -> option TestFatal) (i : nat)
    (ses des : list (string * Node)) : option TestFatal :=
  match ses, des with
  | (sourceName, sourceEntry) :: ses', (destName, destinationEntry) :: des' =>
      if negb (sourceName =? destName)
      then Some (FatalEntryNames i sourceName destName)
      else if IsDir sourceEntry && IsDir destinationEntry then
        match check sourceEntry destinationEntry with
        | Some fatal => Some fatal
        | None => check_entries check (S i) ses' des'
        end
      else if negb (IsDir sourceEntry) && negb (IsDir destinationEntry) then
        match CompareFiles sourceEntry destinationEntry with
        | Some err => Some (FatalComparingFiles err)
        | None => check_entries check (S i) ses' des'
        end
      else Some (FatalTypeMismatch sourceName)
  | _, _ => None
  end.

(* ================================================================== *)
(** * Counting in the debounce loop                                    *)
(* ================================================================== *)

(** 1 when the timer of the loop is armed, 0 otherwise. *)
Definition armed (l : Loop) : nat :=
  match timer l with Some _ => 1 | None => 0 end.

(** The file events the loop has heard of: the requests it has received,
    the one in the channel and the ones the notifier holds back. *)
Definition heard (l : Loop) : nat := (received l + chan l + queued l)%nat.

Section LoopMoves.

Variable wait : Z.
Variable duration : Z -> Z.

(** The two moves a loop makes on its own, in the two shapes it can have
    between file events (at its [select] with the channel empty, or inside
    a snapshot): the timer expires and a snapshot starts; the snapshot
    returns and the requests that have gathered are taken.  A property is
    closed under a move when it passes from the state before to the state
    after; [bound] limits the instant of the move. *)
Definition closed_under_expiry (bound : option Z) (I : Loop -> Prop) : Prop :=
  forall dl st rc ats,
    match bound with Some t => (dl <= t)%Z | None => True end ->
    I (mkLoop (Some dl) None st 0 0 rc ats) ->
    I (mkLoop None (Some (dl + Z.max 0 (duration dl))%Z) st 0 0 rc
         (ats ++ [dl])%list).

Definition closed_under_return (bound : option Z) (I : Loop -> Prop) : Prop :=
  forall fin st c q rc ats,
    match bound with Some t => (fin <= t)%Z | None => True end ->
    (c <= 1)%nat ->
    I (mkLoop None (Some fin) st c q rc ats) ->
    I (if (q + c =? 0)%nat then mkLoop None None st 0 0 rc ats
       else mkLoop (Some (fin + Z.max 0 wait)%Z) None st 0 0 (q + c + rc) ats).

(** The two ways a file event at instant [t] is taken in: inside a
    snapshot it waits in the channel or with the notifier; at the [select]
    it arms the timer. *)
Definition event_inside_snapshot (t : Z) (I I' : Loop -> Prop) : Prop :=
  forall fin st c q rc ats,
    (t < fin)%Z -> (c <= 1)%nat ->
    I (mkLoop None (Some fin) st c q rc ats) ->
    I' (mkLoop None (Some fin) st 1 (if (c =? 0)%nat then q else S q) rc ats).

Definition event_at_select (t : Z) (I I' : Loop -> Prop) : Prop :=
  forall tm st rc ats,
    match tm with Some dl => (t < dl)%Z | None => True end ->
    I (mkLoop tm None st 0 0 rc ats) ->
    I' (mkLoop (Some (t + Z.max 0 wait)%Z) None st 0 0 (S rc) ats).

End LoopMoves.

(** The books of a loop that started as [l0] and has seen [k] file events
    since: every event was heard of; the attempts made since are not more
    than the timers armed for them; a loop that has received a request has
    made an attempt or has its timer armed. *)
Definition accounted (l0 : Loop) (k : nat) (l : Loop) : Prop :=
  heard l = (heard l0 + k)%nat
  /\ (received l0 <= received l)%nat
  /\ stopped l = stopped l0
  /\ exists more,
       attempts l = (attempts l0 ++ more)%list
       /\ (List.length more + armed l + received l0 <= armed l0 + received l)%nat
       /\ ((received l0 < received l)%nat -> (0 < List.length more + armed l)%nat).

(** The attempts of a loop keep their distance [gap]: two attempts in a row
    are at least [gap] apart, the snapshot that is running ends after all of
    them, and the armed timer expires at least [gap] after all of them.
    With a [clock], a loop at its [select] has made all its attempts by
    then. *)
Definition spaced (gap : Z) (clock : option Z) (l : Loop) : Prop :=
  neighbours (fun a b => a + gap <= b)%Z (attempts l)
  /\ match busy l with
     | Some fin => Forall (fun a => a <= fin)%Z (attempts l)
     | None =>
         match clock with
         | Some c => Forall (fun a => a <= c)%Z (attempts l)
         | None => True
         end
         /\ match timer l with
            | Some dl => Forall (fun a => a + gap <= dl)%Z (attempts l)
            | None => True
            end
     end.

(** The file event of instant [t] is looked after: an attempt was made at
    least [gap] after it, or the timer is armed for such an instant, or a
    snapshot is running past it while a request waits. *)
Definition served (gap : Z) (t : Z) (l : Loop) : Prop :=
  (exists a, In a (attempts l) /\ (t + gap <= a)%Z)
  \/ (busy l = None /\ exists dl, timer l = Some dl /\ (t + gap <= dl)%Z)
  \/ (exists fin, busy l = Some fin /\ (t <= fin)%Z /\ (0 < chan l + queued l)%nat).

(* ================================================================== *)
(** * The constructor of the earlier watcher                           *)
(* ================================================================== *)

(** In the earlier [watcher.go] the validators return their error and
    [NewWatcher] joins what they return; what [validateFolderFormat]
    returns is wrapped once more, with its text only
    ([fmt.Errorf("%w: %s", ErrorInvalidFolderFormat, err)]). *)

(** What the earlier [validateFolderFormat] joins: the precision error, a
    plain error there, and what [validateDir] returns. *)
Inductive FormatFinding : Type :=
| PlainLacksPrecision           (* "folder format lacks adequate precision for wait time" *)
| FromValidateDir (e : GoError).

(** What the earlier [NewWatcher] joins. *)
Inductive EarlierError : Type :=
| Joined (e : GoError)
| FolderFormatFindings (findings : list FormatFinding).  (* "%w: %s" *)

Definition wrapped_earlier (e : EarlierError) : option Sentinel :=
  match e with
  | Joined e => wrapped e
  | FolderFormatFindings _ => Some ErrorInvalidFolderFormat
  end.

Definition errors_Is_earlier (err : list EarlierError) (s : Sentinel) : bool :=
  existsb (fun e => match wrapped_earlier e with
                    | Some s' => Sentinel_eqb s s'
                    | None => false
                    end) err.

Section EarlierConstructor.

Variable Format : string -> GoTime.Time -> string.

Definition validateFolderFormat_earlier (os : DirProbe) (waitTime : Q)
    (folderFormat : string) : list FormatFinding :=
  let errs := if formats_collide Format waitTime folderFormat
              then [PlainLacksPrecision] else [] in
  (errs ++ map FromValidateDir
             (validateDirOld os folderFormat ErrorInvalidFolderFormat))%list.

(** The error the earlier [NewWatcher] returns. *)
Definition NewWatcher_earlier (env : ValidationEnv) (name source destination : string)
    (waitTime : Q) (folderFormat : string) : list EarlierError :=
  let errs : list EarlierError := [] in
  (* Validate name *)
  let errs := if name =? "" then (errs ++ [Joined NameEmpty])%list else errs in
  (* Validate wait time *)
  let errs := if Qle_bool waitTime 0
              then (errs ++ [Joined WaitTimeNotPositive])%list else errs in
  let errs := match validateSourceAndDestination env source destination [] with
              | [] => errs
              | err => (errs ++ map Joined err)%list
              end in
  let errs := match validateFolderFormat_earlier (probe_format env) waitTime
                      folderFormat with
              | [] => errs
              | err => (errs ++ [FolderFormatFindings err])%list
              end in
  match metadata_file env with
  | MetaUnreadable cause =>
      (errs ++ [Joined (LoadMetadataFailure (ReadFailure cause))])%list
  | MetaMalformed cause =>
      (errs ++ [Joined (LoadMetadataFailure (ParseFailure cause))])%list
  | _ => errs
  end.

End EarlierConstructor.

(* ================================================================== *)
(** * The command line                                                 *)
(* ================================================================== *)

(** How [main] gets on, up to the point where it waits for the signal. *)
Inductive MainStart : Type :=
| UsageExit                          (* the usage text, then os.Exit(1) *)
| FatalCreating (err : error)        (* log.Fatalf("Error creating watcher: %v", err) *)
| FatalStarting (err : StartError)   (* log.Fatalf("Error starting watcher: %v", err) *)
| Watching (w : Watcher) (trace : list Effect)
                                     (* "Watcher started.", then <-c *)
| NeverStarted (w : Watcher) (trace : list Effect).
                                     (* StartWatcher does not return *)

Section CommandLine.

Variable Format : string -> GoTime.Time -> string.

(** [main]; [Args] is [os.Args], the name of the program first. *)
Definition main (env : ValidationEnv) (fs : FileSystem) (Args : list string)
  : MainStart :=
  match Args with
  | [_; sourcePath; destPath] =>
      let '(watcher, err) :=
        NewWatcher Format env "Main Watcher" sourcePath destPath 1
          "2006-01-02_15-04-05.000000" true in
      match err with
      | _ :: _ => FatalCreating err
      | [] =>
          match StartWatcher fs watcher with
          | Returns (Some err) _ _ => FatalStarting err
          | Returns None w trace => Watching w trace
          | Blocks w trace => NeverStarted w trace
          end
      end
  | _ => UsageExit
  end.

End CommandLine.

(* ================================================================== *)
(** * Checks of the library models on concrete inputs                  *)
(* ================================================================== *)

Example Clean_ex1 : GoPath.Clean "/a/./b/../c//" = "/a/c".
Proof. reflexivity. Qed.
Example Clean_ex2 : GoPath.Clean "../a/../../b" = "../../b".
Proof. reflexivity. Qed.
Example Rel_ex1 : GoPath.Rel "/tmp/x/source" "/tmp/x/source/destination" = Some "destination".
Proof. reflexivity. Qed.
Example Rel_ex2 : GoPath.Rel "/tmp/x/source" "/tmp/x/destination" = Some "../destination".
Proof. reflexivity. Qed.
Example Rel_ex3 : GoPath.Rel "/a" "/" = Some "..".
Proof. reflexivity. Qed.
Example Rel_ex4 : GoPath.Rel "/" "/a/b" = Some "a/b".
Proof. reflexivity. Qed.
Example Rel_ex5 : GoPath.Rel "/a/b/c" "/a/d" = Some "../../d".
Proof. reflexivity. Qed.
Example utcFormat_epoch :
  GoTime.utcFormat "2006-01-02_15-04-05.000000" (GoTime.time_Unix 0 0)
  = "1970-01-01_00-00-00.000000".
Proof. reflexivity. Qed.
Example utcFormat_one_second :
  GoTime.utcFormat "2006-01-02_15-04-05.000000" (GoTime.time_Unix 1 0)
  = "1970-01-01_00-00-01.000000".
Proof. reflexivity. Qed.
Example utcFormat_2023 :
  GoTime.utcFormat "2006-01-02 15:04:05.000 3 06"
    (GoTime.time_Unix 1672574400 123456789)
  = "2023-01-01 12:00:00.123 12 23".
Proof. vm_compute. reflexivity. Qed.
Example utcFormat_leap :
  GoTime.utcFormat "2006-01-02" (GoTime.time_Unix 1709251199 0) = "2024-02-29".
Proof. vm_compute. reflexivity. Qed.
Example time_Unix_carry :
  GoTime.time_Unix 5 (-1) = GoTime.mkTime 4 999999999
  /\ GoTime.time_Unix 5 2500000000 = GoTime.mkTime 7 500000000.
Proof. split; reflexivity. Qed.

(* ================================================================== *)
(** * Configuration validation                                         *)
(* ================================================================== *)

(** ** Writing through the [errs] pointer only ever appends *)

Lemma validateName_appends name errs :
  validateName name errs = (errs ++ validateName name [])%list.
Proof.
  unfold validateName, errors_Join.
  destruct (name =? ""); simpl; now rewrite ?app_nil_r.
Qed.

Lemma validateWaitTime_appends w errs :
  validateWaitTime w errs = (errs ++ validateWaitTime w [])%list.
Proof.
  unfold validateWaitTime, errors_Join.
  destruct (Qle_bool w 0); simpl; now rewrite ?app_nil_r.
Qed.

Lemma validateDir_appends os path s errs :
  validateDir os path s errs = (errs ++ validateDir os path s [])%list.
Proof.
  unfold validateDir, errors_Join.
  destruct (probe_stat os); simpl; rewrite ?app_nil_r; try reflexivity.
  destruct (probe_mkdir os); simpl; now rewrite ?app_nil_r.
Qed.

Lemma validateName_In e name :
  In e (validateName name []) <-> e = NameEmpty /\ name = "".
Proof.
  unfold validateName, errors_Join.
  destruct (String.eqb_spec name ""); simpl; intuition congruence.
Qed.


Lemma validateWaitTime_In e w :
  In e (validateWaitTime w []) <-> e = WaitTimeNotPositive /\ (w <= 0)%Q.
Proof.
  unfold validateWaitTime, errors_Join.
  destruct (Qle_bool w 0) eqn:E; simpl.
  - apply Qle_bool_iff in E. intuition congruence.
  - split; [tauto|]. intros [_ H]. apply Qle_bool_iff in H. congruence.
Qed.


Lemma validateDir_no_LacksPrecision os path s :
  ~ In LacksPrecision (validateDir os path s []).
Proof.
  unfold validateDir, errors_Join.
  destruct (probe_stat os); simpl; try (intuition congruence).
  destruct (probe_mkdir os); simpl; intuition congruence.
Qed.

Section ValidationFacts.

Variable Format : string -> GoTime.Time -> string.

Lemma validateFolderFormat_appends os w f errs :
  validateFolderFormat Format os w f errs
  = (errs ++ validateFolderFormat Format os w f [])%list.
Proof.
  unfold validateFolderFormat, errors_Join.
  destruct (formats_collide Format w f); simpl.
  - rewrite validateDir_appends.
    rewrite (validateDir_appends os f _ [LacksPrecision]).
    now rewrite app_assoc.
  - apply validateDir_appends.
Qed.

Lemma validateSourceAndDestination_appends env s d errs :
  validateSourceAndDestination env s d errs
  = (errs ++ validateSourceAndDestination env s d [])%list.
Proof.
  unfold validateSourceAndDestination, errors_Join.
  destruct (GoPath.Abs (getwd env) s) as [absSource ok1].
  destruct (GoPath.Abs (getwd env) d) as [absDest ok2].
  destruct ok1, ok2, (absSource =? absDest), (GoPath.Rel absSource absDest);
    simpl;
    repeat match goal with
           | |- context [if ?c then _ else _] => destruct c
           end;
    simpl; rewrite ?app_nil_r, <- ?app_assoc; reflexivity.
Qed.

(** The error [NewWatcher] returns is the concatenation, in the order of
    the calls, of what each validator finds on its own. *)
Lemma NewWatcher_errors env name source destination w f enabled :
  snd (NewWatcher Format env name source destination w f enabled)
  = (validateName name []
     ++ validateWaitTime w []
     ++ validateFolderFormat Format (probe_format env) w f []
     ++ validateSourceAndDestination env source destination []
     ++ load_violations (metadata_file env))%list.
Proof.
  unfold NewWatcher.
  rewrite validateSourceAndDestination_appends.
  rewrite validateFolderFormat_appends.
  rewrite validateWaitTime_appends.
  set (v1 := validateName name []).
  set (v2 := validateWaitTime w []).
  set (v3 := validateFolderFormat Format (probe_format env) w f []).
  set (v4 := validateSourceAndDestination env source destination []).
  destruct (metadata_file env); simpl; unfold errors_Join;
    rewrite ?app_nil_r, <- ?app_assoc; reflexivity.
Qed.

Lemma validateFolderFormat_LacksPrecision os w f :
  In LacksPrecision (validateFolderFormat Format os w f [])
  <-> formats_collide Format w f = true.
Proof.
  unfold validateFolderFormat.
  rewrite validateDir_appends, in_app_iff.
  pose proof (validateDir_no_LacksPrecision os f ErrorInvalidFolderFormat).
  destruct (formats_collide Format w f); unfold errors_Join; simpl;
    intuition congruence.
Qed.

Lemma validateSourceAndDestination_no_LacksPrecision env s d :
  ~ In LacksPrecision (validateSourceAndDestination env s d []).
Proof.
  unfold validateSourceAndDestination, validateDirOld, errors_Join.
  pose proof (validateDir_no_LacksPrecision (probe_source env) s ErrorInvalidSource) as Hs.
  pose proof (validateDir_no_LacksPrecision (probe_destination env) d
                ErrorInvalidDestination) as Hd.
  destruct (GoPath.Abs (getwd env) s) as [absSource ok1].
  destruct (GoPath.Abs (getwd env) d) as [absDest ok2].
  destruct ok1, ok2, (absSource =? absDest), (GoPath.Rel absSource absDest);
    simpl;
    repeat match goal with
           | |- context [if ?c then _ else _] => destruct c
           end;
    rewrite ?in_app_iff; simpl; intuition congruence.
Qed.

Lemma NewWatcher_LacksPrecision env name source destination w f enabled :
  In LacksPrecision (snd (NewWatcher Format env name source destination w f enabled))
  <-> formats_collide Format w f = true.
Proof.
  rewrite NewWatcher_errors, !in_app_iff.
  rewrite validateName_In, validateWaitTime_In, validateFolderFormat_LacksPrecision.
  pose proof (validateSourceAndDestination_no_LacksPrecision env source destination).
  assert (~ In LacksPrecision (load_violations (metadata_file env)))
    by (destruct (metadata_file env); simpl; intuition congruence).
  intuition congruence.
Qed.

End ValidationFacts.

(** ** The instant one wait time after the epoch *)



(** ** C5: the folder-format collision check *)

Section FolderFormatCheck.

Variable Format : string -> GoTime.Time -> string.


End FolderFormatCheck.



(** The rejection above, and the one of a watcher without a name. *)
Example NewWatcher_rejects_precise_layout :
  snd (NewWatcher GoTime.utcFormat env_layout_taken "Main Watcher" "/tmp/source"
         "/tmp/destination" 1 default_layout true)
  = [NotADirectory ErrorInvalidFolderFormat default_layout]
  /\ snd (NewWatcher GoTime.utcFormat env_all_directories "" "/tmp/source"
            "/tmp/destination" 1 default_layout true)
     = [NameEmpty].
Proof. split; vm_compute; reflexivity. Qed.

(** The same rejection arises inside [validateFolderFormat] itself: a layout
    of adequate precision whose path is taken by a regular file. *)
Example validateFolderFormat_rejects_precise_layout :
  validateFolderFormat GoTime.utcFormat (mkProbe StatNotDir None) 1 default_layout []
  = [NotADirectory ErrorInvalidFolderFormat default_layout].
Proof. vm_compute. reflexivity. Qed.

(** The test [TestImpreciseFolderFormat]. *)
Example TestImpreciseFolderFormat :
  snd (NewWatcher GoTime.utcFormat env_all_directories "Test Watcher"
         "/tmp/source" "/tmp/destination" 1 "2006-01-02" true)
  = [LacksPrecision].
Proof. vm_compute. reflexivity. Qed.

(** ** C8: validation is aggregated *)

Section Aggregation.

Variable Format : string -> GoTime.Time -> string.


End Aggregation.


(** A configuration that violates every check at once: all the violations
    come back together. *)
Example NewWatcher_reports_every_violation :
  snd (NewWatcher GoTime.utcFormat env_all_files "" "/tmp/source"
         "/tmp/source" 0 "2006-01-02" true)
  = [ NameEmpty; WaitTimeNotPositive; LacksPrecision;
      NotADirectory ErrorInvalidFolderFormat "2006-01-02";
      NotADirectory ErrorInvalidSource "/tmp/source";
      NotADirectory ErrorInvalidDestination "/tmp/source";
      SamePathsSource; SamePathsDestination ].
Proof. vm_compute. reflexivity. Qed.

(* ================================================================== *)
(** * C7: the tree comparator                                          *)
(* ================================================================== *)

(** Induction on a tree, with the hypothesis for every listed entry. *)
Lemma Node_nested_ind (P : Node -> Prop) :
  (forall content mtime, P (File content mtime)) ->
  (forall isDir, P (Broken isDir)) ->
  (forall entries, Forall (fun e => P (snd e)) entries -> P (Dir entries)) ->
  forall n, P n.
Proof.
  intros HF HB HD.
  fix IH 1. intros [content mtime | entries | isDir].
  - apply HF.
  - apply HD. induction entries as [|[name n] entries IHe].
    + constructor.
    + constructor; [apply IH | exact IHe].
  - apply HB.
Qed.

Lemma doFoldersMatch_at_Dir ses des :
  doFoldersMatch_at (Dir ses) (Dir des)
  = if negb (List.length ses =? List.length des)%nat then (false, None)
    else compare_entries doFoldersMatch_at ses des.
Proof.
  simpl. destruct (negb (List.length ses =? List.length des)%nat); [reflexivity|].
  revert des. induction ses as [|[sn se] ses IH]; intros [|[dn de] des];
    try reflexivity.
  simpl. rewrite IH. reflexivity.
Qed.

Lemma Time_eqb_eq a b :
  GoTime.Time_eqb a b = true
  <-> GoTime.Unix a = GoTime.Unix b /\ GoTime.Nanosecond a = GoTime.Nanosecond b.
Proof.
  unfold GoTime.Time_eqb. rewrite andb_true_iff, !Z.eqb_eq. tauto.
Qed.

Lemma doFilesMatch_true s d :
  fst (doFilesMatch s d) = true <-> files_match s d.
Proof.
  unfold doFilesMatch, files_match. split.
  - destruct s as [[sc|] sm | ses | sb]; simpl; try discriminate;
      destruct d as [[dc|] dm | des | db]; simpl; try discriminate.
    destruct (String.eqb_spec sc dc) as [->|]; simpl; [|discriminate].
    destruct (GoTime.Time_eqb sm dm) eqn:E; simpl; [|discriminate].
    intros _. apply Time_eqb_eq in E. exists dc, sm, dm. tauto.
  - intros (c & ma & mb & -> & -> & Hs & Hn). simpl.
    rewrite String.eqb_refl. simpl.
    rewrite (proj2 (Time_eqb_eq ma mb) (conj Hs Hn)). reflexivity.
Qed.

Lemma doFilesMatch_error_false s d e :
  snd (doFilesMatch s d) = Some e -> fst (doFilesMatch s d) = false.
Proof.
  unfold doFilesMatch.
  destruct (os_Stat s), (os_Stat d), (os_ReadFile s), (os_ReadFile d);
    simpl; try reflexivity.
  destruct (negb (_ =? _)); [reflexivity|].
  destruct (negb (GoTime.Time_eqb _ _)); [reflexivity|]. discriminate.
Qed.

Lemma compare_entries_error_false compare ses :
  forall des e,
    snd (compare_entries compare ses des) = Some e ->
    fst (compare_entries compare ses des) = false.
Proof.
  induction ses as [|[sn se] ses IH]; intros [|[dn de] des] e; simpl;
    try discriminate.
  destruct (negb (sn =? dn)); [discriminate|].
  destruct (IsDir se && IsDir de).
  - destruct (compare se de) as [[|] [err|]]; simpl; auto. apply IH.
  - destruct (negb (IsDir se) && negb (IsDir de)); [|discriminate].
    destruct (doFilesMatch se de) as [[|] [err|]]; simpl; auto. apply IH.
Qed.

Lemma doFoldersMatch_at_error_false s d e :
  snd (doFoldersMatch_at s d) = Some e -> fst (doFoldersMatch_at s d) = false.
Proof.
  destruct s as [c m | ses | b]; try reflexivity.
  destruct d as [c m | des | b]; try reflexivity.
  rewrite doFoldersMatch_at_Dir.
  destruct (negb (List.length ses =? List.length des)%nat); [discriminate|].
  apply compare_entries_error_false.
Qed.

Lemma compare_entries_true compare ses :
  (forall s d e, snd (compare s d) = Some e -> fst (compare s d) = false) ->
  Forall (fun e => forall d, fst (compare (snd e) d) = true <-> trees_match (snd e) d) ses ->
  forall des,
    List.length ses = List.length des ->
    (fst (compare_entries compare ses des) = true <-> entries_match ses des).
Proof.
  intros Herr.
  induction 1 as [|[sn se] ses Hse _ IH]; intros [|[dn de] des] Hlen;
    simpl in Hlen; try discriminate.
  - simpl. split; [constructor | reflexivity].
  - injection Hlen as Hlen. specialize (IH des Hlen). simpl in Hse.
    simpl. destruct (String.eqb_spec sn dn) as [->|Hne]; simpl.
    2:{ split; [discriminate|]. intros H; inversion H; congruence. }
    destruct (IsDir se) eqn:Es, (IsDir de) eqn:Ed; simpl.
    + pose proof (Herr se de) as He.
      destruct (compare se de) as [[|] [err|]] eqn:Ec; simpl.
      * specialize (He err eq_refl). discriminate.
      * rewrite IH. split.
        -- intros H. apply entries_match_dir; auto.
           apply Hse. rewrite Ec. reflexivity.
        -- intros H; inversion H; subst; auto; congruence.
      * split; [discriminate|]. intros H; inversion H; subst; try congruence.
        match goal with Ht : trees_match _ _ |- _ =>
          apply (proj2 (Hse _)) in Ht; rewrite Ec in Ht; discriminate end.
      * split; [discriminate|]. intros H; inversion H; subst; try congruence.
        match goal with Ht : trees_match _ _ |- _ =>
          apply (proj2 (Hse _)) in Ht; rewrite Ec in Ht; discriminate end.
    + split; [discriminate|]. intros H; inversion H; congruence.
    + split; [discriminate|]. intros H; inversion H; congruence.
    + pose proof (doFilesMatch_true se de) as Hf.
      pose proof (doFilesMatch_error_false se de) as Hef.
      destruct (doFilesMatch se de) as [[|] [err|]]; simpl in *.
      * specialize (Hef err eq_refl). discriminate.
      * rewrite IH. split.
        -- intros H. apply entries_match_file; auto. apply Hf. reflexivity.
        -- intros H; inversion H; subst; auto; congruence.
      * split; [discriminate|]. intros H; inversion H; subst; try congruence.
        match goal with Ht : files_match _ _ |- _ =>
          apply (proj2 Hf) in Ht; discriminate end.
      * split; [discriminate|]. intros H; inversion H; subst; try congruence.
        match goal with Ht : files_match _ _ |- _ =>
          apply (proj2 Hf) in Ht; discriminate end.
Qed.

Lemma doFoldersMatch_at_true s :
  forall d, fst (doFoldersMatch_at s d) = true <-> trees_match s d.
Proof.
  induction s as [content mtime | isDir | ses IH] using Node_nested_ind; intros d.
  - simpl. split; [discriminate | intros H; inversion H].
  - simpl. split; [discriminate | intros H; inversion H].
  - destruct d as [dc dm | des | db].
    + simpl. split; [discriminate | intros H; inversion H].
    + rewrite doFoldersMatch_at_Dir.
      destruct (Nat.eqb_spec (List.length ses) (List.length des)) as [Hlen|Hlen]; simpl.
      * rewrite (compare_entries_true _ ses doFoldersMatch_at_error_false IH des Hlen).
        split; [intros H; constructor; assumption | intros H; inversion H; assumption].
      * split; [discriminate | intros H; inversion H; contradiction].
    + simpl. split; [discriminate | intros H; inversion H].
Qed.

(** C7.  [doFoldersMatch] answers [true] exactly when both paths can be
    listed and the two trees agree at every level: the same number of
    entries and, pair by pair in listing order, the same name, the same kind,
    matching subtrees for directories, and for files the same bytes and the
    same modification time.  When either path cannot be listed it fails with
    an error (and no match); [true] never comes with an error. *)
Theorem C7_doFoldersMatch_iff_trees_match (fs : FileSystem) (source destination : string) :
  let r := doFoldersMatch fs source destination in
  (fst r = true <->
   exists ses des,
     fs source = Some (Dir ses) /\ fs destination = Some (Dir des)
     /\ trees_match (Dir ses) (Dir des))
  /\ (os_ReadDir (fs source) = None \/ os_ReadDir (fs destination) = None ->
      fst r = false /\ exists err, snd r = Some err)
  /\ (fst r = true -> snd r = None).
Proof.
  intros r. unfold r, doFoldersMatch.
  destruct (fs source) as [[sc sm | ses | sb]|] eqn:Es; cbn [os_ReadDir fst snd];
    try (split; [split; [discriminate | intros (a & b & H & _); discriminate]
                | split; [intros _; split; [reflexivity | eexists; reflexivity]
                         | discriminate]]).
  destruct (fs destination) as [[dc dm | des | db]|] eqn:Ed;
    try (cbn [os_ReadDir fst snd];
         split; [split; [discriminate | intros (a & b & _ & H & _); discriminate]
                | split; [intros _; split; [reflexivity | eexists; reflexivity]
                         | discriminate]]).
  cbn [os_ReadDir].
  split; [|split].
  - rewrite doFoldersMatch_at_true. split.
    + intros H. exists ses, des. auto.
    + intros (a & b & Ha & Hb & H). injection Ha as <-. injection Hb as <-. exact H.
  - intros [H|H]; discriminate.
  - intros H.
    destruct (snd (doFoldersMatch_at (Dir ses) (Dir des))) as [e|] eqn:E;
      [|reflexivity].
    apply doFoldersMatch_at_error_false in E. congruence.
Qed.

Lemma C7_doFoldersMatch_iff_trees_match_witness :
  fst (doFoldersMatch fs_in_sync "/tmp/source"
         "/tmp/destination/2023-11-14_22-13-20.000000") = true
  /\ exists ses des,
       fs_in_sync "/tmp/source" = Some (Dir ses)
       /\ fs_in_sync "/tmp/destination/2023-11-14_22-13-20.000000" = Some (Dir des)
       /\ trees_match (Dir ses) (Dir des).
Proof.
  split; [reflexivity|].
  apply (proj1 (C7_doFoldersMatch_iff_trees_match fs_in_sync "/tmp/source"
                  "/tmp/destination/2023-11-14_22-13-20.000000")).
  reflexivity.
Defined.

(** The comparator on small trees: the cases of the tests
    [TestCompareIdenticalFiles], [TestCompareFilesWithDifferentContent] and
    [TestCompareFilesWithDifferentTimestamps], and the ways two listings
    can differ. *)
Example compare_identical_files :
  doFilesMatch (File (Some "File content") (GoTime.mkTime 1672574400 0))
               (File (Some "File content") (GoTime.mkTime 1672574400 0))
  = (true, None).
Proof. reflexivity. Qed.

Example compare_different_content :
  doFilesMatch (File (Some "First file") (GoTime.mkTime 1672574400 0))
               (File (Some "Second file") (GoTime.mkTime 1672574400 0))
  = (false, None).
Proof. reflexivity. Qed.

Example compare_different_timestamps :
  doFilesMatch (File (Some "File content") (GoTime.mkTime 1672574400 0))
               (File (Some "File content") (GoTime.mkTime 1704110400 0))
  = (false, None).
Proof. reflexivity. Qed.

Example compare_unreadable_file :
  doFilesMatch (File None (GoTime.mkTime 1672574400 0))
               (File (Some "File content") (GoTime.mkTime 1672574400 0))
  = (false, Some ErrReadSourceFile).
Proof. reflexivity. Qed.

Example compare_trees :
  let f := File (Some "abc") (GoTime.mkTime 1672574400 0) in
  doFoldersMatch_at (Dir [("a", f); ("b", Dir [("c", f)])])
                    (Dir [("a", f); ("b", Dir [("c", f)])]) = (true, None)
  /\ doFoldersMatch_at (Dir [("a", f)]) (Dir [("a", f); ("b", f)]) = (false, None)
  /\ doFoldersMatch_at (Dir [("a", f)]) (Dir [("b", f)]) = (false, None)
  /\ doFoldersMatch_at (Dir [("a", f)]) (Dir [("a", Dir [])]) = (false, None)
  /\ doFoldersMatch_at (Dir [("a", Dir [("c", f)])]) (Dir [("a", Dir [])]) = (false, None)
  /\ doFoldersMatch_at (Dir [("a", Broken true)]) (Dir [("a", Dir [])])
     = (false, Some (ErrComparingDirectories ErrReadSourceDir))
  /\ doFoldersMatch_at (Dir [("a", f)]) (Dir [("a", Broken false)])
     = (false, Some (ErrComparingFiles ErrStatDestFile)).
Proof. cbv zeta. repeat split; reflexivity. Qed.

Example compare_missing_destination :
  doFoldersMatch fs_in_sync "/tmp/source" "/tmp/destination/missing"
  = (false, Some ErrReadDestDir).
Proof. reflexivity. Qed.

(* ================================================================== *)
(** * Methods of the watcher                                           *)
(* ================================================================== *)

Lemma bind_Returns {A B} (m : Go A) (k : A -> Go B) w a w' t :
  m w = Returns a w' t -> bind m k w = prepend t (k a w').
Proof. intros H. unfold bind. rewrite H. destruct (k a w'); reflexivity. Qed.

Lemma bind_Blocks {A B} (m : Go A) (k : A -> Go B) w w' t :
  m w = Blocks w' t -> bind m k w = Blocks w' t.
Proof. intros H. unfold bind. rewrite H. reflexivity. Qed.

Lemma prepend_nil {A} (o : Outcome A) : prepend [] o = o.
Proof. destruct o; reflexivity. Qed.

Lemma prepend_prepend {A} t1 t2 (o : Outcome A) :
  prepend t1 (prepend t2 o) = prepend (t1 ++ t2) o.
Proof. destruct o; simpl; now rewrite app_assoc. Qed.


Lemma trace_of_prepend {A} t (o : Outcome A) :
  trace_of (prepend t o) = (t ++ trace_of o)%list.
Proof. destruct o; reflexivity. Qed.

Lemma set_mu_same w : mu w = false -> set_mu false (set_mu true w) = w.
Proof. destruct w; simpl; intros ->; reflexivity. Qed.

Lemma set_mu_idem w : mu w = false -> set_mu false w = w.
Proof. destruct w; simpl; intros ->; reflexivity. Qed.

(** ** The retry loop *)

Lemma copy_attempts_trace env s d n : forall i w,
  copy_attempts env s d n i w = Returns tt w (copy_trace env s d n i).
Proof.
  induction n as [|n IH]; intros i w; simpl; [reflexivity|].
  destruct (copy_result env i); [reflexivity|].
  unfold bind, emit. rewrite IH. reflexivity.
Qed.

Lemma copies_copy_trace_bound env s d n : forall i,
  (List.length (copies (copy_trace env s d n i)) <= n)%nat.
Proof.
  induction n as [|n IH]; intros i; simpl; [lia|].
  destruct (copy_result env i); simpl; [lia|].
  specialize (IH (S i)). lia.
Qed.

(** The calls are the successive answers of [cp.Copy]. *)
Lemma copies_copy_trace_seq env s d n : forall i,
  copies (copy_trace env s d n i)
  = map (copy_result env) (seq i (List.length (copies (copy_trace env s d n i)))).
Proof.
  induction n as [|n IH]; intros i; simpl; [reflexivity|].
  destruct (copy_result env i) eqn:E; simpl.
  - now rewrite E.
  - rewrite E. f_equal. apply IH.
Qed.


(** ** The observer registry *)

Lemma for_each_passive cb l : passive cb -> forall w,
  for_each l (OnBackupCompletion cb) w
  = Returns tt w (map EOnBackupCompletion l).
Proof.
  intros Hp. induction l as [|o l IH]; intros w; simpl; [reflexivity|].
  unfold bind, OnBackupCompletion, bind, emit. rewrite Hp. cbn.
  rewrite IH. reflexivity.
Qed.

(** With callbacks that leave the registry alone, a notification pass calls
    every registered observer once, in registration order, and returns. *)
Lemma notifyObservers_passive cb w :
  passive cb -> mu w = false ->
  notifyObservers cb w
  = Returns tt w (map EOnBackupCompletion (customObservers w)).
Proof.
  intros Hp Hmu. unfold notifyObservers, bind, Lock, get, Unlock, modify.
  rewrite Hmu. simpl.
  rewrite (for_each_passive cb _ Hp). simpl.
  rewrite set_mu_same by exact Hmu. now rewrite app_nil_r.
Qed.

(** [AddObserver] and [RemoveObserver] called while the mutex is held never
    return. *)
Lemma run_call_blocks_when_locked c w :
  mu w = true -> run_call c w = Blocks w [].
Proof.
  intros H. destruct c; simpl; unfold AddObserver, RemoveObserver, bind, Lock;
    rewrite H; reflexivity.
Qed.

(** The first observer whose callback calls into the registry stops the
    pass: the call waits for the mutex that [notifyObservers] holds. *)
Lemma notifyObservers_blocks cb w o rest c calls :
  mu w = false ->
  customObservers w = o :: rest ->
  cb o = c :: calls ->
  notifyObservers cb w = Blocks (set_mu true w) [EOnBackupCompletion o].
Proof.
  intros Hmu Hobs Hcb. unfold notifyObservers, bind, Lock, get.
  rewrite Hmu. simpl. rewrite Hobs. simpl.
  unfold bind, OnBackupCompletion, bind, emit. rewrite Hcb. simpl.
  unfold bind. rewrite run_call_blocks_when_locked by (destruct w; reflexivity).
  reflexivity.
Qed.

(** ** One snapshot attempt *)

Section SnapshotFacts.

Variable Format : string -> GoTime.Time -> string.

(** What [createBackup] does, in one equation. *)
Lemma createBackup_outcome cb env w :
  mu w = false ->
  let target := GoPath.Join (Destination w) (Format (FolderFormat w) (now env)) in
  let history := (Metadata w ++ [record_of Format (FolderFormat w) (now env)])%list in
  createBackup Format cb env w
  = if path_exists env target then Returns tt w [EStat target]
    else prepend
           (EStat target
            :: copy_trace env (Source w) target 100 0
            ++ [EWriteFile (metadataJSONPath w) history (write_ok env)])%list
           (notifyObservers cb (set_Metadata history w)).
Proof.
  intros Hmu target history.
  destruct w as [nm src dst en wt ff md m fw obs ch]. simpl in Hmu. subst m.
  unfold createBackup, bind at 1, Lock. cbn [mu set_mu].
  unfold bind at 1, get. unfold bind at 1, Unlock, modify.
  cbn [set_mu Name Source Destination Enabled WaitTime FolderFormat Metadata mu
       fsnotifyWatcher customObservers backupRequestChan].
  unfold bind at 1, emit.
  fold (GoPath.Join dst (Format ff (now env))).
  change (GoPath.Join dst (Format ff (now env))) with target.
  destruct (path_exists env target).
  - reflexivity.
  - unfold bind at 1. rewrite copy_attempts_trace.
    unfold bind at 1, Lock. cbn [mu set_mu].
    unfold bind at 1, modify. unfold bind at 1, Unlock, modify.
    unfold bind at 1, saveMetadata, bind at 1, get, emit.
    cbn [set_mu set_Metadata Name Source Destination Enabled WaitTime FolderFormat
         Metadata mu fsnotifyWatcher customObservers backupRequestChan metadataJSONPath].
    unfold record_of in history. fold history.
    destruct (notifyObservers cb _); cbn [prepend app];
      rewrite ?app_nil_r, <- ?app_assoc; reflexivity.
Qed.

End SnapshotFacts.

Lemma OnBackupCompletion_quiet cb o w :
  cb o = [] -> OnBackupCompletion cb o w = Returns tt w [EOnBackupCompletion o].
Proof. intros H. unfold OnBackupCompletion, bind, emit. rewrite H. reflexivity. Qed.

Lemma OnBackupCompletion_blocks cb o w c calls :
  mu w = true -> cb o = c :: calls ->
  OnBackupCompletion cb o w = Blocks w [EOnBackupCompletion o].
Proof.
  intros Hmu H. unfold OnBackupCompletion, bind, emit. rewrite H.
  cbn [for_each]. unfold bind.
  rewrite run_call_blocks_when_locked by exact Hmu. reflexivity.
Qed.

(** While the mutex is held, a pass over the observers calls them in order
    until one of them calls into the registry; the watcher is left as it
    was. *)
Lemma for_each_locked cb l : forall w,
  mu w = true ->
  exists called,
    (exists rest, l = called ++ rest)%list
    /\ (for_each l (OnBackupCompletion cb) w
          = Returns tt w (map EOnBackupCompletion called) /\ called = l
        \/ for_each l (OnBackupCompletion cb) w
          = Blocks w (map EOnBackupCompletion called) /\ called <> []).
Proof.
  induction l as [|o l IH]; intros w Hmu.
  - exists []. split; [exists []; reflexivity|]. left. split; reflexivity.
  - cbn [for_each].
    destruct (cb o) as [|c calls] eqn:Hcb.
    + rewrite (bind_Returns _ _ _ _ _ _ (OnBackupCompletion_quiet cb o w Hcb)).
      destruct (IH w Hmu) as (called & [rest Hrest] & [[Hr Hc] | [Hb Hc]]).
      * exists (o :: called). split; [exists rest; simpl; congruence|].
        left. rewrite Hr. simpl. split; congruence.
      * exists (o :: called). split; [exists rest; simpl; congruence|].
        right. rewrite Hb. simpl. split; [reflexivity | discriminate].
    + rewrite (bind_Blocks _ _ _ _ _ (OnBackupCompletion_blocks cb o w c calls Hmu Hcb)).
      exists [o]. split; [exists l; reflexivity|].
      right. split; [reflexivity | discriminate].
Qed.

(** A notification pass works on the registry as it was when the pass
    began: it calls a prefix of it, in registration order, and the whole of
    it when it returns.  It changes nothing in the watcher but the mutex. *)
Lemma Lock_free w : mu w = false -> Lock w = Returns tt (set_mu true w) [].
Proof. intros H. unfold Lock. rewrite H. reflexivity. Qed.

Lemma notifyObservers_outcome cb w :
  mu w = false ->
  exists called,
    (exists rest, customObservers w = called ++ rest)%list
    /\ (notifyObservers cb w = Returns tt w (map EOnBackupCompletion called)
        /\ called = customObservers w
        \/ notifyObservers cb w
           = Blocks (set_mu true w) (map EOnBackupCompletion called)
           /\ called <> []).
Proof.
  intros Hmu. unfold notifyObservers.
  rewrite (bind_Returns _ _ _ _ _ _ (Lock_free w Hmu)), prepend_nil.
  rewrite (bind_Returns _ _ (set_mu true w) (set_mu true w) (set_mu true w) [] eq_refl),
    prepend_nil.
  assert (Hl : mu (set_mu true w) = true) by (destruct w; reflexivity).
  assert (Ho : customObservers (set_mu true w) = customObservers w)
    by (destruct w; reflexivity).
  destruct (for_each_locked cb (customObservers (set_mu true w)) _ Hl)
    as (called & Hpre & [[Hr Hc] | [Hb Hc]]).
  - exists called. rewrite <- Ho. split; [exact Hpre|]. left.
    rewrite (bind_Returns _ _ _ _ _ _ Hr). unfold Unlock, modify. simpl.
    rewrite set_mu_same by exact Hmu. rewrite app_nil_r. split; [reflexivity|exact Hc].
  - exists called. rewrite <- Ho. split; [exact Hpre|]. right.
    rewrite (bind_Blocks _ _ _ _ _ Hb). split; [reflexivity|exact Hc].
Qed.

Lemma notified_app a b : notified (a ++ b) = (notified a ++ notified b)%list.
Proof. apply flat_map_app. Qed.

Lemma callbacks_only l :
  copies (map EOnBackupCompletion l) = []
  /\ sleeps (map EOnBackupCompletion l) = []
  /\ writes (map EOnBackupCompletion l) = []
  /\ notified (map EOnBackupCompletion l) = l.
Proof.
  induction l as [|o l (Hc & Hs & Hw & Hn)]; simpl; [auto|].
  repeat split; auto. now rewrite Hn.
Qed.

Lemma copy_trace_only env s d n : forall i,
  writes (copy_trace env s d n i) = [] /\ notified (copy_trace env s d n i) = [].
Proof.
  induction n as [|n IH]; intros i; simpl; [auto|].
  destruct (copy_result env i); simpl; [auto|]. apply IH.
Qed.

Section SnapshotPostcondition.

Variable Format : string -> GoTime.Time -> string.


End SnapshotPostcondition.


(** The three environments, run. *)
Example createBackup_target_taken :
  createBackup GoTime.utcFormat no_callbacks taken_snapshot_env sample_watcher
  = Returns tt sample_watcher
      [EStat "/tmp/destination/2023-11-14_22-15-00.250000"].
Proof. vm_compute. reflexivity. Qed.

Example createBackup_third_copy_succeeds :
  let o := createBackup GoTime.utcFormat no_callbacks sample_snapshot_env sample_watcher in
  copies (trace_of o) = [CopyFailed false; CopyFailed false; Copied]
  /\ sleeps (trace_of o) = [100; 100]%Z
  /\ notified (trace_of o) = [1; 2]%nat
  /\ List.length (Metadata (final_watcher o)) = 2%nat.
Proof. vm_compute. repeat split; reflexivity. Qed.

Example createBackup_no_copy_succeeds :
  let o := createBackup GoTime.utcFormat no_callbacks failing_snapshot_env sample_watcher in
  List.length (copies (trace_of o)) = 100%nat
  /\ forallb is_failure (copies (trace_of o)) = true
  /\ sleeps (trace_of o) = repeat 100%Z 100
  /\ List.length (Metadata (final_watcher o)) = 2%nat
  /\ notified (trace_of o) = [1; 2]%nat.
Proof. vm_compute. repeat split; reflexivity. Qed.

(** ** C9: the notification pass holds the mutex *)

(** C9.  A callback that unregisters its observer (or registers another)
    during the notification pass never returns: [RemoveObserver] waits for
    the mutex that [notifyObservers] holds until the pass is over.  The first
    observer is called, the second never is, and the snapshot attempt that
    started the pass never ends.  Outside a pass the same call works. *)
Theorem C9_callback_calling_the_registry_blocks :
  notifyObservers unregistering sample_watcher
  = Blocks (set_mu true sample_watcher) [EOnBackupCompletion 1%nat]
  /\ notified (trace_of (createBackup GoTime.utcFormat unregistering
                           sample_snapshot_env sample_watcher))
     = [1%nat]
  /\ (exists w trace,
        createBackup GoTime.utcFormat unregistering sample_snapshot_env sample_watcher
        = Blocks w trace)
  /\ RemoveObserver 1%nat sample_watcher
     = Returns tt (set_customObservers [2%nat] sample_watcher) [].
Proof.
  split; [reflexivity|]. split; [vm_compute; reflexivity|].
  split; [|reflexivity].
  eexists. eexists. vm_compute. reflexivity.
Qed.

(** What does hold of the pass: it is synchronous, follows the registration
    order of the registry as it was when the pass began, and with quiet
    callbacks reaches every observer. *)
Lemma notifyObservers_registration_order cb w :
  mu w = false ->
  (exists rest,
      customObservers w
      = (notified (trace_of (notifyObservers cb w)) ++ rest)%list)
  /\ customObservers (final_watcher (notifyObservers cb w)) = customObservers w
  /\ (passive cb ->
      notifyObservers cb w = Returns tt w (map EOnBackupCompletion (customObservers w))).
Proof.
  intros Hmu.
  destruct (notifyObservers_outcome cb w Hmu) as (called & [rest Hpre] & Hc).
  destruct (callbacks_only called) as (_ & _ & _ & Hn).
  split; [|split].
  - exists rest. destruct Hc as [[-> _] | [-> _]]; simpl; rewrite Hn; exact Hpre.
  - destruct Hc as [[-> _] | [-> _]]; simpl; [reflexivity | destruct w; reflexivity].
  - intros Hp. apply notifyObservers_passive; assumption.
Qed.

(** ** C10: a record and its folder come from one instant *)

Lemma seconds_since_epoch_UnixNano t :
  (GoTime.seconds_since_epoch t
   == inject_Z (GoTime.UnixNano t) / inject_Z GoTime.e9)%Q.
Proof.
  unfold GoTime.seconds_since_epoch, GoTime.UnixNano.
  rewrite inject_Z_plus, inject_Z_mult. field.
  unfold GoTime.e9, Qeq. simpl. lia.
Qed.


Section RecordInvariant.

Variable Format : string -> GoTime.Time -> string.

(** The three ways a call of [createBackup] can end. *)
Lemma createBackup_cases cb env w :
  mu w = false ->
  let w1 := set_Metadata
              (Metadata w ++ [record_of Format (FolderFormat w) (now env)])%list w in
  (exists t, createBackup Format cb env w = Returns tt w t)
  \/ (exists t, createBackup Format cb env w = Returns tt w1 t)
  \/ (exists t, createBackup Format cb env w = Blocks (set_mu true w1) t).
Proof.
  intros Hmu w1. rewrite (createBackup_outcome Format cb env w Hmu).
  cbv zeta. fold w1.
  destruct (path_exists env _); [left; eexists; reflexivity|].
  assert (Hmu1 : mu w1 = false) by (destruct w; exact Hmu).
  destruct (notifyObservers_outcome cb w1 Hmu1) as (called & _ & [[-> _] | [-> _]]).
  - right; left. eexists. reflexivity.
  - right; right. eexists. reflexivity.
Qed.


End RecordInvariant.


(* ================================================================== *)
(** * Start                                                            *)
(* ================================================================== *)

(** What a successful [StartWatcher] did. *)
Lemma StartWatcher_success fs w w' trace :
  StartWatcher fs w = Returns None w' trace ->
  Metadata w' = Metadata w
  /\ Enabled w = true
  /\ (Metadata w = [] ->
      requests trace = 1%nat
      /\ backupRequestChan w' = S (backupRequestChan w))
  /\ (Metadata w <> [] ->
      let latestBackupPath :=
        GoPath.Join (Destination w) (Path (List.last (Metadata w) no_backup)) in
      exists foldersMatch,
        doFoldersMatch fs (Source w) latestBackupPath = (foldersMatch, None)
        /\ requests trace = (if foldersMatch then 0 else 1)%nat
        /\ backupRequestChan w'
           = ((if foldersMatch then 0 else 1) + backupRequestChan w)%nat).
Proof.
  destruct w as [nm src dst en wt ff md m fw obs ch].
  unfold StartWatcher, createBackupIfBackupIsOutdated, send_backupRequest,
    bind, Lock, Unlock, get, modify, emit, ret.
  cbn -[doFoldersMatch GoPath.Join Nat.ltb List.last].
  destruct m; [discriminate|].
  destruct en; cbn -[doFoldersMatch GoPath.Join Nat.ltb List.last]; [|discriminate].
  destruct fw; cbn -[doFoldersMatch GoPath.Join Nat.ltb List.last]; [discriminate|].
  destruct md as [|b0 md]; cbn -[doFoldersMatch GoPath.Join Nat.ltb List.last].
  - destruct (ch <? backupRequestChan_capacity)%nat;
      cbn -[doFoldersMatch GoPath.Join Nat.ltb List.last]; [|discriminate].
    intros H. injection H as <- <-.
    split; [reflexivity|]. split; [reflexivity|].
    split; [intros _; split; reflexivity | intros H; contradiction].
  - set (latest := GoPath.Join dst (Path (List.last (b0 :: md) no_backup))).
    destruct (doFoldersMatch fs src latest) as [[|] [err|]] eqn:Ed;
      cbn -[doFoldersMatch GoPath.Join Nat.ltb List.last]; try discriminate.
    + intros H. injection H as <- <-.
      split; [reflexivity|]. split; [reflexivity|].
      split; [discriminate|]. intros _. exists true. auto.
    + destruct (ch <? backupRequestChan_capacity)%nat;
        cbn -[doFoldersMatch GoPath.Join Nat.ltb List.last]; [|discriminate].
      intros H. injection H as <- <-.
      split; [reflexivity|]. split; [reflexivity|].
      split; [discriminate|]. intros _. exists false. auto.
Qed.


(** Starts of the sample watcher: in sync, diverged, without history, and
    with the folder of the latest backup gone. *)
Example start_in_sync :
  StartWatcher fs_in_sync stopped_watcher
  = Returns None sample_watcher [ESpawn GoStartFSNotifyWatcher; ESpawn GoBackupLoop].
Proof. vm_compute. reflexivity. Qed.

Example start_diverged :
  StartWatcher fs_diverged stopped_watcher
  = Returns None (set_backupRequestChan 1 sample_watcher)
      [ESpawn GoStartFSNotifyWatcher; ESpawn GoBackupLoop; ERequestBackup].
Proof. vm_compute. reflexivity. Qed.

Example start_without_history :
  StartWatcher (fun _ => None) (set_Metadata [] stopped_watcher)
  = Returns None (set_backupRequestChan 1 (set_Metadata [] sample_watcher))
      [ESpawn GoStartFSNotifyWatcher; ESpawn GoBackupLoop; ERequestBackup].
Proof. vm_compute. reflexivity. Qed.

Example start_latest_backup_missing :
  StartWatcher (fun p => if p =? "/tmp/source" then Some sample_tree else None)
    stopped_watcher
  = Returns (Some (CheckFailed ErrReadDestDir)) sample_watcher
      [ESpawn GoStartFSNotifyWatcher; ESpawn GoBackupLoop].
Proof. vm_compute. reflexivity. Qed.

Example start_twice :
  StartWatcher fs_in_sync sample_watcher
  = Returns (Some WatcherAlreadyRunning) sample_watcher [].
Proof. vm_compute. reflexivity. Qed.

(* ================================================================== *)
(** * C6: source and destination against each other                    *)
(* ================================================================== *)

(** C6.  A destination inside the source is accepted when the first element
    of its path below the source begins with two dots: the test on the
    relative path is [strings.HasPrefix(relPath, "..")], which takes the
    folder name [..b] for a step up.  Here [/a/..b] lies inside [/a], every
    probed path is a directory, and neither [validateSourceAndDestination]
    nor [NewWatcher] reports anything; the ordinary nested destination of
    the test [TestDestinationInSource] is rejected. *)
Theorem C6_nested_destination_with_dotted_name_accepted :
  GoPath.Abs (Some "/") "/a" = ("/a", true)
  /\ GoPath.Abs (Some "/") "/a/..b" = ("/a/..b", true)
  /\ GoPath.Rel "/a" "/a/..b" = Some "..b"
  /\ validateSourceAndDestination env_all_directories "/a" "/a/..b" [] = []
  /\ snd (NewWatcher GoTime.utcFormat env_all_directories "Main Watcher"
            "/a" "/a/..b" 1 default_layout true) = []
  /\ validateSourceAndDestination env_all_directories "/a" "/a/b" []
     = [InsideSource].
Proof. vm_compute. repeat split; reflexivity. Qed.

(** The tests [TestDestinationInSource] and [TestSourceIsDestination]. *)
Example TestDestinationInSource :
  snd (NewWatcher GoTime.utcFormat env_all_directories "Test Watcher"
         "/tmp/watcher-test-1/source" "/tmp/watcher-test-1/source/destination"
         1 default_layout true)
  = [InsideSource].
Proof. vm_compute. reflexivity. Qed.

Example TestSourceIsDestination :
  snd (NewWatcher GoTime.utcFormat env_all_directories "Test Watcher"
         "/tmp/watcher-test-1/source" "/tmp/watcher-test-1/source"
         1 default_layout true)
  = [SamePathsSource; SamePathsDestination].
Proof. vm_compute. reflexivity. Qed.

Example siblings_accepted :
  snd (NewWatcher GoTime.utcFormat env_all_directories "Test Watcher"
         "/tmp/watcher-test-1/source" "/tmp/watcher-test-1/destination"
         1 default_layout true)
  = [].
Proof. vm_compute. reflexivity. Qed.

Example relative_paths_are_resolved :
  snd (NewWatcher GoTime.utcFormat env_all_directories "Test Watcher"
         "src" "./src/../src/backups" 1 default_layout true)
  = [InsideSource].
Proof. vm_compute. reflexivity. Qed.

(** ** What the relational check does on cleaned absolute paths *)

Lemma split_slash_name s :
  GoPath.no_slash s = true -> GoPath.split_slash s = [s].
Proof.
  induction s as [|c s IH]; simpl; [reflexivity|].
  intros H. apply andb_true_iff in H. destruct H as [Hc Hs].
  apply negb_true_iff in Hc. unfold GoPath.Separator in *. rewrite Hc.
  rewrite (IH Hs). reflexivity.
Qed.

Lemma split_slash_app n rest :
  GoPath.no_slash n = true ->
  GoPath.split_slash (n ++ String "/" rest) = n :: GoPath.split_slash rest.
Proof.
  induction n as [|c n IH]; simpl; [reflexivity|].
  intros H. apply andb_true_iff in H. destruct H as [Hc Hs].
  apply negb_true_iff in Hc. unfold GoPath.Separator in *. rewrite Hc.
  rewrite (IH Hs). reflexivity.
Qed.

Lemma is_name_no_slash n : GoPath.is_name n = true -> GoPath.no_slash n = true.
Proof. unfold GoPath.is_name. rewrite !andb_true_iff. tauto. Qed.

Lemma is_name_facts n :
  GoPath.is_name n = true ->
  (n =? "") = false /\ (n =? ".") = false /\ (n =? "..") = false.
Proof.
  unfold GoPath.is_name. rewrite !andb_true_iff, !negb_true_iff. tauto.
Qed.

Lemma split_slash_join ns :
  ns <> [] -> Forall (fun n => GoPath.is_name n = true) ns ->
  GoPath.split_slash (GoPath.join_slash ns) = ns.
Proof.
  induction ns as [|n ns IH]; [congruence|]. intros _ Hall.
  inversion Hall as [|? ? Hn Hrest]; subst.
  destruct ns as [|m ns].
  - simpl. apply split_slash_name, is_name_no_slash, Hn.
  - change (GoPath.join_slash (n :: m :: ns))
      with (n ++ String "/" (GoPath.join_slash (m :: ns))).
    rewrite split_slash_app by (apply is_name_no_slash, Hn).
    rewrite IH by (auto; discriminate). reflexivity.
Qed.

Lemma split_slash_rooted ns :
  Forall (fun n => GoPath.is_name n = true) ns ->
  GoPath.split_slash (GoPath.rooted ns)
  = "" :: match ns with [] => [""] | _ => ns end.
Proof.
  intros Hall. unfold GoPath.rooted.
  change ("/" ++ GoPath.join_slash ns) with (String "/" (GoPath.join_slash ns)).
  cbn [GoPath.split_slash]. unfold GoPath.Separator. cbn [Ascii.eqb Bool.eqb].
  destruct ns as [|n ns]; [reflexivity|].
  rewrite split_slash_join by (auto; discriminate). reflexivity.
Qed.

Lemma clean_names acc ns rooted :
  Forall (fun n => GoPath.is_name n = true) ns ->
  fold_left (GoPath.clean_step rooted) ns acc = (rev ns ++ acc)%list.
Proof.
  revert acc. induction ns as [|n ns IH]; intros acc Hall; [reflexivity|].
  inversion Hall as [|? ? Hn Hrest]; subst.
  destruct (is_name_facts n Hn) as (H1 & H2 & H3).
  cbn [fold_left]. unfold GoPath.clean_step at 2. rewrite H1, H2, H3. cbn [orb].
  rewrite IH by exact Hrest. cbn [rev]. now rewrite <- app_assoc.
Qed.

Lemma IsAbs_rooted ns : GoPath.IsAbs (GoPath.rooted ns) = true.
Proof.
  unfold GoPath.IsAbs, GoPath.HasPrefix, GoPath.rooted. simpl.
  destruct (ascii_dec "/" "/"); [|congruence].
  destruct (GoPath.join_slash ns); reflexivity.
Qed.

Lemma Clean_rooted ns :
  Forall (fun n => GoPath.is_name n = true) ns ->
  GoPath.Clean (GoPath.rooted ns) = GoPath.rooted ns.
Proof.
  intros Hall. unfold GoPath.Clean.
  change (GoPath.rooted ns =? "") with false. cbv iota.
  rewrite IsAbs_rooted. cbv iota zeta.
  unfold GoPath.clean_elems. rewrite split_slash_rooted by exact Hall.
  destruct ns as [|n ns].
  - reflexivity.
  - change (fold_left (GoPath.clean_step true) ("" :: n :: ns) [])
      with (fold_left (GoPath.clean_step true) (n :: ns) []).
    rewrite clean_names by exact Hall. rewrite app_nil_r, rev_involutive.
    reflexivity.
Qed.

Lemma elems_of_rooted ns :
  Forall (fun n => GoPath.is_name n = true) ns ->
  GoPath.elems_of (GoPath.rooted ns) = ns.
Proof.
  intros Hall. unfold GoPath.elems_of. rewrite split_slash_rooted by exact Hall.
  assert (Hf : filter (fun c => negb (c =? "")) ns = ns).
  { induction Hall as [|n ns Hn _ IH]; [reflexivity|].
    destruct (is_name_facts n Hn) as (H1 & _ & _).
    cbn [filter]. rewrite H1. cbn [negb]. now rewrite IH. }
  destruct ns as [|n ns]; [reflexivity|].
  cbn [filter String.eqb negb]. exact Hf.
Qed.

Lemma rooted_inj s d :
  Forall (fun n => GoPath.is_name n = true) s ->
  Forall (fun n => GoPath.is_name n = true) d ->
  GoPath.rooted s = GoPath.rooted d -> s = d.
Proof.
  intros Hs Hd H. rewrite <- (elems_of_rooted s Hs), <- (elems_of_rooted d Hd).
  now rewrite H.
Qed.

Lemma prefix_empty s : String.prefix "" s = true.
Proof. destruct s; reflexivity. Qed.

Lemma prefix_cons c p s :
  String.prefix (String c p) (String c s) = String.prefix p s.
Proof. simpl. destruct (ascii_dec c c); [reflexivity | congruence]. Qed.

Lemma prefix_cons_diff c c' p s :
  c <> c' -> String.prefix (String c p) (String c' s) = false.
Proof. intros H. simpl. destruct (ascii_dec c c'); [congruence | reflexivity]. Qed.

Lemma join_slash_cons n m ns :
  GoPath.join_slash (n :: m :: ns) = n ++ String "/" (GoPath.join_slash (m :: ns)).
Proof. reflexivity. Qed.

(** A relative path that begins with a step up has the prefix [..]. *)
Lemma HasPrefix_up rest :
  GoPath.HasPrefix (GoPath.join_slash (".." :: rest)) ".." = true.
Proof.
  unfold GoPath.HasPrefix. destruct rest as [|m rest].
  - reflexivity.
  - rewrite join_slash_cons.
    change (".." ++ String "/" (GoPath.join_slash (m :: rest)))
      with (String "." (String "." (String "/" (GoPath.join_slash (m :: rest))))).
    rewrite !prefix_cons. apply prefix_empty.
Qed.

(** A relative path that begins with a folder name: it is not absolute, it
    is not [.], and it has the prefix [..] exactly when the name has. *)
Lemma join_slash_name n rest :
  GoPath.is_name n = true ->
  GoPath.IsAbs (GoPath.join_slash (n :: rest)) = false
  /\ (GoPath.join_slash (n :: rest) =? ".") = false
  /\ GoPath.HasPrefix (GoPath.join_slash (n :: rest)) ".." = GoPath.HasPrefix n "..".
Proof.
  intros Hn. pose proof (is_name_no_slash n Hn) as Hns.
  destruct (is_name_facts n Hn) as (H1 & H2 & H3).
  unfold GoPath.IsAbs, GoPath.HasPrefix.
  destruct n as [|c n]; [discriminate|].
  simpl in Hns. apply andb_true_iff in Hns. destruct Hns as [Hc Hns].
  apply negb_true_iff in Hc. unfold GoPath.Separator in Hc.
  assert (Hc' : "/"%char <> c).
  { intros <-. rewrite Ascii.eqb_refl in Hc. discriminate. }
  destruct rest as [|m rest].
  - simpl GoPath.join_slash.
    split; [apply prefix_cons_diff; exact Hc'|]. split; [exact H2 | reflexivity].
  - rewrite join_slash_cons.
    change (String c n ++ String "/" (GoPath.join_slash (m :: rest)))
      with (String c (n ++ String "/" (GoPath.join_slash (m :: rest)))).
    split; [apply prefix_cons_diff; exact Hc'|]. split.
    + destruct n as [|c2 n]; simpl.
      * destruct (Ascii.eqb c "."); reflexivity.
      * destruct (Ascii.eqb c "."); reflexivity.
    + destruct (ascii_dec "." c) as [<-|Hne].
      * rewrite !prefix_cons.
        destruct n as [|c2 n].
        -- simpl. destruct (ascii_dec "." "/"); [discriminate | reflexivity].
        -- change (String c2 n ++ String "/" (GoPath.join_slash (m :: rest)))
             with (String c2 (n ++ String "/" (GoPath.join_slash (m :: rest)))).
           destruct (ascii_dec "." c2) as [<-|Hne2].
           ++ rewrite !prefix_cons, !prefix_empty. reflexivity.
           ++ rewrite !prefix_cons_diff by exact Hne2. reflexivity.
      * rewrite !prefix_cons_diff by exact Hne. reflexivity.
Qed.

Lemma strip_common_nested s : forall rest,
  GoPath.strip_common s (s ++ rest) = ([], rest).
Proof.
  induction s as [|x s IH]; intros rest; simpl.
  - destruct rest; reflexivity.
  - rewrite String.eqb_refl. apply IH.
Qed.

Lemma strip_common_left b : forall t br tr,
  GoPath.strip_common b t = (br, tr) ->
  (br = [] -> exists rest, t = (b ++ rest)%list)
  /\ (forall x, In x br -> In x b).
Proof.
  induction b as [|x b IH]; intros t br tr H.
  - simpl in H. assert (Hb : br = [] /\ tr = t) by (destruct t; inversion H; auto).
    destruct Hb as [-> ->]. split; [intros _; exists t; reflexivity | intros y []].
  - destruct t as [|y t]; simpl in H.
    + inversion H; subst. split; [discriminate | auto].
    + destruct (String.eqb_spec x y) as [->|Hne].
      * destruct (IH t br tr H) as [H1 H2]. split.
        -- intros E. destruct (H1 E) as [rest ->]. exists rest. reflexivity.
        -- intros z Hz. right. apply H2, Hz.
      * inversion H; subst. split; [discriminate | auto].
Qed.

Section RelationalCheck.

Variable env : ValidationEnv.
Variables s d : list string.
Hypothesis Hs : Forall (fun n => GoPath.is_name n = true) s.
Hypothesis Hd : Forall (fun n => GoPath.is_name n = true) d.

Lemma Abs_rooted ns :
  Forall (fun n => GoPath.is_name n = true) ns ->
  GoPath.Abs (getwd env) (GoPath.rooted ns) = (GoPath.rooted ns, true).
Proof.
  intros H. unfold GoPath.Abs. rewrite IsAbs_rooted, Clean_rooted by exact H.
  reflexivity.
Qed.

Lemma Rel_rooted :
  GoPath.Rel (GoPath.rooted s) (GoPath.rooted d)
  = if GoPath.rooted d =? GoPath.rooted s then Some "."
    else let '(br, tr) := GoPath.strip_common s d in
         match br with
         | [] => Some (GoPath.join_slash tr)
         | b0 :: _ =>
             if b0 =? ".." then None
             else Some (GoPath.join_slash (map (fun _ => "..") br ++ tr)%list)
         end.
Proof.
  unfold GoPath.Rel. rewrite !Clean_rooted by assumption.
  destruct (GoPath.rooted d =? GoPath.rooted s); [reflexivity|].
  change (GoPath.rooted s =? ".") with false. cbv iota.
  rewrite !IsAbs_rooted. cbn [Bool.eqb negb].
  rewrite !elems_of_rooted by assumption. reflexivity.
Qed.

Lemma validateSourceAndDestination_rooted :
  validateSourceAndDestination env (GoPath.rooted s) (GoPath.rooted d) []
  = (validateDirOld (probe_source env) (GoPath.rooted s) ErrorInvalidSource
     ++ validateDirOld (probe_destination env) (GoPath.rooted d) ErrorInvalidDestination
     ++ relational_violations s d)%list.
Proof.
  unfold validateSourceAndDestination, relational_violations, errors_Join.
  rewrite !Abs_rooted by assumption.
  destruct (GoPath.rooted s =? GoPath.rooted d);
    destruct (GoPath.Rel (GoPath.rooted s) (GoPath.rooted d)) as [r|];
    cbn [app];
    try destruct (negb (GoPath.IsAbs r) && negb (GoPath.HasPrefix r "..") && negb (r =? "."));
    cbn; rewrite ?app_nil_r, <- ?app_assoc; reflexivity.
Qed.

(** Source and destination are the same path: both violations. *)
Lemma source_equals_destination_rejected :
  s = d ->
  In SamePathsSource
    (validateSourceAndDestination env (GoPath.rooted s) (GoPath.rooted d) [])
  /\ In SamePathsDestination
       (validateSourceAndDestination env (GoPath.rooted s) (GoPath.rooted d) []).
Proof.
  intros E. rewrite validateSourceAndDestination_rooted.
  unfold relational_violations.
  replace (GoPath.rooted s =? GoPath.rooted d) with true
    by (rewrite E; symmetry; apply String.eqb_refl).
  rewrite !in_app_iff. simpl. tauto.
Qed.

(** The destination lies below the source, and the first folder on the way
    down does not begin with two dots: rejected. *)
Lemma nested_destination_rejected n rest :
  d = (s ++ n :: rest)%list ->
  GoPath.HasPrefix n ".." = false ->
  In InsideSource
    (validateSourceAndDestination env (GoPath.rooted s) (GoPath.rooted d) []).
Proof.
  intros E Hpre. rewrite validateSourceAndDestination_rooted.
  unfold relational_violations. rewrite Rel_rooted.
  assert (Hn : GoPath.is_name n = true).
  { pose proof Hd as Hd'. rewrite E in Hd'. apply Forall_app in Hd'.
    destruct Hd' as [_ H]. inversion H; assumption. }
  assert (Hne : (GoPath.rooted d =? GoPath.rooted s) = false).
  { apply String.eqb_neq. intros H. apply rooted_inj in H; try assumption.
    rewrite E in H. apply (f_equal (@List.length string)) in H.
    rewrite length_app in H. simpl in H. lia. }
  rewrite Hne.
  replace (GoPath.strip_common s d) with (@nil string, n :: rest)
    by (rewrite E; symmetry; apply strip_common_nested).
  destruct (join_slash_name n rest Hn) as (H1 & H2 & H3).
  rewrite H1, H2, H3, Hpre. rewrite !in_app_iff. simpl. tauto.
Qed.

(** The same, with a first folder that begins with two dots: the check
    takes it for a step up and reports nothing. *)
Lemma nested_destination_missed n rest :
  d = (s ++ n :: rest)%list ->
  GoPath.HasPrefix n ".." = true ->
  relational_violations s d = [].
Proof.
  intros E Hpre. unfold relational_violations. rewrite Rel_rooted.
  assert (Hn : GoPath.is_name n = true).
  { pose proof Hd as Hd'. rewrite E in Hd'. apply Forall_app in Hd'.
    destruct Hd' as [_ H]. inversion H; assumption. }
  assert (Hne : (GoPath.rooted d =? GoPath.rooted s) = false).
  { apply String.eqb_neq. intros H. apply rooted_inj in H; try assumption.
    rewrite E in H. apply (f_equal (@List.length string)) in H.
    rewrite length_app in H. simpl in H. lia. }
  rewrite Hne. rewrite String.eqb_sym, Hne.
  replace (GoPath.strip_common s d) with (@nil string, n :: rest)
    by (rewrite E; symmetry; apply strip_common_nested).
  destruct (join_slash_name n rest Hn) as (H1 & H2 & H3).
  rewrite H1, H2, H3, Hpre. reflexivity.
Qed.

(** The destination is neither the source nor below it: the relational
    check reports nothing, and what is left is the validation of the two
    directories. *)
Lemma unrelated_destination_passes :
  (forall rest, d <> (s ++ rest)%list) ->
  validateSourceAndDestination env (GoPath.rooted s) (GoPath.rooted d) []
  = (validateDirOld (probe_source env) (GoPath.rooted s) ErrorInvalidSource
     ++ validateDirOld (probe_destination env) (GoPath.rooted d)
          ErrorInvalidDestination)%list.
Proof.
  intros Hun. rewrite validateSourceAndDestination_rooted.
  assert (Hrel : relational_violations s d = []).
  { unfold relational_violations. rewrite Rel_rooted.
    assert (Hne : (GoPath.rooted d =? GoPath.rooted s) = false).
    { apply String.eqb_neq. intros H. apply rooted_inj in H; try assumption.
      apply (Hun []). rewrite app_nil_r. exact H. }
    rewrite Hne. rewrite String.eqb_sym, Hne.
    destruct (GoPath.strip_common s d) as [br tr] eqn:Es.
    destruct (strip_common_left s d br tr Es) as [H1 H2].
    destruct br as [|b0 br].
    - destruct (H1 eq_refl) as [rest Hr]. exfalso. exact (Hun rest Hr).
    - assert (Hb : GoPath.is_name b0 = true).
      { rewrite Forall_forall in Hs. apply Hs, H2. left. reflexivity. }
      destruct (is_name_facts b0 Hb) as (_ & _ & H3). rewrite H3.
      cbn [map app]. rewrite HasPrefix_up.
      rewrite andb_false_r. reflexivity. }
  rewrite Hrel, app_nil_r. reflexivity.
Qed.

End RelationalCheck.

(* ================================================================== *)
(** * The debounce loop                                                *)
(* ================================================================== *)

Section DebounceFacts.

Variable wait : Z.
Variable duration : Z -> Z.

(** ** Requests going through the channel *)

Lemma settle_nothing fuel now l :
  chan l = 0%nat -> queued l = 0%nat -> settle wait duration fuel now l = l.
Proof.
  intros Hc Hq. destruct fuel; simpl; [reflexivity|].
  unfold ready. rewrite Hc, Hq. reflexivity.
Qed.

Lemma settle_takes_all now : forall q fuel l c,
  chan l = c -> queued l = q -> (c <= 1)%nat -> (0 < q + c)%nat ->
  (2 * q + c <= fuel)%nat ->
  settle wait duration fuel now l = took wait (q + c) now l.
Proof.
  assert (Hone : forall fuel l, chan l = 1%nat -> queued l = 0%nat ->
            (1 <= fuel)%nat -> settle wait duration fuel now l = took wait 1 now l).
  { intros fuel l Hc Hq Hf. destruct fuel as [|f]; [lia|].
    simpl. unfold ready. rewrite Hc. simpl.
    rewrite settle_nothing; [| destruct l; simpl in *; subst; reflexivity
                             | destruct l; simpl in *; subst; reflexivity].
    destruct l; simpl in *; subst; reflexivity. }
  induction q as [|q IH]; intros fuel l c Hc Hq Hle Hpos Hf.
  - assert (Hc1 : c = 1%nat) by lia. rewrite Hc1 in *. apply Hone; auto; lia.
  - assert (Hzero : forall fuel l, chan l = 0%nat -> queued l = S q ->
              (2 * S q <= fuel)%nat ->
              settle wait duration fuel now l = took wait (S q) now l).
    { intros fuel0 l0 Hc0 Hq0 Hf0. destruct fuel0 as [|f]; [lia|].
      simpl. unfold ready. rewrite Hc0, Hq0. simpl.
      unfold notifier_sends. rewrite Hq0, Hc0. simpl.
      destruct q as [|q'].
      - rewrite Hone; [| reflexivity | reflexivity | lia].
        destruct l0; simpl in *; subst; reflexivity.
      - rewrite (IH f _ 1%nat); [| reflexivity | reflexivity | lia | lia | simpl; lia].
        destruct l0; simpl in *; subst. unfold took; simpl.
        f_equal. lia. }
    destruct c as [|[|c]]; [| |lia].
    + rewrite Nat.add_0_r. apply Hzero; auto. lia.
    + destruct fuel as [|f]; [lia|].
      simpl. unfold ready. rewrite Hc. simpl.
      rewrite Hzero; [| destruct l; simpl in *; subst; reflexivity
                      | destruct l; simpl in *; subst; reflexivity
                      | lia].
      destruct l; simpl in *; subst. unfold took; simpl. f_equal. lia.
Qed.

Lemma settle_all_nothing now l :
  chan l = 0%nat -> queued l = 0%nat -> settle_all wait duration now l = l.
Proof. intros Hc Hq. unfold settle_all. apply settle_nothing; assumption. Qed.

Lemma settle_all_takes_all now l :
  (chan l <= 1)%nat -> (0 < queued l + chan l)%nat ->
  settle_all wait duration now l = took wait (queued l + chan l) now l.
Proof.
  intros Hc Hpos. unfold settle_all.
  apply settle_takes_all; auto; lia.
Qed.

End DebounceFacts.

Section DebounceRuns.

Variable wait : Z.
Variable duration : Z -> Z.

Local Notation "'W'" := (Z.max 0 wait).
Local Notation "'D' t" := (Z.max 0 (duration t)) (at level 10, t at level 9).

Lemma run_cons t events l :
  run wait duration (t :: events) l = run wait duration events (notify wait duration l t).
Proof. reflexivity. Qed.

(** ** One file event, state by state *)

(** At its [select] with nothing armed: the timer is armed. *)
Lemma notify_idle st rc ats t :
  notify wait duration (mkLoop None None st 0 0 rc ats) t
  = mkLoop (Some (t + W)%Z) None st 0 0 (S rc) ats.
Proof. reflexivity. Qed.

(** Pending, the timer not yet expired: the timer is armed afresh. *)
Lemma notify_pending dl st rc ats t :
  (t < dl)%Z ->
  notify wait duration (mkLoop (Some dl) None st 0 0 rc ats) t
  = mkLoop (Some (t + W)%Z) None st 0 0 (S rc) ats.
Proof.
  intros H. unfold notify. simpl.
  rewrite (proj2 (Z.leb_gt dl t)) by lia. reflexivity.
Qed.

(** Pending, the timer expired and the snapshot it started over: one
    attempt was made at the deadline, and the timer is armed again. *)
Lemma notify_after_snapshot dl st rc ats t :
  (dl <= t)%Z -> (dl + D dl <= t)%Z ->
  notify wait duration (mkLoop (Some dl) None st 0 0 rc ats) t
  = mkLoop (Some (t + W)%Z) None st 0 0 (S rc) (ats ++ [dl])%list.
Proof.
  intros H1 H2. unfold notify. simpl.
  rewrite (proj2 (Z.leb_le dl t)) by lia. simpl.
  rewrite (proj2 (Z.leb_le (dl + D dl) t)) by lia. reflexivity.
Qed.

(** Inside a snapshot: the request goes to the channel if it is empty, and
    stays with the notifier otherwise; the loop itself is not touched. *)
Lemma notify_busy fin st c q rc ats t :
  (t < fin)%Z -> (c <= 1)%nat ->
  notify wait duration (mkLoop None (Some fin) st c q rc ats) t
  = if (c =? 0)%nat
    then mkLoop None (Some fin) st 1 q rc ats
    else mkLoop None (Some fin) st 1 (S q) rc ats.
Proof.
  intros H Hc. unfold notify. simpl.
  rewrite (proj2 (Z.leb_gt fin t)) by lia. simpl.
  destruct c as [|[|c]]; [reflexivity | reflexivity | lia].
Qed.

(** ** The end of a run *)

Lemma quiesce_pending dl st rc ats fuel :
  (2 <= fuel)%nat ->
  quiesce wait duration fuel (mkLoop (Some dl) None st 0 0 rc ats)
  = mkLoop None None st 0 0 rc (ats ++ [dl])%list.
Proof.
  intros H. destruct fuel as [|[|fuel]]; [lia | lia |].
  simpl. destruct fuel; reflexivity.
Qed.

Lemma quiesce_busy fin st c q rc ats fuel :
  (3 <= fuel)%nat -> (c <= 1)%nat -> (0 < q + c)%nat ->
  quiesce wait duration fuel (mkLoop None (Some fin) st c q rc ats)
  = mkLoop None None st 0 0 (q + c + rc) (ats ++ [(fin + W)%Z])%list.
Proof.
  intros H Hc Hpos. destruct fuel as [|fuel]; [lia|].
  cbn [quiesce busy]; unfold createBackup_returns; cbn [busy timer chan queued stopped received attempts].
  rewrite settle_all_takes_all by (simpl; lia).
  unfold took. cbn [busy stopped received attempts queued chan].
  apply quiesce_pending. lia.
Qed.

(** ** A burst *)

Lemma run_burst : forall rest t st rc ats,
  neighbours (fun a b => a <= b < a + W)%Z (t :: rest) ->
  run wait duration rest (mkLoop (Some (t + W)%Z) None st 0 0 rc ats)
  = mkLoop (Some (List.last (t :: rest) 0 + W)%Z) None st 0 0
      (List.length rest + rc) ats.
Proof.
  induction rest as [|t' rest IH]; intros t st rc ats Hn.
  - reflexivity.
  - destruct Hn as [Ht Hn]. rewrite run_cons, notify_pending by lia.
    rewrite IH by exact Hn.
    cbn [List.length]. f_equal; try lia; destruct rest; reflexivity.
Qed.

(** ** Changes apart by more than the wait time and the snapshot *)

Lemma run_spaced : forall rest t st rc ats,
  neighbours (fun a b => a + W + D (a + W) < b)%Z (t :: rest) ->
  run wait duration rest (mkLoop (Some (t + W)%Z) None st 0 0 rc ats)
  = mkLoop (Some (List.last (t :: rest) 0 + W)%Z) None st 0 0
      (List.length rest + rc)
      (ats ++ map (fun a => a + W)%Z (removelast (t :: rest)))%list.
Proof.
  induction rest as [|t' rest IH]; intros t st rc ats Hn.
  - simpl. now rewrite app_nil_r.
  - destruct Hn as [Ht Hn]. rewrite run_cons, notify_after_snapshot by lia.
    rewrite IH by exact Hn.
    cbn [List.length].
    change (removelast (t :: t' :: rest)) with (t :: removelast (t' :: rest)).
    cbn [map]. rewrite <- app_assoc. cbn [app].
    f_equal; try lia; destruct rest; reflexivity.
Qed.

(** ** Changes during a snapshot *)

Lemma run_busy fin : forall events st c q rc ats,
  Forall (fun t => t < fin)%Z events -> (c <= 1)%nat ->
  run wait duration events (mkLoop None (Some fin) st c q rc ats)
  = match events with
    | [] => mkLoop None (Some fin) st c q rc ats
    | _ :: _ =>
        mkLoop None (Some fin) st 1 (List.length events + q + c - 1) rc ats
    end.
Proof.
  induction events as [|t events IH]; intros st c q rc ats Hall Hc.
  - reflexivity.
  - inversion Hall as [|? ? Ht Hrest]; subst.
    rewrite run_cons, notify_busy by assumption.
    destruct c as [|[|c]]; [| |lia]; cbn [Nat.eqb];
      rewrite IH by (auto; lia);
      destruct events; cbn [List.length]; f_equal; lia.
Qed.

(** ** The fuel of [advance] and of [quiesce] is enough *)

Lemma advance_S f t l :
  advance wait duration (S f) t l
  = match busy l with
    | Some finish =>
        if (finish <=? t)%Z
        then advance wait duration f t
               (settle_all wait duration finish (createBackup_returns l))
        else l
    | None =>
        match timer l with
        | Some deadline =>
            if (deadline <=? t)%Z
            then advance wait duration f t
                   (backupLoop_case wait duration CaseTimer deadline l)
            else l
        | None => l
        end
    end.
Proof. reflexivity. Qed.

Lemma advance_is_complete t l :
  drained l ->
  nothing_due t (advance wait duration advance_fuel t l)
  /\ drained (advance wait duration advance_fuel t l).
Proof.
  intros (Hcap & Hsel & Hbusy).
  destruct l as [tm bs st c q rc ats]. cbn [chan busy timer queued] in *.
  unfold advance_fuel.
  assert (Hpend : forall f dl rc' ats',
            (3 <= f)%nat ->
            let r := advance wait duration f t (mkLoop (Some dl) None st 0 0 rc' ats') in
            nothing_due t r /\ drained r).
  { intros f dl rc' ats' Hf. destruct f as [|[|[|f]]]; try lia.
    rewrite advance_S; cbn [busy timer].
    destruct (Z.leb_spec dl t) as [Hle|Hgt].
    - unfold backupLoop_case; cbn [busy timer chan queued stopped received attempts].
      rewrite advance_S; cbn [busy timer].
      destruct (Z.leb_spec (dl + D dl) t) as [Hle2|Hgt2].
      + rewrite settle_all_nothing by reflexivity.
        rewrite advance_S.
        unfold createBackup_returns; cbn [busy timer chan queued stopped received attempts].
        unfold nothing_due, drained, backupRequestChan_capacity. simpl.
        repeat split; auto; try lia; congruence.
      + unfold nothing_due, drained, backupRequestChan_capacity. simpl.
        repeat split; auto; try lia; congruence.
    - unfold nothing_due, drained, backupRequestChan_capacity. simpl.
      repeat split; auto; try lia; congruence. }
  destruct bs as [fin|].
  - assert (tm = None) by (apply Hbusy; discriminate). subst tm.
    rewrite advance_S; cbn [busy timer].
    destruct (Z.leb_spec fin t) as [Hle|Hgt].
    + unfold createBackup_returns; cbn [busy timer chan queued stopped received attempts].
      destruct (Nat.eq_dec (q + c) 0) as [Hz|Hnz].
      * assert (q = 0%nat) by lia. assert (c = 0%nat) by lia. subst.
        rewrite settle_all_nothing by reflexivity.
        rewrite advance_S.
        unfold nothing_due, drained, backupRequestChan_capacity. simpl.
        repeat split; auto; try lia; congruence.
      * unfold backupRequestChan_capacity in Hcap.
        rewrite settle_all_takes_all by (simpl; lia).
        unfold took. cbn [busy stopped received attempts queued chan].
        apply Hpend. lia.
    + unfold nothing_due, drained, backupRequestChan_capacity in *. simpl.
      repeat split; auto; try lia; congruence.
  - destruct (Hsel eq_refl) as [-> ->].
    destruct tm as [dl|].
    + apply Hpend. lia.
    + unfold nothing_due, drained, backupRequestChan_capacity. simpl.
      repeat split; auto; try lia; congruence.
Qed.

Lemma notify_drained l t : drained l -> drained (notify wait duration l t).
Proof.
  intros Hd. unfold notify.
  destruct (advance_is_complete t l Hd) as [_ (Hcap & Hsel & Hbusy)].
  destruct (advance wait duration advance_fuel t l) as [tm bs st c q rc ats].
  cbn [chan busy timer queued] in *.
  unfold file_event. cbn [busy timer chan queued stopped received attempts].
  unfold backupRequestChan_capacity in *.
  destruct bs as [fin|].
  - unfold notifier_sends, backupRequestChan_capacity.
    cbn [busy timer chan queued stopped received attempts].
    destruct (Nat.ltb_spec c 1); unfold drained, backupRequestChan_capacity; simpl;
      (split; [lia|]); (split; [discriminate|]); intros _; apply Hbusy; discriminate.
  - destruct (Hsel eq_refl) as [-> ->].
    rewrite settle_all_takes_all by (simpl; lia).
    unfold took, drained, backupRequestChan_capacity. simpl.
    split; [lia|]. split; [auto | congruence].
Qed.

Lemma run_drained events : forall l,
  drained l -> drained (run wait duration events l).
Proof.
  induction events as [|t events IH]; intros l Hd; [exact Hd|].
  apply IH, notify_drained, Hd.
Qed.

Lemma quiesce_is_complete l fuel :
  drained l -> (4 <= fuel)%nat -> quiescent (quiesce wait duration fuel l).
Proof.
  intros (Hcap & Hsel & Hbusy) Hf.
  destruct l as [tm bs st c q rc ats]. cbn [chan busy timer queued] in *.
  unfold backupRequestChan_capacity in Hcap.
  destruct bs as [fin|].
  - assert (tm = None) by (apply Hbusy; discriminate). subst tm.
    destruct (Nat.eq_dec (q + c) 0) as [Hz|Hnz].
    + assert (q = 0%nat) by lia. assert (c = 0%nat) by lia. subst.
      destruct fuel as [|[|fuel]]; try lia. simpl.
      unfold quiescent. simpl. auto.
    + rewrite quiesce_busy by lia. unfold quiescent. simpl. auto.
  - destruct (Hsel eq_refl) as [-> ->].
    destruct tm as [dl|].
    + rewrite quiesce_pending by lia. unfold quiescent. simpl. auto.
    + destruct fuel; unfold quiescent; simpl; auto.
Qed.

End DebounceRuns.

(* ================================================================== *)
(** * From snapshot attempts to backups                                *)
(* ================================================================== *)

Section ReplayFacts.

Variable Format : string -> GoTime.Time -> string.
Variable cb : Callbacks.
Variable copy : Z -> nat -> CopyResult.
Variable write : Z -> bool.

(** Every attempt appends at most one record, the one of its instant. *)
Lemma replay_appends : forall ts disk w,
  mu w = false ->
  exists appended,
    Metadata (fst (replay Format cb copy write ts disk w))
    = (Metadata w ++ appended)%list
    /\ (List.length appended <= List.length ts)%nat
    /\ Forall (fun b => exists t, In t ts
                 /\ b = record_of Format (FolderFormat w) (instant t)) appended.
Proof.
  induction ts as [|t ts IH]; intros disk w Hmu.
  - exists []. simpl. rewrite app_nil_r. auto.
  - cbn [replay].
    set (env := attempt_env copy write disk t).
    set (b := record_of Format (FolderFormat w) (instant t)).
    set (w1 := set_Metadata (Metadata w ++ [b])%list w).
    assert (Hmu1 : mu w1 = false) by (destruct w; exact Hmu).
    assert (Hff : FolderFormat w1 = FolderFormat w) by (destruct w; reflexivity).
    assert (Hmd : Metadata w1 = (Metadata w ++ [b])%list) by (destruct w; reflexivity).
    destruct (createBackup_cases Format cb env w Hmu) as [[tr Ht] | [[tr Ht] | [tr Ht]]];
      rewrite Ht.
    + destruct (IH (disk_after disk tr) w Hmu) as (app' & Hm & Hl & Hall).
      exists app'. split; [exact Hm|]. split; [simpl; lia|].
      eapply Forall_impl; [|exact Hall].
      intros bk (t0 & Hin & Hb). exists t0. split; [right; exact Hin | exact Hb].
    + destruct (IH (disk_after disk tr) w1 Hmu1) as (app' & Hm & Hl & Hall).
      fold w1. rewrite Hff in Hall. rewrite Hmd, <- app_assoc in Hm.
      exists (b :: app'). split; [exact Hm|]. split; [simpl; lia|].
      constructor.
      * exists t. split; [left; reflexivity | reflexivity].
      * eapply Forall_impl; [|exact Hall].
        intros bk (t0 & Hin & Hb). exists t0. split; [right; exact Hin | exact Hb].
    + exists [b]. cbn [fst]. split; [destruct w; reflexivity|].
      split; [simpl; lia|]. constructor; [|constructor].
      exists t. split; [left; reflexivity | reflexivity].
Qed.

(** An attempt whose target folder is there appends nothing; otherwise it
    appends its record. *)
Lemma replay_one t disk w :
  mu w = false ->
  Metadata (fst (replay Format cb copy write [t] disk w))
  = if on_disk disk (target_of Format w t) then Metadata w
    else (Metadata w ++ [record_of Format (FolderFormat w) (instant t)])%list.
Proof.
  intros Hmu. cbn [replay].
  rewrite (createBackup_outcome Format cb (attempt_env copy write disk t) w Hmu).
  cbv zeta. cbn [path_exists now attempt_env].
  fold (target_of Format w t).
  destruct (on_disk disk (target_of Format w t)); [reflexivity|].
  set (w1 := set_Metadata _ w).
  assert (Hmu1 : mu w1 = false) by (destruct w; exact Hmu).
  destruct (notifyObservers_outcome cb w1 Hmu1) as (called & _ & [[-> _] | [-> _]]);
    cbn [prepend fst]; destruct w; reflexivity.
Qed.

End ReplayFacts.

Section ReplayFresh.

Variable Format : string -> GoTime.Time -> string.
Variable cb : Callbacks.
Variable copy : Z -> nat -> CopyResult.
Variable write : Z -> bool.

Lemma on_disk_In disk p : on_disk disk p = true <-> In p disk.
Proof.
  unfold on_disk. rewrite existsb_exists. split.
  - intros (x & Hin & He). apply String.eqb_eq in He. now subst.
  - intros H. exists p. split; [exact H | apply String.eqb_refl].
Qed.

(** The copies of the retry loop all go to the target. *)
Lemma copy_trace_destinations env s d n : forall i e,
  In e (copy_trace env s d n i) ->
  match e with ECopy _ destination _ => destination = d | _ => True end.
Proof.
  induction n as [|n IH]; intros i e; simpl; [tauto|].
  destruct (copy_result env i); simpl.
  - intros [<- | []]. reflexivity.
  - intros [<- | [<- | H]]; [reflexivity | exact I | eapply IH; exact H].
Qed.

Lemma disk_after_only_target disk trace d p :
  (forall e, In e trace ->
     match e with ECopy _ destination _ => destination = d | _ => True end) ->
  on_disk (disk_after disk trace) p = true ->
  p = d \/ on_disk disk p = true.
Proof.
  intros Hall H. apply on_disk_In in H. unfold disk_after in H.
  apply in_app_or in H. destruct H as [H | H].
  - left. apply in_flat_map in H. destruct H as (e & Hin & Hp).
    specialize (Hall e Hin). destruct e; simpl in Hp; try contradiction.
    destruct (leaves_target r); simpl in Hp; [|contradiction].
    destruct Hp as [<- | []]. exact Hall.
  - right. apply on_disk_In. exact H.
Qed.

(** With quiet callbacks and target folders that are all different and not
    on disk, every attempt appends its record. *)
Lemma replay_fresh : passive cb -> forall ts disk w,
  mu w = false ->
  NoDup (map (target_of Format w) ts) ->
  (forall t, In t ts -> on_disk disk (target_of Format w t) = false) ->
  Metadata (fst (replay Format cb copy write ts disk w))
  = (Metadata w
     ++ map (fun t => record_of Format (FolderFormat w) (instant t)) ts)%list.
Proof.
  intros Hp. induction ts as [|t ts IH]; intros disk w Hmu Hnd Hfree.
  - simpl. now rewrite app_nil_r.
  - cbn [replay].
    set (env := attempt_env copy write disk t).
    rewrite (createBackup_outcome Format cb env w Hmu). cbv zeta.
    cbn [path_exists now attempt_env env].
    fold (target_of Format w t).
    rewrite (Hfree t (or_introl eq_refl)).
    set (b := record_of Format (FolderFormat w) (instant t)).
    set (w1 := set_Metadata (Metadata w ++ [b])%list w).
    assert (Hmu1 : mu w1 = false) by (destruct w; exact Hmu).
    rewrite (notifyObservers_passive cb w1 Hp Hmu1). cbn [prepend].
    set (trace := ((EStat (target_of Format w t)
                    :: copy_trace (attempt_env copy write disk t) (Source w)
                         (target_of Format w t) 100 0
                    ++ [EWriteFile (metadataJSONPath w) (Metadata w ++ [b])
                          (write t)])
                   ++ map EOnBackupCompletion (customObservers w1))%list).
    assert (Htr : forall e, In e trace ->
              match e with
              | ECopy _ destination _ => destination = target_of Format w t
              | _ => True
              end).
    { intros e He. unfold trace in He.
      apply in_app_or in He. destruct He as [He | He].
      - destruct He as [<- | He]; [exact I|].
        apply in_app_or in He. destruct He as [He | [<- | []]]; [|exact I].
        eapply copy_trace_destinations; exact He.
      - apply in_map_iff in He. destruct He as (o & <- & _). exact I. }
    assert (Htg : forall x, target_of Format w1 x = target_of Format w x)
      by (intros x; destruct w; reflexivity).
    assert (Hff : FolderFormat w1 = FolderFormat w) by (destruct w; reflexivity).
    assert (Hmd : Metadata w1 = (Metadata w ++ [b])%list) by (destruct w; reflexivity).
    inversion Hnd as [|? ? Hnotin Hnd']; subst.
    rewrite IH.
    + rewrite Hff, Hmd, <- app_assoc. reflexivity.
    + exact Hmu1.
    + rewrite (map_ext _ _ Htg). exact Hnd'.
    + intros t' Hin. rewrite Htg.
      destruct (on_disk (disk_after disk trace) (target_of Format w t')) eqn:E;
        [|exact E].
      apply (disk_after_only_target disk trace (target_of Format w t)) in E;
        [|exact Htr].
      destruct E as [E | E].
      * exfalso. apply Hnotin. rewrite <- E. apply in_map. exact Hin.
      * rewrite (Hfree t' (or_intror Hin)) in E. discriminate.
Qed.

End ReplayFresh.

(* ================================================================== *)
(** * C4: the initial snapshot on Start, and the loop after it         *)
(* ================================================================== *)

(** C4.  When [StartWatcher] succeeds: the history is left as it was; with
    an empty history exactly one backup request is put on the channel; with
    a history, the source was compared with the folder of the most recent
    record without error, and a request is put on the channel if and only
    if the two trees do not match.  With no file event after the start, the
    loop then makes as many snapshot attempts as requests were put: none
    over an accurate latest backup, one otherwise. *)
Theorem C4_start_requests_snapshot_iff_outdated fs w w' trace :
  StartWatcher fs w = Returns None w' trace ->
  Metadata w' = Metadata w
  /\ Enabled w = true
  /\ (Metadata w = [] ->
      requests trace = 1%nat
      /\ backupRequestChan w' = S (backupRequestChan w))
  /\ (Metadata w <> [] ->
      let latestBackupPath :=
        GoPath.Join (Destination w) (Path (List.last (Metadata w) no_backup)) in
      exists foldersMatch,
        doFoldersMatch fs (Source w) latestBackupPath = (foldersMatch, None)
        /\ requests trace = (if foldersMatch then 0 else 1)%nat
        /\ backupRequestChan w'
           = ((if foldersMatch then 0 else 1) + backupRequestChan w)%nat)
  /\ (backupRequestChan w = 0%nat ->
      forall wait duration now,
        attempts (quiesce wait duration 4
                    (settle_all wait duration now (loop_of w')))
        = repeat (now + Z.max 0 wait)%Z (requests trace)).
Proof.
  intros H.
  destruct (StartWatcher_success fs w w' trace H) as (Hm & He & Hempty & Hhist).
  split; [exact Hm|]. split; [exact He|]. split; [exact Hempty|].
  split; [exact Hhist|].
  intros Hch wait duration now.
  assert (Hreq : (requests trace = 0 /\ backupRequestChan w' = 0)%nat
                 \/ (requests trace = 1 /\ backupRequestChan w' = 1)%nat).
  { destruct (Metadata w) as [|b0 md] eqn:Emd.
    - destruct (Hempty eq_refl) as [Hr Hc]. right. split; [exact Hr | lia].
    - destruct Hhist as (fm & _ & Hr & Hc); [discriminate|].
      destruct fm; [left | right]; split; auto; lia. }
  unfold loop_of.
  destruct Hreq as [[-> ->] | [-> ->]].
  - reflexivity.
  - rewrite settle_all_takes_all by (simpl; lia).
    unfold took. cbn [busy stopped received attempts queued chan].
    rewrite quiesce_pending by lia. reflexivity.
Qed.

Lemma C4_start_requests_snapshot_iff_outdated_witness :
  exists w' trace,
    StartWatcher fs_in_sync stopped_watcher = Returns None w' trace
    /\ Metadata w' = Metadata stopped_watcher
    /\ requests trace = 0%nat.
Proof.
  eexists. eexists.
  assert (H : StartWatcher fs_in_sync stopped_watcher
              = Returns None (set_fsnotifyWatcher true stopped_watcher)
                  [ESpawn GoStartFSNotifyWatcher; ESpawn GoBackupLoop])
    by (vm_compute; reflexivity).
  split; [exact H|].
  destruct (C4_start_requests_snapshot_iff_outdated _ _ _ _ H) as (Hm & _ & _ & Hc).
  split; [exact Hm|]. reflexivity.
Defined.

(* ================================================================== *)
(** * C1 and C2: what the debounce loop makes of file events           *)
(* ================================================================== *)

Lemma Forall_firstn {A} (P : A -> Prop) k : forall l,
  Forall P l -> Forall P (firstn k l).
Proof.
  induction k as [|k IH]; intros l H; [constructor|].
  destruct l as [|x l]; [constructor|].
  inversion H; subst. simpl. constructor; auto.
Qed.

Section DebounceClaims.

Variable wait : Z.
Variable duration : Z -> Z.

(** C1, in the form the code satisfies.  From the idle loop, with a
    positive wait time:
    - a burst of file events, each less than the wait time after the one
      before, leads to exactly one snapshot attempt, made one wait time
      after the last event, every event having armed the timer afresh;
    - file events each later than the one before by more than the wait time
      plus the running time of the snapshot that the one before started
      lead to one snapshot attempt each, one wait time after the event;
    - the attempts append at most one record each, and exactly one each
      when the callbacks are quiet and the target folders are all
      different and not on disk. *)
Theorem C1_debounce_burst_and_spaced t ts :
  (0 < wait)%Z ->
  let events := t :: ts in
  let final := quiesce wait duration 4 (run wait duration events idle) in
  (neighbours (fun a b => a <= b < a + wait)%Z events ->
     attempts final = [(List.last events 0 + wait)%Z]
     /\ received final = List.length events
     /\ quiescent final)
  /\ (neighbours (fun a b => a + wait + Z.max 0 (duration (a + wait)) < b)%Z events ->
     attempts final = map (fun a => a + wait)%Z events
     /\ List.length (attempts final) = List.length events
     /\ received final = List.length events
     /\ quiescent final)
  /\ (forall Format cb copy write disk w,
        mu w = false ->
        exists appended,
          Metadata (fst (replay Format cb copy write (attempts final) disk w))
          = (Metadata w ++ appended)%list
          /\ (List.length appended <= List.length (attempts final))%nat)
  /\ (forall Format cb copy write disk w,
        passive cb -> mu w = false ->
        NoDup (map (target_of Format w) (attempts final)) ->
        (forall a, In a (attempts final) -> on_disk disk (target_of Format w a) = false) ->
        Metadata (fst (replay Format cb copy write (attempts final) disk w))
        = (Metadata w
           ++ map (fun a => record_of Format (FolderFormat w) (instant a))
                (attempts final))%list).
Proof.
  intros Hw events final.
  assert (HW : Z.max 0 wait = wait) by lia.
  assert (Hstart : run wait duration events idle
                   = run wait duration ts
                       (mkLoop (Some (t + Z.max 0 wait)%Z) None false 0 0 1 []))
    by reflexivity.
  split; [|split; [|split]].
  - intros Hn. unfold final. rewrite Hstart.
    rewrite run_burst by (rewrite HW; exact Hn).
    rewrite quiesce_pending by lia. rewrite HW.
    cbn [attempts received app]. unfold quiescent, events. cbn.
    repeat split; auto. lia.
  - intros Hn. unfold final. rewrite Hstart.
    rewrite run_spaced by (rewrite HW; exact Hn).
    rewrite quiesce_pending by lia. rewrite HW.
    cbn [attempts received app].
    assert (Hmap : (map (fun a => (a + wait)%Z) (removelast (t :: ts))
                    ++ [(List.last (t :: ts) 0 + wait)%Z])%list
                   = map (fun a => (a + wait)%Z) events).
    { unfold events.
      rewrite (app_removelast_last 0%Z (l := t :: ts)) at 3 by discriminate.
      rewrite map_app. reflexivity. }
    rewrite Hmap. rewrite length_map.
    unfold quiescent, events. cbn. repeat split; auto. lia.
  - intros Format cb copy write disk w Hmu.
    destruct (replay_appends Format cb copy write (attempts final) disk w Hmu)
      as (appended & Hm & Hl & _).
    exists appended. auto.
  - intros Format cb copy write disk w Hp Hmu Hnd Hfree.
    apply replay_fresh; assumption.
Qed.

(** C2, in the form the code satisfies.  With a snapshot attempt running
    until [finish], and file events that all arrive before it is over:
    - while it runs, the channel never holds more than one request (the
      notifier keeps the others), the running attempt is neither restarted
      nor cancelled, and no timer is armed;
    - once it is over, every request is taken by the loop (none is lost),
      and exactly one more snapshot attempt follows, one wait time after
      the end of the running one;
    - that attempt appends one record, unless its target folder is already
      there, in which case it appends nothing. *)
Theorem C2_events_during_snapshot l0 finish t ts :
  (0 < wait)%Z ->
  busy l0 = Some finish -> timer l0 = None ->
  chan l0 = 0%nat -> queued l0 = 0%nat ->
  let events := t :: ts in
  Forall (fun e => e < finish)%Z events ->
  let after := run wait duration events l0 in
  let final := quiesce wait duration 4 after in
  (forall k,
      let during := run wait duration (firstn k events) l0 in
      (chan during <= backupRequestChan_capacity)%nat
      /\ (chan during + queued during = Nat.min k (List.length events))%nat
      /\ busy during = Some finish
      /\ timer during = None
      /\ attempts during = attempts l0)
  /\ chan after = 1%nat
  /\ queued after = List.length ts
  /\ received final = (List.length events + received l0)%nat
  /\ attempts final = (attempts l0 ++ [(finish + wait)%Z])%list
  /\ quiescent final
  /\ (forall Format cb copy write disk w,
        mu w = false ->
        Metadata (fst (replay Format cb copy write [(finish + wait)%Z] disk w))
        = if on_disk disk (target_of Format w (finish + wait))
          then Metadata w
          else (Metadata w
                ++ [record_of Format (FolderFormat w) (instant (finish + wait))])%list).
Proof.
  intros Hw Hb Ht Hc Hq events Hall after final.
  assert (HW : Z.max 0 wait = wait) by lia.
  destruct l0 as [tm bs st c q rc ats]. cbn [busy timer chan queued received attempts] in *.
  subst tm bs c q.
  split; [|split; [|split; [|split; [|split; [|split]]]]].
  - intros k.
    rewrite (run_busy wait duration finish) by (try apply Forall_firstn; auto).
    pose proof (length_firstn k events) as Hlen.
    destruct (firstn k events) as [|e es] eqn:Ef.
    + cbn [chan queued busy timer attempts]. cbn [List.length] in Hlen.
      unfold backupRequestChan_capacity. repeat split; auto; lia.
    + cbn [chan queued busy timer attempts List.length]. cbn [List.length] in Hlen.
      unfold backupRequestChan_capacity. repeat split; auto; lia.
  - unfold after. rewrite (run_busy wait duration finish) by auto. reflexivity.
  - unfold after. rewrite (run_busy wait duration finish) by auto.
    unfold events. cbn [queued List.length]. lia.
  - unfold final, after. rewrite (run_busy wait duration finish) by auto.
    unfold events. rewrite quiesce_busy by (cbn [List.length]; lia).
    cbn [received List.length]. lia.
  - unfold final, after. rewrite (run_busy wait duration finish) by auto.
    unfold events. rewrite quiesce_busy by (cbn [List.length]; lia).
    cbn [attempts]. rewrite HW. reflexivity.
  - unfold final, after. rewrite (run_busy wait duration finish) by auto.
    unfold events. rewrite quiesce_busy by (cbn [List.length]; lia).
    unfold quiescent. cbn. auto.
  - intros Format cb copy write disk w Hmu. apply replay_one. exact Hmu.
Qed.

End DebounceClaims.

Lemma C1_debounce_burst_and_spaced_witness :
  (0 < second_ns)%Z
  /\ neighbours (fun a b => a <= b < a + second_ns)%Z five_files_500ms_apart
  /\ attempts (quiesce second_ns (fun _ => 0%Z) 4
                 (run second_ns (fun _ => 0%Z) five_files_500ms_apart idle))
     = [3000000000%Z].
Proof.
  assert (Hn : neighbours (fun a b => a <= b < a + second_ns)%Z five_files_500ms_apart).
  { unfold five_files_500ms_apart, second_ns. simpl. repeat split; lia. }
  split; [reflexivity|]. split; [exact Hn|].
  apply (proj1 (C1_debounce_burst_and_spaced second_ns (fun _ => 0%Z)
                  0%Z (tl five_files_500ms_apart) eq_refl) Hn).
Defined.

(** The claim as worded: changes more than one wait time apart give one
    backup each.  Here the wait time is 10 s, the three changes are 20 s
    apart, and a snapshot takes 100 s: the second and the third change
    arrive while the first snapshot runs and share the attempt that follows
    it.  Two attempts, two backups. *)
Lemma C1_counterexample :
  let w := slow_watcher in
  let wait := wait_of w in
  let duration := fun _ : Z => (100 * second_ns)%Z in
  let events := [0; 20 * second_ns; 40 * second_ns]%Z in
  let final := quiesce wait duration 4 (run wait duration events idle) in
  wait = (10 * second_ns)%Z
  /\ neighbours (fun a b => a + wait < b)%Z events
  /\ List.length events = 3%nat
  /\ attempts final = [10 * second_ns; 120 * second_ns]%Z
  /\ List.length
       (Metadata (fst (replay GoTime.utcFormat no_callbacks copy_always_works
                         write_always_works (attempts final) [] w)))
     = 2%nat.
Proof.
  cbv zeta. split; [reflexivity|]. split.
  - unfold second_ns. simpl. vm_compute. repeat split; reflexivity.
  - split; [reflexivity|]. split; vm_compute; reflexivity.
Qed.

Lemma C2_events_during_snapshot_witness :
  (0 < second_ns)%Z
  /\ Forall (fun e => e < 60500000000)%Z [30000000000; 31000000000; 32000000000]%Z
  /\ attempts (quiesce second_ns (fun _ => 0%Z) 4
                 (run second_ns (fun _ => 0%Z)
                    [30000000000; 31000000000; 32000000000]%Z loop_in_snapshot))
     = [1000000000; 61500000000]%Z.
Proof.
  assert (Hall : Forall (fun e => e < 60500000000)%Z
                   [30000000000; 31000000000; 32000000000]%Z).
  { repeat constructor. }
  split; [reflexivity|]. split; [exact Hall|].
  apply (C2_events_during_snapshot second_ns (fun _ => 0%Z) loop_in_snapshot
           60500000000%Z 30000000000%Z [31000000000; 32000000000]%Z
           eq_refl eq_refl eq_refl eq_refl eq_refl Hall).
Defined.

(** The claim as worded: after the running attempt and the debounce window
    exactly one more backup follows.  Here the folders are named by the
    second of the minute, which [NewWatcher] accepts at a wait time of one
    second.  The running attempt was made at 1 s into folder [01] and lasts
    59.5 s; a change arrives at 30 s; the attempt that follows is made at
    61.5 s, finds folder [01] in place and appends nothing. *)
Lemma C2_counterexample :
  let w := seconds_watcher in
  let wait := wait_of w in
  let duration := fun _ : Z => 59500000000%Z in
  let events := [0; 30 * second_ns]%Z in
  let final := quiesce wait duration 4 (run wait duration events idle) in
  snd (NewWatcher GoTime.utcFormat env_all_directories (Name w) (Source w)
         (Destination w) (WaitTime w) (FolderFormat w) true) = []
  /\ attempts final = [1000000000; 61500000000]%Z
  /\ Metadata (fst (replay GoTime.utcFormat no_callbacks copy_always_works
                      write_always_works [1000000000%Z] [] w))
     = [mkBackup "" (GoTime.seconds_since_epoch (GoTime.mkTime 1 0)) "01" false]
  /\ Metadata (fst (replay GoTime.utcFormat no_callbacks copy_always_works
                      write_always_works (attempts final) [] w))
     = [mkBackup "" (GoTime.seconds_since_epoch (GoTime.mkTime 1 0)) "01" false].
Proof.
  cbv zeta. repeat split; vm_compute; reflexivity.
Qed.

(** The scenario of the test [TestAddFileDuringBackups]: a change during the
    first snapshot is followed by a second snapshot and a second backup. *)
Example change_during_snapshot_gives_second_backup :
  let wait := wait_of sample_watcher in
  let duration := fun _ : Z => (3 * second_ns)%Z in
  let final := quiesce wait duration 4
                 (run wait duration [0; 1100000000]%Z idle) in
  attempts final = [1000000000; 5000000000]%Z
  /\ List.length
       (Metadata (fst (replay GoTime.utcFormat no_callbacks copy_always_works
                         write_always_works (attempts final) []
                         (set_Metadata [] sample_watcher))))
     = 2%nat.
Proof. cbv zeta. split; vm_compute; reflexivity. Qed.
(* ================================================================== *)
(** * Further properties of the code                                   *)
(* ================================================================== *)

(** What follows covers the parts of the code that C1 to C10 leave aside:
    the observer registry, what the validators report and under which
    sentinel, start and stop, the comparison as a relation and against the
    comparison of the tests, the books and the timing of the debounce loop,
    the history that the attempts leave, the earlier constructor and the
    command line. *)

(* ================================================================== *)
(** * The observer registry                                            *)
(* ================================================================== *)

Lemma existsb_eqb_In o l : existsb (Nat.eqb o) l = true <-> In o l.
Proof.
  rewrite existsb_exists. split.
  - intros (x & Hin & He). apply Nat.eqb_eq in He. now subst.
  - intros H. exists o. split; [exact H | apply Nat.eqb_refl].
Qed.

Lemma AddObserver_free o w :
  mu w = false ->
  AddObserver o w
  = Returns tt (if existsb (Nat.eqb o) (customObservers w) then w
                else set_customObservers (customObservers w ++ [o]) w) [].
Proof.
  intros Hmu. unfold AddObserver, bind, Lock, get, Unlock, modify, ret.
  rewrite Hmu. cbn.
  destruct (existsb (Nat.eqb o) (customObservers w)); cbn;
    destruct w; cbn in *; subst; reflexivity.
Qed.

Lemma RemoveObserver_free o w :
  mu w = false ->
  RemoveObserver o w
  = Returns tt (set_customObservers (remove_first o (customObservers w)) w) [].
Proof.
  intros Hmu. unfold RemoveObserver, bind, Lock, get, Unlock, modify, ret.
  rewrite Hmu. cbn. destruct w; cbn in *; subst; reflexivity.
Qed.

Lemma remove_first_absent o l : ~ In o l -> remove_first o l = l.
Proof.
  induction l as [|x l IH]; intros Hn; [reflexivity|]. simpl.
  destruct (Nat.eqb_spec x o) as [->|Hne].
  - exfalso. apply Hn. now left.
  - f_equal. apply IH. intros H. apply Hn. now right.
Qed.

Lemma remove_first_In p o l : In p (remove_first o l) -> In p l.
Proof.
  induction l as [|x l IH]; simpl; [tauto|].
  destruct (Nat.eqb x o); simpl; intuition.
Qed.

Lemma remove_first_others o l :
  filter (fun p => negb (Nat.eqb p o)) (remove_first o l)
  = filter (fun p => negb (Nat.eqb p o)) l.
Proof.
  induction l as [|x l IH]; [reflexivity|]. simpl.
  destruct (Nat.eqb x o) eqn:E; simpl; [reflexivity|].
  rewrite E. simpl. now rewrite IH.
Qed.

Lemma remove_first_count o l :
  count_occ Nat.eq_dec (remove_first o l) o = pred (count_occ Nat.eq_dec l o).
Proof.
  induction l as [|x l IH]; [reflexivity|]. simpl.
  destruct (Nat.eqb_spec x o) as [->|Hne].
  - destruct (Nat.eq_dec o o); [reflexivity | congruence].
  - simpl. destruct (Nat.eq_dec x o); [congruence | exact IH].
Qed.

Lemma remove_first_NoDup o l : NoDup l -> NoDup (remove_first o l) /\ ~ In o (remove_first o l).
Proof.
  induction 1 as [|x l Hx Hnd IH]; simpl.
  - split; [constructor | tauto].
  - destruct (Nat.eqb_spec x o) as [->|Hne].
    + split; assumption.
    + destruct IH as [IH1 IH2]. split.
      * constructor; [|exact IH1]. intros H. apply Hx. eapply remove_first_In; exact H.
      * simpl. intros [H | H]; [congruence | tauto].
Qed.

Lemma remove_first_last o l : ~ In o l -> remove_first o (l ++ [o]) = l.
Proof.
  induction l as [|x l IH]; intros Hn; simpl.
  - now rewrite Nat.eqb_refl.
  - destruct (Nat.eqb_spec x o) as [->|Hne].
    + exfalso. apply Hn. now left.
    + f_equal. apply IH. intros H. apply Hn. now right.
Qed.

(** X1.  [AddObserver], called with the mutex free, returns with the mutex
    free and without any effect outside the watcher; the observer is then
    registered; the observers registered before keep their places, the new
    one coming last, and nothing is appended when it was registered already;
    a registry without duplicates stays so; and a second call changes
    nothing. *)
Theorem X1_AddObserver_registers_once o w :
  mu w = false ->
  exists w',
    AddObserver o w = Returns tt w' []
    /\ mu w' = false
    /\ In o (customObservers w')
    /\ (In o (customObservers w) -> w' = w)
    /\ (~ In o (customObservers w) ->
        customObservers w' = (customObservers w ++ [o])%list)
    /\ (NoDup (customObservers w) -> NoDup (customObservers w'))
    /\ set_customObservers (customObservers w) w' = w
    /\ AddObserver o w' = Returns tt w' [].
Proof.
  intros Hmu. rewrite (AddObserver_free o w Hmu).
  destruct (existsb (Nat.eqb o) (customObservers w)) eqn:E.
  - apply existsb_eqb_In in E. exists w.
    split; [reflexivity|]. split; [exact Hmu|]. split; [exact E|].
    split; [reflexivity|]. split; [tauto|]. split; [tauto|].
    split; [destruct w; reflexivity|].
    rewrite (AddObserver_free o w Hmu).
    apply existsb_eqb_In in E. now rewrite E.
  - assert (Hn : ~ In o (customObservers w)).
    { intros H. apply existsb_eqb_In in H. congruence. }
    set (w' := set_customObservers (customObservers w ++ [o])%list w).
    assert (Hobs : customObservers w' = (customObservers w ++ [o])%list)
      by (destruct w; reflexivity).
    assert (Hmu' : mu w' = false) by (destruct w; exact Hmu).
    exists w'. split; [reflexivity|]. split; [exact Hmu'|].
    split; [rewrite Hobs; apply in_or_app; right; now left|].
    split; [tauto|]. split; [intros _; exact Hobs|].
    split.
    { intros Hnd. rewrite Hobs. apply NoDup_app; [exact Hnd | repeat constructor; tauto |].
      intros x Hx [<- | []]. exact (Hn Hx). }
    split; [destruct w; reflexivity|].
    rewrite (AddObserver_free o w' Hmu').
    assert (E' : existsb (Nat.eqb o) (customObservers w') = true).
    { apply existsb_eqb_In. rewrite Hobs. apply in_or_app. right. now left. }
    now rewrite E'.
Qed.

Lemma X1_AddObserver_registers_once_witness :
  mu sample_watcher = false
  /\ exists w',
       AddObserver 3%nat sample_watcher = Returns tt w' []
       /\ customObservers w' = [1; 2; 3]%nat.
Proof.
  split; [reflexivity|].
  destruct (X1_AddObserver_registers_once 3%nat sample_watcher eq_refl)
    as (w' & H & _ & _ & _ & Happ & _).
  exists w'. split; [exact H|].
  apply Happ. simpl. intros [H1 | [H1 | []]]; discriminate.
Defined.

(** X2.  [RemoveObserver], called with the mutex free, returns with the
    mutex free and without any effect outside the watcher, and touches the
    registry only: an observer that is not registered leaves the watcher as
    it was; otherwise one registration of the observer goes (the first), the
    other observers keep their order, and in a registry without duplicates
    the observer is registered no more. *)
Theorem X2_RemoveObserver_removes_first o w :
  mu w = false ->
  exists w',
    RemoveObserver o w = Returns tt w' []
    /\ mu w' = false
    /\ set_customObservers (customObservers w) w' = w
    /\ (~ In o (customObservers w) -> w' = w)
    /\ count_occ Nat.eq_dec (customObservers w') o
       = pred (count_occ Nat.eq_dec (customObservers w) o)
    /\ filter (fun p => negb (Nat.eqb p o)) (customObservers w')
       = filter (fun p => negb (Nat.eqb p o)) (customObservers w)
    /\ (NoDup (customObservers w) ->
        NoDup (customObservers w') /\ ~ In o (customObservers w')).
Proof.
  intros Hmu. rewrite (RemoveObserver_free o w Hmu).
  set (w' := set_customObservers (remove_first o (customObservers w)) w).
  assert (Hobs : customObservers w' = remove_first o (customObservers w))
    by (destruct w; reflexivity).
  exists w'. split; [reflexivity|]. split; [destruct w; exact Hmu|].
  split; [destruct w; reflexivity|].
  split.
  { intros Hn. unfold w'. rewrite (remove_first_absent _ _ Hn). destruct w; reflexivity. }
  rewrite Hobs.
  split; [apply remove_first_count|].
  split; [apply remove_first_others|].
  apply remove_first_NoDup.
Qed.

Lemma X2_RemoveObserver_removes_first_witness :
  mu sample_watcher = false
  /\ exists w',
       RemoveObserver 1%nat sample_watcher = Returns tt w' []
       /\ ~ In 1%nat (customObservers w').
Proof.
  split; [reflexivity|].
  destruct (X2_RemoveObserver_removes_first 1%nat sample_watcher eq_refl)
    as (w' & H & _ & _ & _ & _ & _ & Hnd).
  exists w'. split; [exact H|].
  apply Hnd. simpl. repeat constructor; simpl; intuition discriminate.
Defined.

(** X3.  Registering an observer that was not registered and unregistering
    it again gives the watcher back as it was; unregistering an observer and
    registering it again, in a registry without duplicates, moves it to the
    end of the registry (it was not there: it is appended). *)
Theorem X3_register_unregister_round_trip o w :
  mu w = false ->
  (~ In o (customObservers w) ->
   (AddObserver o ;; RemoveObserver o) w = Returns tt w [])
  /\ (NoDup (customObservers w) ->
      (RemoveObserver o ;; AddObserver o) w
      = Returns tt
          (set_customObservers (remove_first o (customObservers w) ++ [o])%list w) []).
Proof.
  intros Hmu. split.
  - intros Hn.
    assert (E : existsb (Nat.eqb o) (customObservers w) = false).
    { destruct (existsb (Nat.eqb o) (customObservers w)) eqn:E; [|reflexivity].
      apply existsb_eqb_In in E. contradiction. }
    rewrite (bind_Returns _ _ _ _ _ _ (AddObserver_free o w Hmu)). rewrite E.
    rewrite prepend_nil, RemoveObserver_free by (destruct w; exact Hmu).
    f_equal. destruct w; cbn in *. now rewrite remove_first_last.
  - intros Hnd.
    rewrite (bind_Returns _ _ _ _ _ _ (RemoveObserver_free o w Hmu)).
    rewrite prepend_nil, AddObserver_free by (destruct w; exact Hmu).
    destruct (remove_first_NoDup o _ Hnd) as [_ Hgone].
    assert (E : existsb (Nat.eqb o)
                  (customObservers
                     (set_customObservers (remove_first o (customObservers w)) w))
                = false).
    { destruct (existsb _ _) eqn:E; [|reflexivity].
      apply existsb_eqb_In in E. destruct w; cbn in *. contradiction. }
    rewrite E. destruct w; reflexivity.
Qed.

Lemma X3_register_unregister_round_trip_witness :
  mu sample_watcher = false
  /\ (AddObserver 7%nat ;; RemoveObserver 7%nat) sample_watcher
     = Returns tt sample_watcher []
  /\ (RemoveObserver 1%nat ;; AddObserver 1%nat) sample_watcher
     = Returns tt (set_customObservers [2; 1]%nat sample_watcher) [].
Proof.
  split; [reflexivity|].
  destruct (X3_register_unregister_round_trip 7%nat sample_watcher eq_refl) as [H1 _].
  destruct (X3_register_unregister_round_trip 1%nat sample_watcher eq_refl) as [_ H2].
  split.
  - apply H1. simpl. intuition discriminate.
  - apply H2. simpl. repeat constructor; simpl; intuition discriminate.
Defined.

Section RegistryAndSnapshot.

Variable Format : string -> GoTime.Time -> string.

(** The observers a snapshot attempt calls back, when the callbacks leave
    the registry alone. *)
Lemma createBackup_notified cb env w :
  passive cb -> mu w = false ->
  notified (trace_of (createBackup Format cb env w))
  = if path_exists env (GoPath.Join (Destination w) (Format (FolderFormat w) (now env)))
    then [] else customObservers w.
Proof.
  intros Hp Hmu. rewrite (createBackup_outcome Format cb env w Hmu). cbv zeta.
  destruct (path_exists env _); [reflexivity|].
  set (w1 := set_Metadata _ w).
  assert (Hmu1 : mu w1 = false) by (destruct w; exact Hmu).
  rewrite (notifyObservers_passive cb w1 Hp Hmu1).
  cbn [prepend trace_of]. rewrite notified_app.
  destruct (callbacks_only (customObservers w1)) as (_ & _ & _ & ->).
  change (EStat ?p :: ?l ++ ?r)%list with ([EStat p] ++ l ++ r)%list.
  rewrite !notified_app.
  destruct (copy_trace_only env (Source w)
              (GoPath.Join (Destination w) (Format (FolderFormat w) (now env))) 100 0)
    as [_ ->].
  cbn. destruct w; reflexivity.
Qed.

(** X4.  The registry decides who hears of a backup, and in which order.
    With callbacks that leave the registry alone and a target folder that
    is free: a snapshot made after [AddObserver o], [o] not yet registered,
    calls back the observers registered before, in their order, and then
    [o]; a snapshot made after [RemoveObserver o], in a registry without
    duplicates, calls back the others in their order and not [o]. *)
Theorem X4_registry_decides_notifications cb env o w :
  passive cb ->
  mu w = false ->
  path_exists env (GoPath.Join (Destination w) (Format (FolderFormat w) (now env)))
  = false ->
  (~ In o (customObservers w) ->
   notified (trace_of ((AddObserver o ;; createBackup Format cb env) w))
   = (customObservers w ++ [o])%list)
  /\ (NoDup (customObservers w) ->
      notified (trace_of ((RemoveObserver o ;; createBackup Format cb env) w))
      = remove_first o (customObservers w)
      /\ ~ In o (notified (trace_of ((RemoveObserver o ;; createBackup Format cb env) w)))).
Proof.
  intros Hp Hmu Hfree. split.
  - intros Hn.
    assert (E : existsb (Nat.eqb o) (customObservers w) = false).
    { destruct (existsb (Nat.eqb o) (customObservers w)) eqn:E; [|reflexivity].
      apply existsb_eqb_In in E. contradiction. }
    rewrite (bind_Returns _ _ _ _ _ _ (AddObserver_free o w Hmu)). rewrite E.
    rewrite prepend_nil, createBackup_notified by (try exact Hp; destruct w; exact Hmu).
    replace (path_exists env _) with false by (rewrite <- Hfree; destruct w; reflexivity).
    destruct w; reflexivity.
  - intros Hnd.
    rewrite (bind_Returns _ _ _ _ _ _ (RemoveObserver_free o w Hmu)).
    rewrite prepend_nil, createBackup_notified by (try exact Hp; destruct w; exact Hmu).
    replace (path_exists env _) with false by (rewrite <- Hfree; destruct w; reflexivity).
    replace (customObservers (set_customObservers _ w))
      with (remove_first o (customObservers w)) by (destruct w; reflexivity).
    split; [reflexivity|]. apply remove_first_NoDup. exact Hnd.
Qed.

End RegistryAndSnapshot.

Lemma X4_registry_decides_notifications_witness :
  passive no_callbacks
  /\ mu sample_watcher = false
  /\ notified (trace_of ((AddObserver 3%nat ;;
                          createBackup GoTime.utcFormat no_callbacks sample_snapshot_env)
                           sample_watcher))
     = [1; 2; 3]%nat
  /\ notified (trace_of ((RemoveObserver 1%nat ;;
                          createBackup GoTime.utcFormat no_callbacks sample_snapshot_env)
                           sample_watcher))
     = [2]%nat.
Proof.
  assert (Hp : passive no_callbacks) by (intros o; reflexivity).
  split; [exact Hp|]. split; [reflexivity|].
  destruct (X4_registry_decides_notifications GoTime.utcFormat no_callbacks
              sample_snapshot_env 3%nat sample_watcher Hp eq_refl eq_refl) as [H1 _].
  destruct (X4_registry_decides_notifications GoTime.utcFormat no_callbacks
              sample_snapshot_env 1%nat sample_watcher Hp eq_refl eq_refl) as [_ H2].
  split.
  - apply H1. simpl. intuition discriminate.
  - apply H2. simpl. repeat constructor; simpl; intuition discriminate.
Defined.

(* ================================================================== *)
(** * Validation: what is reported, and under which sentinel           *)
(* ================================================================== *)

Lemma app_one_neq {A} (l : list A) x : (l ++ [x])%list <> l.
Proof.
  intros H. apply (f_equal (@List.length A)) in H.
  rewrite length_app in H. simpl in H. lia.
Qed.

Lemma errors_Is_app a b s :
  errors_Is (a ++ b)%list s = errors_Is a s || errors_Is b s.
Proof. unfold errors_Is. apply existsb_app. Qed.

Lemma Sentinel_eqb_eq a b : Sentinel_eqb a b = true <-> a = b.
Proof. destruct a, b; simpl; split; intros H; try reflexivity; discriminate. Qed.

Lemma validateDir_cases os path s :
  validateDir os path s []
  = match probe_stat os with
    | StatNotExist =>
        match probe_mkdir os with
        | Some cause => [MkdirFailure cause]
        | None => []
        end
    | StatPathError cause => [InvalidName s cause]
    | StatNotDir => [NotADirectory s path]
    | StatOtherError cause => [StatFailure s cause]
    | StatDir => []
    end.
Proof.
  unfold validateDir, errors_Join.
  destruct (probe_stat os); try destruct (probe_mkdir os); reflexivity.
Qed.

Lemma validateDir_nil os path s :
  validateDir os path s [] = [] <-> usable_directory os.
Proof.
  rewrite validateDir_cases. unfold usable_directory.
  destruct (probe_stat os); try destruct (probe_mkdir os);
    split; intros H; try discriminate; try reflexivity; auto;
    destruct H as [H | [H1 H2]]; discriminate.
Qed.

Lemma validateDir_Is os path s s' :
  errors_Is (validateDir os path s []) s' = true <-> s' = s /\ stat_rejects os.
Proof.
  rewrite validateDir_cases. unfold stat_rejects.
  destruct (probe_stat os); try destruct (probe_mkdir os); cbn;
    rewrite ?orb_false_r, ?Sentinel_eqb_eq; intuition discriminate.
Qed.

(** X5.  [validateDir] adds at most one error to the ones gathered so far,
    and none exactly when the path is a directory afterwards (it was one, or
    it did not exist and [os.MkdirAll] made it).  The error it adds answers
    to the caller's sentinel and to no other, with one exception: the error
    of a failed [os.MkdirAll] is joined as it is and answers to no sentinel
    at all. *)
Theorem X5_validateDir_reports os path s errs :
  (exists added,
      validateDir os path s errs = (errs ++ added)%list
      /\ (List.length added <= 1)%nat)
  /\ (validateDir os path s errs = errs <-> usable_directory os)
  /\ (forall s', errors_Is (validateDir os path s []) s' = true <->
                 s' = s /\ stat_rejects os)
  /\ (forall cause,
         probe_stat os = StatNotExist -> probe_mkdir os = Some cause ->
         validateDir os path s errs = (errs ++ [MkdirFailure cause])%list
         /\ forall s', errors_Is [MkdirFailure cause] s' = false).
Proof.
  split; [|split; [|split]].
  - exists (validateDir os path s []). split; [apply validateDir_appends|].
    rewrite validateDir_cases.
    destruct (probe_stat os); try destruct (probe_mkdir os); simpl; lia.
  - rewrite validateDir_appends, <- validateDir_nil with (path := path) (s := s).
    destruct (validateDir os path s []) as [|e l].
    + rewrite app_nil_r. tauto.
    + split; [|discriminate]. intros H. exfalso.
      apply (f_equal (@List.length GoError)) in H. rewrite length_app in H.
      simpl in H. lia.
  - intros s'. apply validateDir_Is.
  - intros cause Hs Hm. split; [|reflexivity].
    rewrite validateDir_appends, validateDir_cases, Hs, Hm. reflexivity.
Qed.

Lemma X5_validateDir_reports_witness :
  validateDir (mkProbe StatNotExist (Some "mkdir /srv/backups: permission denied"))
    "/srv/backups" ErrorInvalidDestination [NameEmpty]
  = [NameEmpty; MkdirFailure "mkdir /srv/backups: permission denied"]
  /\ errors_Is [MkdirFailure "mkdir /srv/backups: permission denied"]
       ErrorInvalidDestination = false.
Proof.
  destruct (proj2 (proj2 (proj2
              (X5_validateDir_reports
                 (mkProbe StatNotExist (Some "mkdir /srv/backups: permission denied"))
                 "/srv/backups" ErrorInvalidDestination [NameEmpty])))
              "mkdir /srv/backups: permission denied" eq_refl eq_refl) as [H1 H2].
  split; [exact H1 | exact (H2 ErrorInvalidDestination)].
Defined.

Section SentinelFacts.

Variable Format : string -> GoTime.Time -> string.

Lemma validateFolderFormat_cases os w f :
  validateFolderFormat Format os w f []
  = ((if formats_collide Format w f then [LacksPrecision] else [])
     ++ validateDir os f ErrorInvalidFolderFormat [])%list.
Proof.
  unfold validateFolderFormat. cbv zeta. rewrite validateDir_appends.
  destruct (formats_collide Format w f); reflexivity.
Qed.

Lemma validateSourceAndDestination_cases env s d :
  validateSourceAndDestination env s d []
  = (validateDirOld (probe_source env) s ErrorInvalidSource
     ++ validateDirOld (probe_destination env) d ErrorInvalidDestination
     ++ (if snd (GoPath.Abs (getwd env) s) then []
         else [AbsFailure ErrorInvalidSource])
     ++ (if snd (GoPath.Abs (getwd env) d) then []
         else [AbsFailure ErrorInvalidDestination])
     ++ (if fst (GoPath.Abs (getwd env) s) =? fst (GoPath.Abs (getwd env) d)
         then [SamePathsSource; SamePathsDestination] else [])
     ++ (match GoPath.Rel (fst (GoPath.Abs (getwd env) s))
                 (fst (GoPath.Abs (getwd env) d)) with
         | Some _ => []
         | None => [RelFailure]
         end)
     ++ (if seen_inside (fst (GoPath.Abs (getwd env) s))
                        (fst (GoPath.Abs (getwd env) d))
         then [InsideSource] else []))%list.
Proof.
  unfold validateSourceAndDestination, seen_inside, errors_Join. cbv zeta.
  destruct (GoPath.Abs (getwd env) s) as [a oka].
  destruct (GoPath.Abs (getwd env) d) as [b okb]. cbn [fst snd].
  generalize (validateDirOld (probe_source env) s ErrorInvalidSource).
  generalize (validateDirOld (probe_destination env) d ErrorInvalidDestination).
  intros l2 l1.
  destruct oka, okb, (a =? b), (GoPath.Rel a b) as [r|];
    cbn [app];
    try (destruct (negb (GoPath.IsAbs r) && negb (GoPath.HasPrefix r "..")
                   && negb (r =? ".")));
    cbn; rewrite <- ?app_assoc, ?app_nil_r; reflexivity.
Qed.

End SentinelFacts.

Lemma validateName_Is name s :
  errors_Is (validateName name []) s = true <-> s = ErrorInvalidNameV2 /\ name = "".
Proof.
  unfold validateName. destruct (String.eqb_spec name ""); cbn;
    rewrite ?orb_false_r, ?Sentinel_eqb_eq; intuition discriminate.
Qed.

Lemma validateWaitTime_Is w s :
  errors_Is (validateWaitTime w []) s = true
  <-> s = ErrorInvalidWaitTime /\ (w <= 0)%Q.
Proof.
  unfold validateWaitTime. destruct (Qle_bool w 0) eqn:E; cbn;
    rewrite ?orb_false_r, ?Sentinel_eqb_eq.
  - apply Qle_bool_iff in E. tauto.
  - split; [discriminate|]. intros [_ H]. apply Qle_bool_iff in H. congruence.
Qed.

Lemma load_violations_Is file s : errors_Is (load_violations file) s = false.
Proof. destruct file; reflexivity. Qed.

Section Classification.

Variable Format : string -> GoTime.Time -> string.

(** X6.  Which sentinel the error of [NewWatcher] answers to
    ([errors.Is]): the name sentinel exactly when the name is empty; the
    wait-time sentinel exactly when the wait time is not positive; the
    folder-format sentinel exactly when the two formatted instants collide
    or [os.Stat] rejects the layout as a path; the source sentinel exactly
    when [os.Stat] rejects the source, its absolute path cannot be taken, or
    the two absolute paths are equal; the destination sentinel exactly when
    [os.Stat] rejects the destination, its absolute path cannot be taken,
    the two absolute paths are equal, no relative path can be made, or the
    relative path is seen as inside the source. *)
Theorem X6_NewWatcher_sentinels env name source destination w f enabled :
  let errs := snd (NewWatcher Format env name source destination w f enabled) in
  let absSource := GoPath.Abs (getwd env) source in
  let absDest := GoPath.Abs (getwd env) destination in
  (errors_Is errs ErrorInvalidNameV2 = true <-> name = "")
  /\ (errors_Is errs ErrorInvalidWaitTime = true <-> (w <= 0)%Q)
  /\ (errors_Is errs ErrorInvalidFolderFormat = true <->
      formats_collide Format w f = true \/ stat_rejects (probe_format env))
  /\ (errors_Is errs ErrorInvalidSource = true <->
      stat_rejects (probe_source env) \/ snd absSource = false
      \/ fst absSource = fst absDest)
  /\ (errors_Is errs ErrorInvalidDestination = true <->
      stat_rejects (probe_destination env) \/ snd absDest = false
      \/ fst absSource = fst absDest
      \/ GoPath.Rel (fst absSource) (fst absDest) = None
      \/ seen_inside (fst absSource) (fst absDest) = true).
Proof.
  cbv zeta.
  rewrite NewWatcher_errors, validateFolderFormat_cases,
    validateSourceAndDestination_cases.
  unfold validateDirOld.
  set (a := fst (GoPath.Abs (getwd env) source)).
  set (b := fst (GoPath.Abs (getwd env) destination)).
  set (oka := snd (GoPath.Abs (getwd env) source)).
  set (okb := snd (GoPath.Abs (getwd env) destination)).
  assert (Hab : (a =? b) = true <-> a = b) by apply String.eqb_eq.
  repeat split; intros H.
  all: repeat rewrite errors_Is_app in H || rewrite errors_Is_app.
  all: rewrite ?load_violations_Is, ?orb_false_r in *.
  all: repeat rewrite orb_true_iff in H || rewrite orb_true_iff.
  all: rewrite ?validateName_Is, ?validateWaitTime_Is, ?validateDir_Is in *.
  all: destruct (formats_collide Format w f), oka, okb, (a =? b),
         (GoPath.Rel a b), (seen_inside a b); cbn in *;
       intuition (try discriminate; try congruence).
Qed.

End Classification.

Lemma X6_NewWatcher_sentinels_witness :
  errors_Is (snd (NewWatcher GoTime.utcFormat env_all_files "" "/tmp/source"
                    "/tmp/source" 0 "2006-01-02" true)) ErrorInvalidNameV2 = true
  /\ errors_Is (snd (NewWatcher GoTime.utcFormat env_all_files "" "/tmp/source"
                       "/tmp/source" 0 "2006-01-02" true)) ErrorInvalidWaitTime = true.
Proof.
  destruct (X6_NewWatcher_sentinels GoTime.utcFormat env_all_files "" "/tmp/source"
              "/tmp/source" 0 "2006-01-02" true) as (Hname & Hwait & _).
  split; [apply Hname; reflexivity | apply Hwait; discriminate].
Defined.

(* ================================================================== *)
(** * Which configurations [NewWatcher] accepts                        *)
(* ================================================================== *)

Lemma list_prefix_dec (s d : list string) :
  (exists rest, d = (s ++ rest)%list) \/ (forall rest, d <> (s ++ rest)%list).
Proof.
  revert d. induction s as [|x s IH]; intros d.
  - left. exists d. reflexivity.
  - destruct d as [|y d].
    + right. intros rest H. discriminate.
    + destruct (string_dec x y) as [->|Hne].
      * destruct (IH d) as [[rest ->] | Hn].
        -- left. exists rest. reflexivity.
        -- right. intros rest H. injection H as H. exact (Hn rest H).
      * right. intros rest H. injection H as H1 H2. congruence.
Qed.

Lemma relational_violations_nil s d :
  Forall (fun n => GoPath.is_name n = true) s ->
  Forall (fun n => GoPath.is_name n = true) d ->
  (relational_violations s d = []
   <-> s <> d
       /\ forall n rest, d = (s ++ n :: rest)%list -> GoPath.HasPrefix n ".." = true).
Proof.
  intros Hs Hd.
  pose (env := env_all_directories).
  pose proof (validateSourceAndDestination_rooted env s d Hs Hd) as Hv.
  assert (Hdirs : forall p q,
             (validateDirOld (probe_source env) p ErrorInvalidSource
              ++ validateDirOld (probe_destination env) q ErrorInvalidDestination
              ++ relational_violations s d)%list
             = relational_violations s d) by reflexivity.
  rewrite Hdirs in Hv.
  split.
  - intros Hnil. rewrite Hnil in Hv. split.
    + intros Heq.
      destruct (source_equals_destination_rejected env s d Hs Hd Heq) as [H _].
      rewrite Hv in H. exact H.
    + intros n rest Hnest.
      destruct (GoPath.HasPrefix n "..") eqn:E; [reflexivity|].
      pose proof (nested_destination_rejected env s d Hs Hd n rest Hnest E) as H.
      rewrite Hv in H. destruct H.
  - intros [Hne Hnest].
    destruct (list_prefix_dec s d) as [[rest Hrest] | Hun].
    + destruct rest as [|n rest].
      * exfalso. apply Hne. rewrite Hrest. now rewrite app_nil_r.
      * apply (nested_destination_missed s d Hs Hd n rest Hrest).
        exact (Hnest n rest Hrest).
    + pose proof (unrelated_destination_passes env s d Hs Hd Hun) as H.
      rewrite Hv in H. exact H.
Qed.

Section Acceptance.

Variable Format : string -> GoTime.Time -> string.

(** X7.  The configurations [NewWatcher] accepts, for a source and a
    destination given as absolute, cleaned paths.  The returned error is
    [nil] exactly when: the name is not empty; the wait time is positive;
    the two formatted instants differ; the layout, the source and the
    destination each name a directory once [validateDir] has run; the two
    paths differ; whenever the destination lies below the source, the first
    element below the source begins with two dots; and the metadata file is
    absent or was read and parsed. *)
Theorem X7_NewWatcher_accepts_iff env name (s d : list string) w f enabled :
  Forall (fun n => GoPath.is_name n = true) s ->
  Forall (fun n => GoPath.is_name n = true) d ->
  (snd (NewWatcher Format env name (GoPath.rooted s) (GoPath.rooted d) w f enabled)
   = []
   <-> name <> ""
       /\ (0 < w)%Q
       /\ formats_collide Format w f = false
       /\ usable_directory (probe_format env)
       /\ usable_directory (probe_source env)
       /\ usable_directory (probe_destination env)
       /\ s <> d
       /\ (forall n rest, d = (s ++ n :: rest)%list ->
                          GoPath.HasPrefix n ".." = true)
       /\ (metadata_file env = MetaNotExist
           \/ exists history, metadata_file env = MetaContent history)).
Proof.
  intros Hs Hd.
  rewrite NewWatcher_errors, validateFolderFormat_cases,
    (validateSourceAndDestination_rooted env s d Hs Hd).
  unfold validateDirOld.
  assert (Hname : validateName name [] = [] <-> name <> "").
  { unfold validateName. destruct (String.eqb_spec name ""); cbn; split;
      intros H; try discriminate; try reflexivity; congruence. }
  assert (Hwait : validateWaitTime w [] = [] <-> (0 < w)%Q).
  { unfold validateWaitTime. destruct (Qle_bool w 0) eqn:E; cbn.
    - apply Qle_bool_iff in E. split; [discriminate|]. intros H.
      exfalso. apply (Qlt_not_le _ _ H E).
    - split; [|reflexivity]. intros _. apply Qnot_le_lt. intros H.
      apply Qle_bool_iff in H. congruence. }
  assert (Hload : load_violations (metadata_file env) = []
                  <-> metadata_file env = MetaNotExist
                      \/ exists history, metadata_file env = MetaContent history).
  { destruct (metadata_file env); cbn; split; intros H;
      try discriminate; try reflexivity; eauto;
      destruct H as [H | [h H]]; discriminate. }
  pose proof (relational_violations_nil s d Hs Hd) as Hrel.
  pose proof (validateDir_nil (probe_format env) f ErrorInvalidFolderFormat) as Hf.
  pose proof (validateDir_nil (probe_source env) (GoPath.rooted s) ErrorInvalidSource)
    as Hsrc.
  pose proof (validateDir_nil (probe_destination env) (GoPath.rooted d)
                ErrorInvalidDestination) as Hdst.
  split.
  - intros H.
    apply app_eq_nil in H as [H1 H]. apply app_eq_nil in H as [H2 H].
    apply app_eq_nil in H as [H3 H]. apply app_eq_nil in H as [H4 H5].
    apply app_eq_nil in H3 as [H3a H3b]. apply app_eq_nil in H4 as [H4a H4].
    apply app_eq_nil in H4 as [H4b H4c].
    destruct (formats_collide Format w f); [discriminate|].
    apply Hrel in H4c. destruct H4c as [Hne Hnest].
    repeat split; try tauto; try assumption.
  - intros (N1 & N2 & N3 & N4 & N5 & N6 & N7 & N8 & N9).
    rewrite (proj2 Hname N1), (proj2 Hwait N2), N3, (proj2 Hf N4), (proj2 Hsrc N5),
      (proj2 Hdst N6), (proj2 Hrel (conj N7 N8)), (proj2 Hload N9).
    reflexivity.
Qed.

End Acceptance.

Lemma X7_NewWatcher_accepts_iff_witness :
  Forall (fun n => GoPath.is_name n = true) ["tmp"; "source"]
  /\ Forall (fun n => GoPath.is_name n = true) ["tmp"; "destination"]
  /\ snd (NewWatcher GoTime.utcFormat env_all_directories "Main Watcher"
            "/tmp/source" "/tmp/destination" 1 default_layout true) = [].
Proof.
  assert (Hs : Forall (fun n => GoPath.is_name n = true) ["tmp"; "source"])
    by (repeat constructor).
  assert (Hd : Forall (fun n => GoPath.is_name n = true) ["tmp"; "destination"])
    by (repeat constructor).
  split; [exact Hs|]. split; [exact Hd|].
  apply (proj2 (X7_NewWatcher_accepts_iff GoTime.utcFormat env_all_directories
                  "Main Watcher" ["tmp"; "source"] ["tmp"; "destination"] 1
                  default_layout true Hs Hd)).
  split; [discriminate|]. split; [reflexivity|]. split; [vm_compute; reflexivity|].
  split; [left; reflexivity|]. split; [left; reflexivity|]. split; [left; reflexivity|].
  split; [discriminate|]. split; [|left; reflexivity].
  intros n rest H. discriminate.
Defined.

(* ================================================================== *)
(** * Wait times below one nanosecond                                  *)
(* ================================================================== *)

Lemma trunc_small (x : Q) :
  (- Z.pos (Qden x) < Qnum x < Z.pos (Qden x))%Z -> GoTime.trunc x = 0%Z.
Proof.
  intros H. unfold GoTime.trunc.
  destruct (Z_le_gt_dec 0 (Qnum x)) as [Hp | Hn].
  - apply Z.quot_small. lia.
  - rewrite <- (Z.opp_involutive (Qnum x)), Z.quot_opp_l by lia.
    rewrite Z.quot_small by lia. reflexivity.
Qed.

Lemma NewWatcher_WaitTime Format env name source destination w f enabled :
  WaitTime (fst (NewWatcher Format env name source destination w f enabled)) = w.
Proof. unfold NewWatcher. cbv zeta. destruct (metadata_file env); reflexivity. Qed.

Lemma errors_Is_In e errs s :
  In e errs -> wrapped e = Some s -> errors_Is errs s = true.
Proof.
  intros Hin Hw. unfold errors_Is. apply existsb_exists. exists e.
  split; [exact Hin|]. rewrite Hw. now apply Sentinel_eqb_eq.
Qed.

Section TinyWaitTime.

Variable Format : string -> GoTime.Time -> string.

(** Only the wait-time check reports under the wait-time sentinel. *)
Lemma NewWatcher_Is_WaitTime env name source destination w f enabled :
  errors_Is (snd (NewWatcher Format env name source destination w f enabled))
    ErrorInvalidWaitTime
  = errors_Is (validateWaitTime w []) ErrorInvalidWaitTime.
Proof.
  rewrite NewWatcher_errors, validateFolderFormat_cases,
    validateSourceAndDestination_cases.
  unfold validateDirOld. rewrite !errors_Is_app, load_violations_Is.
  assert (Hdir : forall os p s, s <> ErrorInvalidWaitTime ->
             errors_Is (validateDir os p s []) ErrorInvalidWaitTime = false).
  { intros os p s Hs. destruct (errors_Is _ _) eqn:E; [|reflexivity].
    apply validateDir_Is in E. destruct E as [E _]. congruence. }
  rewrite !Hdir by discriminate.
  assert (Hname : errors_Is (validateName name []) ErrorInvalidWaitTime = false).
  { unfold validateName. destruct (name =? ""); reflexivity. }
  rewrite Hname.
  destruct (formats_collide Format w f); cbn [app errors_Is existsb wrapped Sentinel_eqb orb];
    rewrite ?orb_false_r;
    destruct (snd (GoPath.Abs (getwd env) source)),
      (snd (GoPath.Abs (getwd env) destination)),
      (fst (GoPath.Abs (getwd env) source) =? fst (GoPath.Abs (getwd env) destination)),
      (GoPath.Rel (fst (GoPath.Abs (getwd env) source))
         (fst (GoPath.Abs (getwd env) destination))),
      (seen_inside (fst (GoPath.Abs (getwd env) source))
         (fst (GoPath.Abs (getwd env) destination)));
    cbn; rewrite ?orb_false_r; reflexivity.
Qed.

(** X8.  A wait time of less than one nanosecond in absolute value (zero
    included) makes [validateFolderFormat] format the epoch twice: whatever
    the layout and whatever [time.Format] does, the precision violation is
    reported, so a positive wait time that the wait-time check lets through
    but that would arm the timer for zero nanoseconds is rejected under the
    folder-format sentinel. *)
Theorem X8_tiny_wait_time_lacks_precision
    env name source destination (w : Q) f enabled :
  (- (1 # 1000000000) < w)%Q -> (w < 1 # 1000000000)%Q ->
  let r := NewWatcher Format env name source destination w f enabled in
  format_seconds w = 0%Z
  /\ format_nanoseconds w = 0%Z
  /\ wait_of (fst r) = 0%Z
  /\ In LacksPrecision (snd r)
  /\ errors_Is (snd r) ErrorInvalidFolderFormat = true
  /\ ((0 < w)%Q -> errors_Is (snd r) ErrorInvalidWaitTime = false).
Proof.
  intros Hlo Hhi r.
  assert (Hnum : (- Z.pos (Qden w) < Qnum w * 1000000000 < Z.pos (Qden w))%Z).
  { unfold Qlt in Hlo, Hhi. cbn in Hlo, Hhi. lia. }
  assert (Hs : format_seconds w = 0%Z).
  { unfold format_seconds. apply trunc_small. lia. }
  assert (Hn : format_nanoseconds w = 0%Z).
  { unfold format_nanoseconds. rewrite Hs. apply trunc_small.
    destruct w as [n d]. cbn in *. unfold GoTime.e9. lia. }
  assert (Hw : wait_of (fst r) = 0%Z).
  { unfold wait_of, r. rewrite NewWatcher_WaitTime. apply trunc_small.
    destruct w as [n d]. cbn in *. unfold GoTime.e9. lia. }
  assert (Hc : formats_collide Format w f = true).
  { unfold formats_collide. cbv zeta. rewrite Hs, Hn. apply String.eqb_refl. }
  split; [exact Hs|]. split; [exact Hn|]. split; [exact Hw|].
  split; [apply NewWatcher_LacksPrecision; exact Hc|].
  split.
  - apply (errors_Is_In LacksPrecision); [|reflexivity].
    apply NewWatcher_LacksPrecision. exact Hc.
  - intros Hpos. unfold r. rewrite NewWatcher_Is_WaitTime.
    destruct (errors_Is (validateWaitTime w []) ErrorInvalidWaitTime) eqn:E;
      [|reflexivity].
    apply validateWaitTime_Is in E. destruct E as [_ E].
    exfalso. exact (Qlt_not_le _ _ Hpos E).
Qed.

End TinyWaitTime.

Lemma X8_tiny_wait_time_lacks_precision_witness :
  (- (1 # 1000000000) < 1 # 2000000000)%Q
  /\ (1 # 2000000000 < 1 # 1000000000)%Q
  /\ In LacksPrecision
       (snd (NewWatcher GoTime.utcFormat env_all_directories "Main Watcher"
               "/tmp/source" "/tmp/destination" (1 # 2000000000)
               "2006-01-02_15-04-05.000000000" true)).
Proof.
  assert (Hlo : (- (1 # 1000000000) < 1 # 2000000000)%Q) by reflexivity.
  assert (Hhi : (1 # 2000000000 < 1 # 1000000000)%Q) by reflexivity.
  split; [exact Hlo|]. split; [exact Hhi|].
  exact (proj1 (proj2 (proj2 (proj2
           (X8_tiny_wait_time_lacks_precision GoTime.utcFormat env_all_directories
              "Main Watcher" "/tmp/source" "/tmp/destination" (1 # 2000000000)
              "2006-01-02_15-04-05.000000000" true Hlo Hhi))))).
Defined.

(* ================================================================== *)
(** * Relative paths when the working directory cannot be read         *)
(* ================================================================== *)

(** X9.  When [os.Getwd] fails, [filepath.Abs] gives the empty string for
    every relative path.  For a relative source and a relative destination
    [validateSourceAndDestination] then reports, after what [validateDir]
    finds, the two failures of [filepath.Abs] and, the two empty strings
    being equal, that source and destination cannot be the same, however
    different the two paths are; it does not report the destination as
    inside the source. *)
Theorem X9_getwd_failure_reports_same_paths env source destination :
  getwd env = None ->
  GoPath.IsAbs source = false ->
  GoPath.IsAbs destination = false ->
  validateSourceAndDestination env source destination []
  = (validateDirOld (probe_source env) source ErrorInvalidSource
     ++ validateDirOld (probe_destination env) destination ErrorInvalidDestination
     ++ [AbsFailure ErrorInvalidSource; AbsFailure ErrorInvalidDestination;
         SamePathsSource; SamePathsDestination])%list.
Proof.
  intros Hwd Hs Hd. rewrite validateSourceAndDestination_cases.
  unfold GoPath.Abs. rewrite Hwd, Hs, Hd. reflexivity.
Qed.

Lemma X9_getwd_failure_reports_same_paths_witness :
  getwd env_no_working_directory = None
  /\ GoPath.IsAbs "source" = false
  /\ GoPath.IsAbs "backups/destination" = false
  /\ validateSourceAndDestination env_no_working_directory "source"
       "backups/destination" []
     = [AbsFailure ErrorInvalidSource; AbsFailure ErrorInvalidDestination;
        SamePathsSource; SamePathsDestination].
Proof.
  split; [reflexivity|]. split; [reflexivity|]. split; [reflexivity|].
  exact (X9_getwd_failure_reports_same_paths env_no_working_directory "source"
           "backups/destination" eq_refl eq_refl eq_refl).
Defined.

(* ================================================================== *)
(** * Start and stop                                                   *)
(* ================================================================== *)

Lemma StartWatcher_free fs w :
  mu w = false ->
  StartWatcher fs w
  = if negb (Enabled w) then Returns (Some WatcherDisabled) w []
    else if fsnotifyWatcher w then Returns (Some WatcherAlreadyRunning) w []
    else match createBackupIfBackupIsOutdated fs
                 (set_fsnotifyWatcher true (set_mu true w)) with
         | Returns err w' t =>
             Returns (match err with
                      | Some e => Some (CheckFailed e)
                      | None => None
                      end)
               (set_mu false w')
               (ESpawn GoStartFSNotifyWatcher :: ESpawn GoBackupLoop :: t)
         | Blocks w' t =>
             Blocks w' (ESpawn GoStartFSNotifyWatcher :: ESpawn GoBackupLoop :: t)
         end.
Proof.
  intros Hmu. unfold StartWatcher.
  rewrite (bind_Returns _ _ _ _ _ _ (Lock_free w Hmu)), prepend_nil.
  unfold bind at 1. unfold get at 1.
  replace (Enabled (set_mu true w)) with (Enabled w) by (destruct w; reflexivity).
  replace (fsnotifyWatcher (set_mu true w)) with (fsnotifyWatcher w)
    by (destruct w; reflexivity).
  destruct (Enabled w); cbn [negb].
  - destruct (fsnotifyWatcher w).
    + unfold bind, Unlock, modify, ret. cbn. f_equal. apply set_mu_same. exact Hmu.
    + unfold bind at 1 2 3. unfold emit, modify. cbn [app].
      unfold bind at 1.
      destruct (createBackupIfBackupIsOutdated fs _) as [err w' t | w' t].
      * unfold bind, Unlock, modify, ret. destruct err; cbn; rewrite ?app_nil_r; reflexivity.
      * reflexivity.
  - unfold bind, Unlock, modify, ret. cbn. f_equal. apply set_mu_same. exact Hmu.
Qed.

Lemma send_backupRequest_room w :
  backupRequestChan w = 0%nat ->
  send_backupRequest w = Returns tt (set_backupRequestChan 1 w) [ERequestBackup].
Proof. intros H. unfold send_backupRequest. rewrite H. reflexivity. Qed.

(** What the check at start does when the channel has room. *)
Lemma createBackupIfBackupIsOutdated_room fs w :
  backupRequestChan w = 0%nat ->
  createBackupIfBackupIsOutdated fs w
  = match Metadata w with
    | [] => Returns None (set_backupRequestChan 1 w) [ERequestBackup]
    | _ :: _ =>
        match doFoldersMatch fs (Source w) (latest_backup_path w) with
        | (_, Some err) => Returns (Some err) w []
        | (true, None) => Returns None w []
        | (false, None) => Returns None (set_backupRequestChan 1 w) [ERequestBackup]
        end
    end.
Proof.
  intros Hroom. unfold createBackupIfBackupIsOutdated, latest_backup_path.
  unfold bind at 1. unfold get at 1.
  destruct (Metadata w) as [|b m] eqn:Em.
  - cbn [List.length Nat.eqb]. unfold bind, ret.
    rewrite (send_backupRequest_room w Hroom). reflexivity.
  - cbn [List.length Nat.eqb].
    destruct (doFoldersMatch fs (Source w) _) as [[|] [err|]]; try reflexivity.
    cbn [negb]. unfold bind, ret.
    rewrite (send_backupRequest_room w Hroom). reflexivity.
Qed.

(** What a start that gets as far as the goroutines does. *)
Lemma StartWatcher_started fs w :
  mu w = false -> backupRequestChan w = 0%nat ->
  Enabled w = true -> fsnotifyWatcher w = false ->
  StartWatcher fs w
  = match Metadata w with
    | [] =>
        Returns None (set_backupRequestChan 1 (set_fsnotifyWatcher true w))
          [ESpawn GoStartFSNotifyWatcher; ESpawn GoBackupLoop; ERequestBackup]
    | _ :: _ =>
        match doFoldersMatch fs (Source w) (latest_backup_path w) with
        | (_, Some err) =>
            Returns (Some (CheckFailed err)) (set_fsnotifyWatcher true w)
              [ESpawn GoStartFSNotifyWatcher; ESpawn GoBackupLoop]
        | (true, None) =>
            Returns None (set_fsnotifyWatcher true w)
              [ESpawn GoStartFSNotifyWatcher; ESpawn GoBackupLoop]
        | (false, None) =>
            Returns None (set_backupRequestChan 1 (set_fsnotifyWatcher true w))
              [ESpawn GoStartFSNotifyWatcher; ESpawn GoBackupLoop; ERequestBackup]
        end
    end.
Proof.
  intros Hmu Hroom Hen Hfs. rewrite (StartWatcher_free fs w Hmu), Hen, Hfs.
  cbn [negb].
  set (w0 := set_fsnotifyWatcher true (set_mu true w)).
  assert (Hroom0 : backupRequestChan w0 = 0%nat) by (destruct w; exact Hroom).
  rewrite (createBackupIfBackupIsOutdated_room fs w0 Hroom0).
  replace (Metadata w0) with (Metadata w) by (destruct w; reflexivity).
  replace (Source w0) with (Source w) by (destruct w; reflexivity).
  replace (latest_backup_path w0) with (latest_backup_path w)
    by (destruct w; reflexivity).
  assert (H0 : set_mu false w0 = set_fsnotifyWatcher true w)
    by (destruct w; cbn in *; subst; reflexivity).
  assert (H1 : set_mu false (set_backupRequestChan 1 w0)
               = set_backupRequestChan 1 (set_fsnotifyWatcher true w))
    by (destruct w; cbn in *; subst; reflexivity).
  destruct (Metadata w) as [|b m]; [rewrite H1; reflexivity|].
  destruct (doFoldersMatch fs (Source w) (latest_backup_path w)) as [[|] [err|]];
    rewrite ?H0, ?H1; reflexivity.
Qed.









Lemma NewWatcher_watcher Format env name source destination w f enabled :
  fst (NewWatcher Format env name source destination w f enabled)
  = mkWatcher name source destination enabled w f
      (match metadata_file env with
       | MetaContent history => history
       | _ => []
       end) false false [] 0.
Proof. unfold NewWatcher. cbv zeta. destruct (metadata_file env); reflexivity. Qed.

Section ConstructThenStart.

Variable Format : string -> GoTime.Time -> string.

(** X13.  [NewWatcher] hands back a watcher together with its error, and
    [StartWatcher] looks at the field [Enabled] only, never at what the
    validation found.  A watcher built with [enabled] false is refused with
    "watcher is disabled" and nothing is started.  A watcher built with
    [enabled] true, no history having been loaded, starts: the notifier and
    the backup loop are launched and the initial backup is requested without
    the file system being read, even when the configuration was rejected. *)
Theorem X13_StartWatcher_does_not_validate
    env fs name source destination wt f enabled :
  let r := NewWatcher Format env name source destination wt f enabled in
  (enabled = false ->
   StartWatcher fs (fst r) = Returns (Some WatcherDisabled) (fst r) [])
  /\ (enabled = true ->
      (forall history, metadata_file env = MetaContent history -> history = []) ->
      StartWatcher fs (fst r)
      = Returns None (set_backupRequestChan 1 (set_fsnotifyWatcher true (fst r)))
          [ESpawn GoStartFSNotifyWatcher; ESpawn GoBackupLoop; ERequestBackup]).
Proof.
  cbv zeta. rewrite NewWatcher_watcher. split.
  - intros ->. rewrite StartWatcher_free by reflexivity. reflexivity.
  - intros -> Hh. rewrite StartWatcher_started by reflexivity.
    cbn [Metadata].
    destruct (metadata_file env) as [| | |history]; try reflexivity.
    rewrite (Hh history eq_refl). reflexivity.
Qed.

End ConstructThenStart.

Lemma X13_StartWatcher_does_not_validate_witness :
  snd (NewWatcher GoTime.utcFormat env_all_files "" "/tmp/source" "/tmp/source" 0
         "2006-01-02" true) <> []
  /\ exists w',
       StartWatcher fs_in_sync
         (fst (NewWatcher GoTime.utcFormat env_all_files "" "/tmp/source"
                 "/tmp/source" 0 "2006-01-02" true))
       = Returns None w'
           [ESpawn GoStartFSNotifyWatcher; ESpawn GoBackupLoop; ERequestBackup].
Proof.
  split; [vm_compute; discriminate|].
  eexists.
  refine (proj2 (X13_StartWatcher_does_not_validate GoTime.utcFormat env_all_files
                   fs_in_sync "" "/tmp/source" "/tmp/source" 0 "2006-01-02" true)
            eq_refl _).
  intros history H. discriminate.
Defined.

(* ================================================================== *)
(** * The comparison as a relation between trees                       *)
(* ================================================================== *)

Lemma files_match_sym a b : files_match a b -> files_match b a.
Proof.
  intros (c & ma & mb & -> & -> & H1 & H2). exists c, mb, ma. auto.
Qed.

Lemma files_match_trans a b c : files_match a b -> files_match b c -> files_match a c.
Proof.
  intros (c1 & ma & mb & -> & -> & H1 & H2) (c2 & mb' & mc & Hb & -> & H3 & H4).
  injection Hb as <- <-. exists c1, ma, mc. repeat split; congruence.
Qed.

Lemma entries_match_sym ses :
  Forall (fun e => forall d, trees_match (snd e) d -> trees_match d (snd e)) ses ->
  forall des, entries_match ses des -> entries_match des ses.
Proof.
  induction 1 as [|[sn se] ses Hse _ IH]; intros des H; inversion H; subst.
  - constructor.
  - apply entries_match_dir; auto.
  - apply entries_match_file; auto using files_match_sym.
Qed.

Lemma trees_match_sym s : forall d, trees_match s d -> trees_match d s.
Proof.
  induction s as [content mtime | isDir | ses IH] using Node_nested_ind;
    intros d H; inversion H; subst.
  constructor; [congruence|]. apply entries_match_sym; assumption.
Qed.

Lemma entries_match_trans ses :
  Forall (fun e => forall b c, trees_match (snd e) b -> trees_match b c ->
                               trees_match (snd e) c) ses ->
  forall des ces, entries_match ses des -> entries_match des ces ->
                  entries_match ses ces.
Proof.
  induction 1 as [|[sn se] ses Hse _ IH]; intros des ces H1 H2;
    inversion H1; subst; inversion H2; subst; try congruence.
  - simpl in Hse. apply entries_match_dir; auto.
    + eapply Hse; eassumption.
    + eapply IH; eassumption.
  - apply entries_match_file; auto.
    + eapply files_match_trans; eassumption.
    + eapply IH; eassumption.
Qed.

Lemma trees_match_trans a : forall b c,
  trees_match a b -> trees_match b c -> trees_match a c.
Proof.
  induction a as [content mtime | isDir | ses IH] using Node_nested_ind;
    intros b c H1 H2; inversion H1; subst; inversion H2; subst.
  constructor; [congruence|]. eapply entries_match_trans; eassumption.
Qed.

Lemma entries_match_refl es :
  Forall (fun e => IsDir (snd e) = true ->
                   (trees_match (snd e) (snd e) <-> readable (snd e) = true)) es ->
  (entries_match es es <-> forallb (fun e => readable (snd e)) es = true).
Proof.
  induction 1 as [|[n e] es He _ IH]; simpl.
  - split; [reflexivity | constructor].
  - rewrite andb_true_iff, <- IH. simpl in He. split.
    + intros H. inversion H; subst.
      * split; [apply He; assumption | assumption].
      * split; [|assumption].
        match goal with Hf : files_match _ _ |- _ =>
          destruct Hf as (c & ma & mb & -> & _) end. reflexivity.
    + intros [Hr Hes]. destruct (IsDir e) eqn:Ed.
      * apply entries_match_dir; auto. apply He; auto.
      * apply entries_match_file; auto.
        destruct e as [[c|] m | sub | b]; simpl in *; try discriminate.
        exists c, m, m. auto.
Qed.

Lemma trees_match_refl n :
  IsDir n = true -> (trees_match n n <-> readable n = true).
Proof.
  induction n as [content mtime | isDir | es IH] using Node_nested_ind; intros Hd.
  - discriminate.
  - simpl. split; [intros H; inversion H | discriminate].
  - cbn [readable]. rewrite <- (entries_match_refl es IH). split.
    + intros H. inversion H. assumption.
    + intros H. constructor; [reflexivity | exact H].
Qed.

Lemma bool_eq_iff (a b : bool) : (a = true <-> b = true) -> a = b.
Proof. destruct a, b; intuition congruence. Qed.

Lemma doFoldersMatch_true fs s d :
  fst (doFoldersMatch fs s d) = true
  <-> exists ses des,
        fs s = Some (Dir ses) /\ fs d = Some (Dir des)
        /\ trees_match (Dir ses) (Dir des).
Proof.
  unfold doFoldersMatch.
  destruct (fs s) as [[cs ms | ses | bs]|]; cbn [os_ReadDir fst];
    try (split; [discriminate | intros (x & y & H & _); discriminate]).
  destruct (fs d) as [[cd md | des | bd]|]; cbn [os_ReadDir fst];
    try (split; [discriminate | intros (x & y & _ & H & _); discriminate]).
  rewrite doFoldersMatch_at_true. split.
  - intros H. exists ses, des. auto.
  - intros (x & y & Hx & Hy & H). injection Hx as <-. injection Hy as <-. exact H.
Qed.

(** X14.  The verdict of [doFoldersMatch] is a partial equivalence between
    paths: swapping source and destination gives the same verdict (the
    error, if any, may name the other side); two matches with a common
    middle path give a match; and a path matches itself exactly when it
    holds a directory in which everything can be read. *)
Theorem X14_doFoldersMatch_partial_equivalence (fs : FileSystem) (a b c : string) :
  fst (doFoldersMatch fs a b) = fst (doFoldersMatch fs b a)
  /\ (fst (doFoldersMatch fs a b) = true -> fst (doFoldersMatch fs b c) = true ->
      fst (doFoldersMatch fs a c) = true)
  /\ (fst (doFoldersMatch fs a a) = true
      <-> exists entries, fs a = Some (Dir entries) /\ readable (Dir entries) = true).
Proof.
  split; [|split].
  - apply bool_eq_iff. rewrite !doFoldersMatch_true. split.
    + intros (x & y & Hx & Hy & H). exists y, x. auto using trees_match_sym.
    + intros (x & y & Hx & Hy & H). exists y, x. auto using trees_match_sym.
  - rewrite !doFoldersMatch_true.
    intros (x & y & Hx & Hy & H1) (y' & z & Hy' & Hz & H2).
    rewrite Hy in Hy'. injection Hy' as <-.
    exists x, z. split; [exact Hx|]. split; [exact Hz|].
    eapply trees_match_trans; eassumption.
  - rewrite doFoldersMatch_true. split.
    + intros (x & y & Hx & Hy & H). rewrite Hx in Hy. injection Hy as <-.
      exists x. split; [exact Hx|]. apply trees_match_refl; [reflexivity | exact H].
    + intros (x & Hx & Hr). exists x, x. split; [exact Hx|]. split; [exact Hx|].
      apply trees_match_refl; [reflexivity | exact Hr].
Qed.

Lemma X14_doFoldersMatch_partial_equivalence_witness :
  fst (doFoldersMatch fs_in_sync "/tmp/source"
         "/tmp/destination/2023-11-14_22-13-20.000000") = true
  /\ fst (doFoldersMatch fs_in_sync "/tmp/destination/2023-11-14_22-13-20.000000"
            "/tmp/source") = true
  /\ fst (doFoldersMatch fs_in_sync "/tmp/source" "/tmp/source") = true.
Proof.
  assert (H : fst (doFoldersMatch fs_in_sync "/tmp/source"
                     "/tmp/destination/2023-11-14_22-13-20.000000") = true)
    by reflexivity.
  destruct (X14_doFoldersMatch_partial_equivalence fs_in_sync "/tmp/source"
              "/tmp/destination/2023-11-14_22-13-20.000000" "/tmp/source")
    as (Hsym & Htrans & _).
  split; [exact H|]. split; [rewrite <- Hsym; exact H|].
  apply Htrans; [exact H | rewrite <- Hsym; exact H].
Defined.

(* ================================================================== *)
(** * The comparison of the tests against the comparison of the watcher *)
(* ================================================================== *)

Lemma CompareSourceAndDestination_Dir ses des :
  CompareSourceAndDestination (Dir ses) (Dir des)
  = if negb (List.length ses =? List.length des)%nat
    then Some (FatalEntryCounts (List.length ses) (List.length des))
    else check_entries CompareSourceAndDestination 0 ses des.
Proof.
  simpl. destruct (negb (List.length ses =? List.length des)%nat); [reflexivity|].
  generalize 0%nat. revert des.
  induction ses as [|[sn se] ses IH]; intros [|[dn de] des] i; try reflexivity.
  simpl. rewrite !IH. reflexivity.
Qed.

Lemma CompareFiles_agrees s d :
  CompareFiles s d = None <-> doFilesMatch s d = (true, None).
Proof.
  unfold CompareFiles, doFilesMatch.
  destruct (os_Stat s), (os_Stat d), (os_ReadFile s), (os_ReadFile d);
    try (split; discriminate).
  destruct (negb (_ =? _)); [split; discriminate|].
  destruct (negb (GoTime.Time_eqb _ _)); split; intros H;
    try discriminate; reflexivity.
Qed.

Lemma check_entries_agrees check compare ses :
  Forall (fun e => forall d, check (snd e) d = None <-> compare (snd e) d = (true, None))
    ses ->
  forall des i,
    check_entries check i ses des = None
    <-> compare_entries compare ses des = (true, None).
Proof.
  induction 1 as [|[sn se] ses Hse _ IH]; intros [|[dn de] des] i;
    try (simpl; tauto).
  simpl. simpl in Hse.
  destruct (negb (sn =? dn)); [split; discriminate|].
  destruct (IsDir se && IsDir de).
  - specialize (Hse de).
    destruct (check se de) as [fatal|], (compare se de) as [[|] [err|]];
      try (split; discriminate); try apply IH.
    + destruct Hse as [_ Hse]. specialize (Hse eq_refl). discriminate.
    + destruct Hse as [Hse _]. specialize (Hse eq_refl). discriminate.
    + destruct Hse as [Hse _]. specialize (Hse eq_refl). discriminate.
    + destruct Hse as [Hse _]. specialize (Hse eq_refl). discriminate.
  - destruct (negb (IsDir se) && negb (IsDir de)); [|split; discriminate].
    pose proof (CompareFiles_agrees se de) as Hf.
    destruct (CompareFiles se de) as [err|], (doFilesMatch se de) as [[|] [e|]];
      try (split; discriminate); try apply IH.
    + destruct Hf as [_ Hf]. specialize (Hf eq_refl). discriminate.
    + destruct Hf as [Hf _]. specialize (Hf eq_refl). discriminate.
    + destruct Hf as [Hf _]. specialize (Hf eq_refl). discriminate.
    + destruct Hf as [Hf _]. specialize (Hf eq_refl). discriminate.
Qed.

(** X15.  The comparison the tests trust and the comparison the watcher
    makes at start agree.  [CompareFiles] returns no error exactly when
    [doFilesMatch] answers true without error, and
    [CompareSourceAndDestination] returns, without ending the test, exactly
    when [doFoldersMatch] answers true without error on the same two
    trees. *)
Theorem X15_test_comparison_agrees_with_doFoldersMatch (source destination : Node) :
  (CompareFiles source destination = None
   <-> doFilesMatch source destination = (true, None))
  /\ (CompareSourceAndDestination source destination = None
      <-> doFoldersMatch_at source destination = (true, None)).
Proof.
  split; [apply CompareFiles_agrees|].
  revert destination.
  induction source as [content mtime | isDir | ses IH] using Node_nested_ind;
    intros destination; try (simpl; split; discriminate).
  destruct destination as [dc dm | des | db]; try (simpl; split; discriminate).
  rewrite CompareSourceAndDestination_Dir, doFoldersMatch_at_Dir.
  destruct (negb (List.length ses =? List.length des)%nat); [split; discriminate|].
  apply check_entries_agrees. exact IH.
Qed.

Lemma X15_test_comparison_agrees_with_doFoldersMatch_witness :
  doFoldersMatch_at sample_tree sample_tree = (true, None)
  /\ CompareSourceAndDestination sample_tree sample_tree = None.
Proof.
  assert (H : doFoldersMatch_at sample_tree sample_tree = (true, None))
    by reflexivity.
  split; [exact H|].
  exact (proj2 (proj2 (X15_test_comparison_agrees_with_doFoldersMatch
                         sample_tree sample_tree)) H).
Defined.

(* ================================================================== *)
(** * The debounce loop, move by move                                  *)
(* ================================================================== *)

Section LoopMoves.

Variable wait : Z.
Variable duration : Z -> Z.

Local Notation "'W'" := (Z.max 0 wait).
Local Notation "'D' t" := (Z.max 0 (duration t)) (at level 10, t at level 9).

(** What is true of a loop stays true up to instant [t], once it is closed
    under the two moves. *)
Lemma advance_closed (I : Loop -> Prop) t l :
  closed_under_expiry duration (Some t) I ->
  closed_under_return wait (Some t) I ->
  drained l -> I l -> I (advance wait duration advance_fuel t l).
Proof.
  intros Hexp Hret (Hcap & Hsel & Hbusy) HI.
  destruct l as [tm bs st c q rc ats]. cbn [chan busy timer queued] in *.
  unfold advance_fuel.
  assert (Hpend : forall f dl rc' ats',
            (3 <= f)%nat ->
            I (mkLoop (Some dl) None st 0 0 rc' ats') ->
            I (advance wait duration f t (mkLoop (Some dl) None st 0 0 rc' ats'))).
  { intros f dl rc' ats' Hf HI'. destruct f as [|[|[|f]]]; try lia.
    rewrite advance_S; cbn [busy timer].
    destruct (Z.leb_spec dl t) as [Hle|Hgt]; [|exact HI'].
    unfold backupLoop_case; cbn [busy timer chan queued stopped received attempts].
    pose proof (Hexp dl st rc' ats' Hle HI') as H1.
    rewrite advance_S; cbn [busy timer].
    destruct (Z.leb_spec (dl + D dl) t) as [Hle2|Hgt2]; [|exact H1].
    rewrite settle_all_nothing by reflexivity.
    rewrite advance_S.
    unfold createBackup_returns; cbn [busy timer chan queued stopped received attempts].
    exact (Hret (dl + D dl)%Z st 0%nat 0%nat rc' (ats' ++ [dl])%list Hle2
             (Nat.le_0_l 1) H1). }
  destruct bs as [fin|].
  - assert (tm = None) by (apply Hbusy; discriminate). subst tm.
    rewrite advance_S; cbn [busy timer].
    destruct (Z.leb_spec fin t) as [Hle|Hgt]; [|exact HI].
    unfold createBackup_returns; cbn [busy timer chan queued stopped received attempts].
    unfold backupRequestChan_capacity in Hcap.
    pose proof (Hret fin st c q rc ats Hle Hcap HI) as H1.
    destruct (Nat.eq_dec (q + c) 0) as [Hz|Hnz].
    + assert (q = 0%nat) by lia. assert (c = 0%nat) by lia. subst.
      rewrite settle_all_nothing by reflexivity.
      rewrite advance_S. exact H1.
    + rewrite settle_all_takes_all by (simpl; lia).
      unfold took. cbn [busy stopped received attempts queued chan].
      apply Hpend; [lia|].
      destruct (Nat.eqb_spec (q + c) 0); [contradiction | exact H1].
  - destruct (Hsel eq_refl) as [-> ->].
    destruct tm as [dl|]; [apply Hpend; [lia | exact HI] | exact HI].
Qed.

(** The same for a file event at instant [t]. *)
Lemma notify_closed (I I' : Loop -> Prop) t l :
  closed_under_expiry duration (Some t) I ->
  closed_under_return wait (Some t) I ->
  event_inside_snapshot t I I' ->
  event_at_select wait t I I' ->
  drained l -> I l -> I' (notify wait duration l t).
Proof.
  intros Hexp Hret Hin Hsel Hd HI.
  pose proof (advance_closed I t l Hexp Hret Hd HI) as HA.
  destruct (advance_is_complete wait duration t l Hd) as [Hdue (Hcap & Hs & Hb)].
  unfold notify.
  destruct (advance wait duration advance_fuel t l) as [tm bs st c q rc ats].
  cbn [chan busy timer queued] in *.
  unfold file_event. cbn [busy timer chan queued stopped received attempts].
  unfold backupRequestChan_capacity in *. unfold nothing_due in Hdue.
  cbn [busy timer] in Hdue.
  destruct bs as [fin|].
  - assert (tm = None) by (apply Hb; discriminate). subst tm.
    unfold notifier_sends, backupRequestChan_capacity.
    cbn [busy timer chan queued stopped received attempts].
    pose proof (Hin fin st c q rc ats Hdue Hcap HA) as H1.
    destruct c as [|[|c]]; [exact H1 | exact H1 | lia].
  - destruct (Hs eq_refl) as [-> ->].
    rewrite settle_all_takes_all by (simpl; lia).
    unfold took. cbn [busy stopped received attempts queued chan].
    exact (Hsel tm st rc ats Hdue HA).
Qed.

(** The same for the loop left alone until nothing is left to do. *)
Lemma quiesce_closed (I : Loop -> Prop) l fuel :
  closed_under_expiry duration None I ->
  closed_under_return wait None I ->
  (4 <= fuel)%nat ->
  drained l -> I l -> I (quiesce wait duration fuel l).
Proof.
  intros Hexp Hret Hf (Hcap & Hsel & Hbusy) HI.
  destruct l as [tm bs st c q rc ats]. cbn [chan busy timer queued] in *.
  unfold backupRequestChan_capacity in Hcap.
  assert (Hpend : forall f dl rc' ats',
            (2 <= f)%nat ->
            I (mkLoop (Some dl) None st 0 0 rc' ats') ->
            I (quiesce wait duration f (mkLoop (Some dl) None st 0 0 rc' ats'))).
  { intros f dl rc' ats' Hf' HI'.
    destruct f as [|f]; [lia|]. cbn [quiesce busy timer].
    unfold backupLoop_case; cbn [busy timer chan queued stopped received attempts].
    pose proof (Hexp dl st rc' ats' Logic.I HI') as H1.
    destruct f as [|f]; [lia|]. cbn [quiesce busy timer].
    unfold createBackup_returns; cbn [busy timer chan queued stopped received attempts].
    rewrite settle_all_nothing by reflexivity.
    pose proof (Hret (dl + D dl)%Z st 0%nat 0%nat rc' (ats' ++ [dl])%list Logic.I
                  (Nat.le_0_l 1) H1) as H2.
    cbn [Nat.add Nat.eqb] in H2.
    destruct f; exact H2. }
  destruct bs as [fin|].
  - assert (tm = None) by (apply Hbusy; discriminate). subst tm.
    pose proof (Hret fin st c q rc ats Logic.I Hcap HI) as H1.
    destruct fuel as [|fuel]; [lia|]. cbn [quiesce busy timer].
    unfold createBackup_returns; cbn [busy timer chan queued stopped received attempts].
    destruct (Nat.eq_dec (q + c) 0) as [Hz|Hnz].
    + assert (q = 0%nat) by lia. assert (c = 0%nat) by lia. subst.
      rewrite settle_all_nothing by reflexivity.
      cbn [Nat.add Nat.eqb] in H1. destruct fuel; exact H1.
    + rewrite settle_all_takes_all by (simpl; lia).
      unfold took. cbn [busy stopped received attempts queued chan].
      apply Hpend; [lia|].
      destruct (Nat.eqb_spec (q + c) 0); [contradiction | exact H1].
  - destruct (Hsel eq_refl) as [-> ->].
    destruct tm as [dl|]; [apply Hpend; [lia | exact HI]|].
    destruct fuel; exact HI.
Qed.

End LoopMoves.

(* ================================================================== *)
(** * Counting events, requests and attempts                           *)
(* ================================================================== *)

Section Accounting.

Variable wait : Z.
Variable duration : Z -> Z.
Variable l0 : Loop.

Lemma accounted_expiry k bound :
  closed_under_expiry duration bound (accounted l0 k).
Proof.
  intros dl st rc ats _ (Hh & Hr & Hs & more & Ha & Hle & Hpos).
  unfold accounted, heard, armed in *.
  cbn [timer busy stopped chan queued received attempts] in *.
  split; [exact Hh|]. split; [exact Hr|]. split; [exact Hs|].
  exists (more ++ [dl])%list. rewrite Ha, app_assoc, length_app. cbn [List.length].
  split; [reflexivity|]. split; lia.
Qed.

Lemma accounted_return k bound :
  closed_under_return wait bound (accounted l0 k).
Proof.
  intros fin st c q rc ats _ Hc (Hh & Hr & Hs & more & Ha & Hle & Hpos).
  unfold accounted, heard, armed in *.
  cbn [timer busy stopped chan queued received attempts] in *.
  destruct (Nat.eqb_spec (q + c) 0) as [Hz|Hnz];
    cbn [timer busy stopped chan queued received attempts].
  - split; [lia|]. split; [exact Hr|]. split; [exact Hs|].
    exists more. split; [exact Ha|]. split; [lia | exact Hpos].
  - split; [lia|]. split; [lia|]. split; [exact Hs|].
    exists more. split; [exact Ha|]. split; lia.
Qed.

Lemma accounted_inside k t :
  event_inside_snapshot t (accounted l0 k) (accounted l0 (S k)).
Proof.
  intros fin st c q rc ats _ Hc (Hh & Hr & Hs & more & Ha & Hle & Hpos).
  unfold accounted, heard, armed in *.
  cbn [timer busy stopped chan queued received attempts] in *.
  split; [destruct c as [|[|c]]; cbn [Nat.eqb]; lia|].
  split; [exact Hr|]. split; [exact Hs|].
  exists more. split; [exact Ha|]. split; [exact Hle | exact Hpos].
Qed.

Lemma accounted_select k t :
  event_at_select wait t (accounted l0 k) (accounted l0 (S k)).
Proof.
  intros tm st rc ats _ (Hh & Hr & Hs & more & Ha & Hle & Hpos).
  unfold accounted, heard, armed in *.
  cbn [timer busy stopped chan queued received attempts] in *.
  split; [lia|]. split; [lia|]. split; [exact Hs|].
  exists more. split; [exact Ha|]. destruct tm; split; lia.
Qed.

Lemma accounted_start : accounted l0 0 l0.
Proof.
  unfold accounted. split; [lia|]. split; [lia|]. split; [reflexivity|].
  exists []. rewrite app_nil_r. split; [reflexivity|]. cbn [List.length].
  split; lia.
Qed.

Lemma run_accounted events : forall k l,
  drained l -> accounted l0 k l ->
  accounted l0 (k + List.length events) (run wait duration events l).
Proof.
  induction events as [|t events IH]; intros k l Hd Ha.
  - cbn [List.length]. rewrite Nat.add_0_r. exact Ha.
  - rewrite run_cons. cbn [List.length].
    replace (k + S (List.length events))%nat with (S k + List.length events)%nat by lia.
    apply IH; [apply notify_drained; exact Hd|].
    apply (notify_closed wait duration (accounted l0 k) (accounted l0 (S k)));
      auto using accounted_expiry, accounted_return, accounted_inside,
        accounted_select.
Qed.

(** X16.  The books of the debounce loop.  From a loop that is at its
    [select] with the channel empty, or inside a snapshot, and for any file
    events at any instants and any running times of the snapshots: no event
    is lost or counted twice (each one is received, waits in the channel or
    waits with the notifier), and once the loop has come to rest every one
    of them has been received.  The attempts made before stay in the list;
    the attempts made since are at most one per request received since,
    plus one if the timer was armed at the beginning; and if any request was
    received, at least one attempt was made.  The loop never takes the stop
    case. *)
Theorem X16_debounce_accounting (events : list Z) (fuel : nat) :
  drained l0 -> (4 <= fuel)%nat ->
  let l := run wait duration events l0 in
  let l' := quiesce wait duration fuel l in
  heard l = (heard l0 + List.length events)%nat
  /\ received l' = (heard l0 + List.length events)%nat
  /\ chan l' = 0%nat /\ queued l' = 0%nat
  /\ stopped l' = stopped l0
  /\ exists more,
       attempts l' = (attempts l0 ++ more)%list
       /\ (List.length more
           <= armed l0 + chan l0 + queued l0 + List.length events)%nat
       /\ ((0 < chan l0 + queued l0 + List.length events)%nat ->
           (1 <= List.length more)%nat).
Proof.
  intros Hd Hf l l'.
  pose proof (run_accounted events 0 l0 Hd accounted_start) as Hrun.
  cbn [Nat.add] in Hrun. fold l in Hrun.
  pose proof (run_drained wait duration events l0 Hd) as Hdl. fold l in Hdl.
  pose proof (quiesce_closed wait duration (accounted l0 (List.length events)) l fuel
                (accounted_expiry _ None) (accounted_return _ None) Hf Hdl Hrun)
    as Hq.
  fold l' in Hq.
  pose proof (quiesce_is_complete wait duration l fuel Hdl Hf) as (Ht & Hb & Hc & Hqd).
  fold l' in Ht, Hb, Hc, Hqd.
  destruct Hrun as (Hh & _).
  destruct Hq as (Hh' & Hr' & Hs' & more & Ha & Hle & Hpos).
  unfold heard, armed in *. rewrite Ht, Hc, Hqd in *.
  split; [exact Hh|]. split; [lia|]. split; [reflexivity|]. split; [reflexivity|].
  split; [exact Hs'|].
  exists more. split; [exact Ha|]. split; lia.
Qed.

End Accounting.

Lemma X16_debounce_accounting_witness :
  drained idle /\ (4 <= 4)%nat
  /\ received (quiesce 1000000000 (fun _ => 3000000000%Z) 4
                 (run 1000000000 (fun _ => 3000000000%Z) five_files_500ms_apart idle))
     = 5%nat.
Proof.
  assert (Hd : drained idle).
  { unfold drained, idle, backupRequestChan_capacity. simpl.
    split; [lia|]. split; [auto | congruence]. }
  split; [exact Hd|]. split; [lia|].
  exact (proj1 (proj2 (X16_debounce_accounting 1000000000 (fun _ => 3000000000%Z)
                         idle five_files_500ms_apart 4 Hd (le_n 4)))).
Defined.

(* ================================================================== *)
(** * The distance between attempts, and the attempt after the last event *)
(* ================================================================== *)

Lemma neighbours_snoc (P : Z -> Z -> Prop) x : forall ts,
  neighbours P ts -> Forall (fun a => P a x) ts -> neighbours P (ts ++ [x])%list.
Proof.
  induction ts as [|a ts IH]; intros Hn Hall; [exact Logic.I|].
  inversion Hall as [|? ? Ha Hrest]; subst.
  destruct ts as [|b ts].
  - simpl. auto.
  - destruct Hn as [Hab Hn]. split; [exact Hab|]. apply IH; assumption.
Qed.

Section Spacing.

Variable wait : Z.
Variable duration : Z -> Z.

Local Notation "'W'" := (Z.max 0 wait).

Lemma spaced_expiry bound clock :
  closed_under_expiry duration bound (spaced W clock).
Proof.
  intros dl st rc ats _ (Hn & _ & Hdl).
  unfold spaced in *. cbn [timer busy attempts] in *. split.
  - apply neighbours_snoc; assumption.
  - apply Forall_app. split.
    + eapply Forall_impl; [|exact Hdl]. intros a Ha. cbv beta in Ha. lia.
    + constructor; [lia | constructor].
Qed.

Lemma spaced_return_until t :
  closed_under_return wait (Some t) (spaced W (Some t)).
Proof.
  intros fin st c q rc ats Hle _ (Hn & Hfin).
  unfold spaced in *. cbn [timer busy attempts] in *.
  destruct (q + c =? 0)%nat; cbn [timer busy attempts];
    (split; [exact Hn|]); split; try exact Logic.I;
    eapply Forall_impl; try exact Hfin; intros a Ha; cbv beta in Ha; lia.
Qed.

Lemma spaced_return_free :
  closed_under_return wait None (spaced W None).
Proof.
  intros fin st c q rc ats _ _ (Hn & Hfin).
  unfold spaced in *. cbn [timer busy attempts] in *.
  destruct (q + c =? 0)%nat; cbn [timer busy attempts];
    (split; [exact Hn|]); split; try exact Logic.I;
    eapply Forall_impl; try exact Hfin; intros a Ha; cbv beta in Ha; lia.
Qed.

Lemma spaced_inside t :
  event_inside_snapshot t (spaced W (Some t)) (spaced W (Some t)).
Proof. intros fin st c q rc ats _ _ H. exact H. Qed.

Lemma spaced_select t :
  event_at_select wait t (spaced W (Some t)) (spaced W (Some t)).
Proof.
  intros tm st rc ats _ (Hn & Hc & _).
  unfold spaced in *. cbn [timer busy attempts] in *.
  split; [exact Hn|]. split; [exact Hc|].
  eapply Forall_impl; [|exact Hc]. intros a Ha. cbv beta in Ha. lia.
Qed.

Lemma spaced_later c t l :
  (c <= t)%Z -> spaced W (Some c) l -> spaced W (Some t) l.
Proof.
  intros Hle (Hn & H). split; [exact Hn|].
  destruct (busy l); [exact H|]. destruct H as [Hc Ht]. split; [|exact Ht].
  eapply Forall_impl; [|exact Hc]. intros a Ha. cbv beta in Ha. lia.
Qed.

Lemma spaced_forget c l : spaced W (Some c) l -> spaced W None l.
Proof.
  intros (Hn & H). split; [exact Hn|].
  destruct (busy l); [exact H|]. destruct H as [_ Ht]. split; [exact Logic.I | exact Ht].
Qed.

Lemma run_keeps_spaced : forall events c l,
  drained l -> spaced W (Some c) l -> neighbours Z.le (c :: events) ->
  exists c', spaced W (Some c') (run wait duration events l).
Proof.
  induction events as [|t events IH]; intros c l Hd Hs Hsorted.
  - exists c. exact Hs.
  - destruct Hsorted as [Hle Hsorted]. rewrite run_cons.
    apply (IH t); [apply notify_drained; exact Hd | | exact Hsorted].
    apply (notify_closed wait duration (spaced W (Some t)) (spaced W (Some t)));
      auto using spaced_expiry, spaced_return_until, spaced_inside, spaced_select.
    apply (spaced_later c); assumption.
Qed.

(** X17.  Attempts keep their distance.  From a loop that has made no
    attempt yet, for file events at instants in order and any running times
    of the snapshots, two snapshot attempts in a row are never less than the
    wait time apart. *)
Theorem X17_attempts_are_a_wait_time_apart (l0 : Loop) (events : list Z) (fuel : nat) :
  drained l0 -> attempts l0 = [] -> (4 <= fuel)%nat ->
  neighbours Z.le events ->
  neighbours (fun a b => a + Z.max 0 wait <= b)%Z
    (attempts (quiesce wait duration fuel (run wait duration events l0))).
Proof.
  intros Hd Hnone Hf Hsorted.
  assert (Hstart : forall c, spaced W (Some c) l0).
  { intros c. unfold spaced. rewrite Hnone. split; [exact Logic.I|].
    destruct (busy l0); [constructor|]. split; [constructor|].
    destruct (timer l0); [constructor | exact Logic.I]. }
  assert (Hrun : exists c', spaced W (Some c') (run wait duration events l0)).
  { destruct events as [|t events]; [exists 0%Z; apply Hstart|].
    rewrite run_cons.
    apply (run_keeps_spaced events t);
      [apply notify_drained; exact Hd | | exact Hsorted].
    apply (notify_closed wait duration (spaced W (Some t)) (spaced W (Some t)));
      auto using spaced_expiry, spaced_return_until, spaced_inside, spaced_select. }
  destruct Hrun as [c' Hrun]. apply spaced_forget in Hrun.
  pose proof (run_drained wait duration events l0 Hd) as Hdl.
  exact (proj1 (quiesce_closed wait duration (spaced W None) _ fuel
                  (spaced_expiry None None) spaced_return_free Hf Hdl Hrun)).
Qed.

Lemma served_expiry bound t :
  closed_under_expiry duration bound (served W t).
Proof.
  intros dl st rc ats _ [(a & Hin & Ha) | [(_ & dl' & Hdl & Hle) | (fin & Hb & _)]];
    cbn [timer busy attempts chan queued] in *.
  - left. exists a. split; [apply in_or_app; left; exact Hin | exact Ha].
  - injection Hdl as <-. left. exists dl.
    split; [apply in_or_app; right; left; reflexivity | exact Hle].
  - discriminate.
Qed.

Lemma served_return bound t :
  closed_under_return wait bound (served W t).
Proof.
  intros fin st c q rc ats _ _ [(a & Hin & Ha) | [(Hb & _) | (fin' & Hb & Hle & Hpos)]];
    cbn [timer busy attempts chan queued] in *.
  - left. exists a. destruct (q + c =? 0)%nat; split; assumption.
  - discriminate.
  - injection Hb as <-. destruct (Nat.eqb_spec (q + c) 0) as [Hz|Hnz]; [lia|].
    right. left. cbn [timer busy]. split; [reflexivity|].
    exists (fin + W)%Z. split; [reflexivity | lia].
Qed.

Lemma served_inside t I : event_inside_snapshot t I (served W t).
Proof.
  intros fin st c q rc ats Hlt _ _. right. right. exists fin.
  cbn [timer busy attempts chan queued]. split; [reflexivity|]. split; lia.
Qed.

Lemma served_select t I : event_at_select wait t I (served W t).
Proof.
  intros tm st rc ats _ _. right. left. cbn [timer busy]. split; [reflexivity|].
  exists (t + W)%Z. split; [reflexivity | lia].
Qed.

(** X18.  The last file event is followed by a snapshot attempt.  From a
    loop that is at its [select] with the channel empty, or inside a
    snapshot, whatever file events came before and however long the
    snapshots run: once the loop has come to rest, an attempt was made no
    sooner than the wait time after the last event, and so after every
    event that was not later than the last one. *)
Theorem X18_last_event_is_followed_by_an_attempt
    (l0 : Loop) (before : list Z) (t : Z) (fuel : nat) :
  drained l0 -> (4 <= fuel)%nat ->
  exists a,
    In a (attempts (quiesce wait duration fuel
                      (run wait duration (before ++ [t]) l0)))
    /\ (t + Z.max 0 wait <= a)%Z
    /\ forall e, In e before -> (e <= t)%Z -> (e + Z.max 0 wait <= a)%Z.
Proof.
  intros Hd Hf.
  pose proof (run_drained wait duration before l0 Hd) as Hdb.
  assert (Hrun : run wait duration (before ++ [t]) l0
                 = notify wait duration (run wait duration before l0) t).
  { unfold run. rewrite fold_left_app. reflexivity. }
  rewrite Hrun.
  assert (Hs : served W t (notify wait duration (run wait duration before l0) t)).
  { apply (notify_closed wait duration (fun _ => True) (served W t)); auto.
    - intros dl st rc ats _ _. exact Logic.I.
    - intros fin st c q rc ats _ _ _. exact Logic.I.
    - apply served_inside.
    - apply served_select. }
  pose proof (notify_drained wait duration _ t Hdb) as Hdn.
  pose proof (quiesce_closed wait duration (served W t) _ fuel
                (served_expiry None t) (served_return None t) Hf Hdn Hs) as Hq.
  destruct (quiesce_is_complete wait duration _ fuel Hdn Hf) as (Ht & Hb & _).
  destruct Hq as [(a & Hin & Ha) | [(_ & dl & Hdl & _) | (fin & Hfin & _)]].
  - exists a. split; [exact Hin|]. split; [exact Ha|]. intros e _ He. lia.
  - rewrite Ht in Hdl. discriminate.
  - rewrite Hb in Hfin. discriminate.
Qed.

End Spacing.

Lemma X17_attempts_are_a_wait_time_apart_witness :
  drained idle /\ attempts idle = [] /\ (4 <= 4)%nat
  /\ neighbours Z.le [0; 1100000000; 9000000000]%Z
  /\ neighbours (fun a b => a + Z.max 0 1000000000 <= b)%Z
       (attempts (quiesce 1000000000 (fun _ => 3000000000%Z) 4
                    (run 1000000000 (fun _ => 3000000000%Z)
                       [0; 1100000000; 9000000000]%Z idle))).
Proof.
  assert (Hd : drained idle).
  { unfold drained, idle, backupRequestChan_capacity. simpl.
    split; [lia|]. split; [auto | congruence]. }
  assert (Hs : neighbours Z.le [0; 1100000000; 9000000000]%Z)
    by (simpl; lia).
  split; [exact Hd|]. split; [reflexivity|]. split; [lia|]. split; [exact Hs|].
  exact (X17_attempts_are_a_wait_time_apart 1000000000 (fun _ => 3000000000%Z) idle
           [0; 1100000000; 9000000000]%Z 4 Hd eq_refl (le_n 4) Hs).
Defined.

Lemma X18_last_event_is_followed_by_an_attempt_witness :
  drained idle /\ (4 <= 4)%nat
  /\ exists a,
       In a (attempts (quiesce 1000000000 (fun _ => 3000000000%Z) 4
                         (run 1000000000 (fun _ => 3000000000%Z)
                            ([0; 1100000000]%Z ++ [1200000000%Z])%list idle)))
       /\ (1200000000 + Z.max 0 1000000000 <= a)%Z.
Proof.
  assert (Hd : drained idle).
  { unfold drained, idle, backupRequestChan_capacity. simpl.
    split; [lia|]. split; [auto | congruence]. }
  split; [exact Hd|]. split; [lia|].
  destruct (X18_last_event_is_followed_by_an_attempt 1000000000
              (fun _ => 3000000000%Z) idle [0; 1100000000]%Z 1200000000%Z 4 Hd (le_n 4))
    as (a & Hin & Ha & _).
  exists a. split; [exact Hin | exact Ha].
Defined.

(* ================================================================== *)
(** * The folder of a record is never used twice                       *)
(* ================================================================== *)

Lemma disk_after_keeps disk trace p :
  on_disk disk p = true -> on_disk (disk_after disk trace) p = true.
Proof.
  intros H. apply on_disk_In. apply on_disk_In in H.
  unfold disk_after. apply in_or_app. right. exact H.
Qed.

Lemma disk_after_stat disk p : disk_after disk [EStat p] = disk.
Proof. reflexivity. Qed.

Section CollisionGuard.

Variable Format : string -> GoTime.Time -> string.
Variable cb : Callbacks.
Variable copy : Z -> nat -> CopyResult.
Variable write : Z -> bool.

(** One attempt: what it leaves in the history and on disk. *)
Lemma replay_step t disk w :
  mu w = false ->
  let target := target_of Format w t in
  let b := record_of Format (FolderFormat w) (instant t) in
  let w1 := set_Metadata (Metadata w ++ [b])%list w in
  (on_disk disk target = true /\
   createBackup Format cb (attempt_env copy write disk t) w
   = Returns tt w [EStat target])
  \/ (on_disk disk target = false /\
      exists called,
        let trace := (EStat target
                      :: copy_trace (attempt_env copy write disk t) (Source w)
                           target 100 0
                      ++ [EWriteFile (metadataJSONPath w) (Metadata w ++ [b])
                            (write t)]
                      ++ map EOnBackupCompletion called)%list in
        createBackup Format cb (attempt_env copy write disk t) w
        = Returns tt w1 trace
        \/ createBackup Format cb (attempt_env copy write disk t) w
           = Blocks (set_mu true w1) trace).
Proof.
  intros Hmu target b w1.
  rewrite (createBackup_outcome Format cb (attempt_env copy write disk t) w Hmu).
  cbv zeta. cbn [path_exists now write_ok attempt_env].
  change (GoPath.Join (Destination w) (Format (FolderFormat w) (instant t)))
    with target.
  fold b. fold w1.
  destruct (on_disk disk target) eqn:E; [left; auto|].
  right. split; [reflexivity|].
  assert (Hmu1 : mu w1 = false) by (destruct w; exact Hmu).
  destruct (notifyObservers_outcome cb w1 Hmu1) as (called & _ & [[-> _] | [-> _]]);
    exists called; cbn [prepend app]; rewrite <- app_assoc; cbn [app]; auto.
Qed.

(** X19.  The check of the target folder keeps the folders of the history
    apart.  Let the history name each folder once, let every folder it
    names be on disk, and let the first call of [cp.Copy] of every attempt
    leave the target folder behind (it creates it before it copies).  Then,
    whatever the instants of the attempts, the layout, the later results of
    [cp.Copy] and of the write, and whatever the observers do: after the
    attempts the history still names each folder once, and every folder it
    names is on disk. *)
Theorem X19_history_names_each_folder_once (ts : list Z) :
  forall (disk : list string) (w : Watcher),
    mu w = false ->
    (forall t, In t ts -> leaves_target (copy t 0) = true) ->
    NoDup (map Path (Metadata w)) ->
    (forall b, In b (Metadata w) ->
               on_disk disk (GoPath.Join (Destination w) (Path b)) = true) ->
    let r := replay Format cb copy write ts disk w in
    NoDup (map Path (Metadata (fst r)))
    /\ forall b, In b (Metadata (fst r)) ->
                 on_disk (snd r) (GoPath.Join (Destination w) (Path b)) = true.
Proof.
  induction ts as [|t ts IH]; intros disk w Hmu Hcopy Hnd Hdisk; [split; assumption|].
  cbv zeta. cbn [replay].
  set (target := target_of Format w t).
  set (b := record_of Format (FolderFormat w) (instant t)).
  set (w1 := set_Metadata (Metadata w ++ [b])%list w).
  destruct (replay_step t disk w Hmu) as [[Hon ->] | [Hoff (called & Hcase)]].
  - rewrite disk_after_stat.
    apply IH; auto. intros t' Hin. apply Hcopy. right. exact Hin.
  - fold target b w1 in Hcase. cbv zeta in Hcase.
    set (trace := (EStat target
                   :: copy_trace (attempt_env copy write disk t) (Source w)
                        target 100 0
                   ++ [EWriteFile (metadataJSONPath w) (Metadata w ++ [b]) (write t)]
                   ++ map EOnBackupCompletion called)%list) in Hcase.
    assert (Hpath : Path b = Format (FolderFormat w) (instant t)) by reflexivity.
    assert (Hmd : Metadata w1 = (Metadata w ++ [b])%list) by (destruct w; reflexivity).
    assert (Hdst : Destination w1 = Destination w) by (destruct w; reflexivity).
    assert (Hmu1 : mu w1 = false) by (destruct w; exact Hmu).
    assert (Hnd1 : NoDup (map Path (Metadata w1))).
    { rewrite Hmd, map_app. cbn [map].
      apply NoDup_app; [exact Hnd | repeat constructor; intros [] |].
      intros p Hp [<- | []]. apply in_map_iff in Hp. destruct Hp as (b' & Hb' & Hin).
      specialize (Hdisk b' Hin). rewrite Hb', Hpath in Hdisk.
      unfold target, target_of in Hoff. congruence. }
    assert (Htarget : on_disk (disk_after disk trace) target = true).
    { apply on_disk_In. unfold disk_after. apply in_or_app. left.
      unfold trace. cbn [flat_map app].
      change (copy_trace (attempt_env copy write disk t) (Source w) target 100 0)
        with (match copy t 0 with
              | Copied => [ECopy (Source w) target Copied]
              | CopyFailed leftTarget =>
                  ECopy (Source w) target (CopyFailed leftTarget)
                  :: ESleep 100
                  :: copy_trace (attempt_env copy write disk t) (Source w) target 99 1
              end).
      pose proof (Hcopy t (or_introl eq_refl)) as Hl.
      destruct (copy t 0) as [|[|]]; try discriminate; cbn; left; reflexivity. }
    assert (Hdisk1 : forall b', In b' (Metadata w1) ->
              on_disk (disk_after disk trace)
                (GoPath.Join (Destination w1) (Path b')) = true).
    { intros b' Hin. rewrite Hmd in Hin. rewrite Hdst.
      apply in_app_or in Hin. destruct Hin as [Hin | [<- | []]].
      - apply disk_after_keeps. apply Hdisk. exact Hin.
      - exact Htarget. }
    destruct Hcase as [-> | ->].
    + rewrite <- Hdst. apply IH; auto. intros t' Hin. apply Hcopy. right. exact Hin.
    + cbn [fst snd].
      replace (Metadata (set_mu true w1)) with (Metadata w1) by (destruct w; reflexivity).
      rewrite <- Hdst. split; assumption.
Qed.

End CollisionGuard.

Lemma X19_history_names_each_folder_once_witness :
  mu seconds_watcher = false
  /\ NoDup (map Path (Metadata (fst
       (replay GoTime.utcFormat no_callbacks copy_always_works write_always_works
          [1000000000; 61500000000]%Z [] seconds_watcher)))).
Proof.
  split; [reflexivity|].
  refine (proj1 (X19_history_names_each_folder_once GoTime.utcFormat no_callbacks
                   copy_always_works write_always_works
                   [1000000000; 61500000000]%Z [] seconds_watcher eq_refl _ _ _)).
  - intros t _. reflexivity.
  - constructor.
  - intros b [].
Defined.

(* ================================================================== *)
(** * Attempts whose copies all fail                                   *)
(* ================================================================== *)

Lemma copy_trace_leaves_nothing env s d n : forall i,
  (forall j, copy_result env j = CopyFailed false) ->
  disk_after [] (copy_trace env s d n i) = []
  /\ List.length (copies (copy_trace env s d n i)) = n.
Proof.
  induction n as [|n IH]; intros i Hfail; [split; reflexivity|].
  cbn [copy_trace]. rewrite (Hfail i).
  destruct (IH (S i) Hfail) as [IH1 IH2].
  unfold disk_after in *. cbn. rewrite app_nil_r in *. split; [exact IH1|].
  f_equal. exact IH2.
Qed.

Lemma disk_after_app disk a b :
  disk_after disk (a ++ b) = (disk_after [] a ++ disk_after disk b)%list.
Proof.
  unfold disk_after. rewrite flat_map_app, app_nil_r, app_assoc. reflexivity.
Qed.

Lemma disk_after_callbacks disk l :
  disk_after disk (map EOnBackupCompletion l) = disk.
Proof.
  unfold disk_after. induction l as [|o l IH]; [reflexivity|]. exact IH.
Qed.

Section FailedCopies.

Variable Format : string -> GoTime.Time -> string.
Variable cb : Callbacks.
Variable copy : Z -> nat -> CopyResult.
Variable write : Z -> bool.

(** X20.  A snapshot attempt records a backup whatever became of the
    copies.  With callbacks that leave the registry alone: if at every
    attempt the target folder is not on disk and each of the hundred calls
    of [cp.Copy] fails without leaving the folder behind, every attempt
    still appends its record, and the disk is left as it was.  The history
    then names folders that do not exist, and names a folder twice when two
    of the instants are formatted alike. *)
Theorem X20_failed_copies_are_recorded (ts : list Z) :
  forall (disk : list string) (w : Watcher),
    passive cb ->
    mu w = false ->
    (forall t i, In t ts -> copy t i = CopyFailed false) ->
    (forall t, In t ts -> on_disk disk (target_of Format w t) = false) ->
    let r := replay Format cb copy write ts disk w in
    Metadata (fst r)
    = (Metadata w ++ map (fun t => record_of Format (FolderFormat w) (instant t)) ts)%list
    /\ snd r = disk
    /\ forall t, In t ts -> on_disk (snd r) (target_of Format w t) = false.
Proof.
  induction ts as [|t ts IH]; intros disk w Hp Hmu Hfail Hfree.
  - cbn. rewrite app_nil_r. repeat split. intros t [].
  - cbv zeta. cbn [replay].
    set (env := attempt_env copy write disk t).
    rewrite (createBackup_outcome Format cb env w Hmu). cbv zeta.
    cbn [path_exists now write_ok attempt_env env].
    change (GoPath.Join (Destination w) (Format (FolderFormat w) (instant t)))
      with (target_of Format w t).
    rewrite (Hfree t (or_introl eq_refl)).
    set (b := record_of Format (FolderFormat w) (instant t)).
    set (w1 := set_Metadata (Metadata w ++ [b])%list w).
    assert (Hmu1 : mu w1 = false) by (destruct w; exact Hmu).
    rewrite (notifyObservers_passive cb w1 Hp Hmu1). cbn [prepend].
    assert (Henv : forall j, copy_result (attempt_env copy write disk t) j
                             = CopyFailed false).
    { intros j. cbn [copy_result attempt_env]. apply Hfail. left. reflexivity. }
    assert (Hdisk : forall m,
              disk_after disk
                ((EStat (target_of Format w t)
                  :: copy_trace (attempt_env copy write disk t) (Source w)
                       (target_of Format w t) 100 0
                  ++ [EWriteFile (metadataJSONPath w) (Metadata w ++ [b]) (write t)])
                 ++ map EOnBackupCompletion m)%list = disk).
    { intros m.
      change (EStat ?p :: ?l ++ ?r)%list with ([EStat p] ++ l ++ r)%list.
      rewrite !disk_after_app, disk_after_callbacks.
      rewrite (proj1 (copy_trace_leaves_nothing _ _ _ 100 0 Henv)). reflexivity. }
    rewrite Hdisk.
    assert (Htg : forall x, target_of Format w1 x = target_of Format w x)
      by (intros x; destruct w; reflexivity).
    assert (Hff : FolderFormat w1 = FolderFormat w) by (destruct w; reflexivity).
    assert (Hmd : Metadata w1 = (Metadata w ++ [b])%list) by (destruct w; reflexivity).
    destruct (IH disk w1 Hp Hmu1) as (H1 & H2 & H3).
    + intros t' i Hin. apply Hfail. right. exact Hin.
    + intros t' Hin. rewrite Htg. apply Hfree. right. exact Hin.
    + cbv zeta in H1, H2, H3. rewrite H1, H2, Hff, Hmd, <- app_assoc.
      split; [reflexivity|]. split; [reflexivity|]. exact Hfree.
Qed.

End FailedCopies.

Lemma X20_failed_copies_are_recorded_witness :
  passive no_callbacks
  /\ mu seconds_watcher = false
  /\ map Path (Metadata (fst
       (replay GoTime.utcFormat no_callbacks (fun _ _ => CopyFailed false)
          write_always_works [1000000000; 61000000000]%Z [] seconds_watcher)))
     = ["01"; "01"].
Proof.
  assert (Hp : passive no_callbacks) by (intros o; reflexivity).
  split; [exact Hp|]. split; [reflexivity|].
  rewrite (proj1 (X20_failed_copies_are_recorded GoTime.utcFormat no_callbacks
                    (fun _ _ => CopyFailed false) write_always_works
                    [1000000000; 61000000000]%Z [] seconds_watcher Hp eq_refl
                    (fun _ _ _ => eq_refl) (fun _ _ => eq_refl))).
  vm_compute. reflexivity.
Defined.

Section SnapshotFrame.

Variable Format : string -> GoTime.Time -> string.

(** X21.  A snapshot attempt, started with the mutex free, touches nothing
    of the watcher but the history, to which it adds one record at most,
    and, when it stays blocked, the mutex it holds.  Whatever the observers
    do when they are called back, the configuration, the registry, the
    fsnotify watcher and the request channel are as before: a call of
    [AddObserver] or [RemoveObserver] from a callback never gets to change
    the registry. *)
Theorem X21_createBackup_touches_the_history_only cb env w :
  mu w = false ->
  let w' := final_watcher (createBackup Format cb env w) in
  set_mu false (set_Metadata (Metadata w) w') = w
  /\ customObservers w' = customObservers w
  /\ (exists more,
         Metadata w' = (Metadata w ++ more)%list /\ (List.length more <= 1)%nat)
  /\ (mu w' = true <-> exists w'' t, createBackup Format cb env w = Blocks w'' t).
Proof.
  intros Hmu. cbv zeta.
  destruct (createBackup_cases Format cb env w Hmu) as [[t ->] | [[t ->] | [t ->]]];
    cbn [final_watcher].
  - split; [destruct w; cbn in *; subst; reflexivity|]. split; [reflexivity|].
    split; [exists []; rewrite app_nil_r; auto|].
    rewrite Hmu. split; [discriminate | intros (? & ? & H); discriminate].
  - split; [destruct w; cbn in *; subst; reflexivity|].
    split; [destruct w; reflexivity|].
    split; [eexists; split; [destruct w; reflexivity | simpl; lia]|].
    replace (mu (set_Metadata _ w)) with false by (destruct w; cbn in *; congruence).
    split; [discriminate | intros (? & ? & H); discriminate].
  - split; [destruct w; cbn in *; subst; reflexivity|].
    split; [destruct w; reflexivity|].
    split; [eexists; split; [destruct w; reflexivity | simpl; lia]|].
    split; [intros _; eauto | intros _; destruct w; reflexivity].
Qed.

End SnapshotFrame.

Lemma X21_createBackup_touches_the_history_only_witness :
  mu sample_watcher = false
  /\ customObservers
       (final_watcher (createBackup GoTime.utcFormat unregistering sample_snapshot_env
                         sample_watcher))
     = customObservers sample_watcher.
Proof.
  split; [reflexivity|].
  exact (proj1 (proj2 (X21_createBackup_touches_the_history_only GoTime.utcFormat
                         unregistering sample_snapshot_env sample_watcher eq_refl))).
Defined.

(* ================================================================== *)
(** * The earlier constructor and the present one                      *)
(* ================================================================== *)

Lemma errors_Is_earlier_app a b s :
  errors_Is_earlier (a ++ b)%list s = errors_Is_earlier a s || errors_Is_earlier b s.
Proof. unfold errors_Is_earlier. apply existsb_app. Qed.

Lemma errors_Is_earlier_Joined l s :
  errors_Is_earlier (map Joined l) s = errors_Is l s.
Proof.
  unfold errors_Is_earlier, errors_Is. induction l as [|e l IH]; [reflexivity|].
  cbn. rewrite IH. reflexivity.
Qed.

Section EarlierAndPresent.

Variable Format : string -> GoTime.Time -> string.

Lemma NewWatcher_earlier_parts env name source destination w f :
  NewWatcher_earlier Format env name source destination w f
  = (map Joined (validateName name [])
     ++ map Joined (validateWaitTime w [])
     ++ map Joined (validateSourceAndDestination env source destination [])
     ++ (match validateFolderFormat Format (probe_format env) w f [] with
         | [] => []
         | _ => [FolderFormatFindings
                   (validateFolderFormat_earlier Format (probe_format env) w f)]
         end)
     ++ map Joined (load_violations (metadata_file env)))%list.
Proof.
  unfold NewWatcher_earlier, validateName, validateWaitTime, errors_Join. cbv zeta.
  rewrite validateFolderFormat_cases. unfold validateFolderFormat_earlier.
  cbv zeta. unfold validateDirOld.
  destruct (name =? ""), (Qle_bool w 0),
    (validateSourceAndDestination env source destination []) as [|e1 l1],
    (formats_collide Format w f),
    (validateDir (probe_format env) f ErrorInvalidFolderFormat []) as [|e2 l2],
    (metadata_file env);
    cbn; rewrite ?app_nil_r, <- ?app_assoc; reflexivity.
Qed.

(** X22.  The earlier constructor and the present one, on the same
    arguments in the same environment.  They accept the same
    configurations.  Their errors answer alike to the sentinels of the
    name, the wait time, the source and the destination.  They differ on
    the folder-format sentinel: the earlier error answers to it as soon as
    the folder-format check finds anything, a failed [os.MkdirAll]
    included, while the present one answers to it only on a collision of
    the two formatted instants or when [os.Stat] rejects the layout. *)
Theorem X22_earlier_and_present_constructor
    env name source destination (w : Q) f enabled :
  let earlier := NewWatcher_earlier Format env name source destination w f in
  let present := snd (NewWatcher Format env name source destination w f enabled) in
  (earlier = [] <-> present = [])
  /\ (forall s, s <> ErrorInvalidFolderFormat ->
                errors_Is_earlier earlier s = errors_Is present s)
  /\ (errors_Is_earlier earlier ErrorInvalidFolderFormat = true
      <-> validateFolderFormat Format (probe_format env) w f [] <> [])
  /\ (errors_Is present ErrorInvalidFolderFormat = true
      <-> formats_collide Format w f = true \/ stat_rejects (probe_format env)).
Proof.
  cbv zeta. rewrite NewWatcher_earlier_parts, NewWatcher_errors.
  set (n := validateName name []).
  set (wt := validateWaitTime w []).
  set (sd := validateSourceAndDestination env source destination []).
  set (ld := load_violations (metadata_file env)).
  assert (Hsd : forall s, errors_Is sd s = true ->
                          s = ErrorInvalidSource \/ s = ErrorInvalidDestination).
  { intros s. unfold sd. rewrite validateSourceAndDestination_cases.
    unfold validateDirOld. rewrite !errors_Is_app, !orb_true_iff, !validateDir_Is.
    destruct (snd (GoPath.Abs (getwd env) source)),
      (snd (GoPath.Abs (getwd env) destination)),
      (fst (GoPath.Abs (getwd env) source) =? fst (GoPath.Abs (getwd env) destination)),
      (GoPath.Rel (fst (GoPath.Abs (getwd env) source))
         (fst (GoPath.Abs (getwd env) destination))),
      (seen_inside (fst (GoPath.Abs (getwd env) source))
         (fst (GoPath.Abs (getwd env) destination)));
      cbn; rewrite ?orb_false_r, ?orb_true_iff, ?Sentinel_eqb_eq;
      intuition (try discriminate). }
  assert (Hff : forall s, errors_Is (validateFolderFormat Format (probe_format env) w f []) s
                          = true ->
                          s = ErrorInvalidFolderFormat).
  { intros s. rewrite validateFolderFormat_cases, errors_Is_app, orb_true_iff,
      validateDir_Is.
    destruct (formats_collide Format w f); cbn;
      rewrite ?orb_false_r, ?Sentinel_eqb_eq; intuition discriminate. }
  split; [|split; [|split]].
  - destruct n, wt, sd, ld,
      (validateFolderFormat Format (probe_format env) w f []);
      cbn; split; intros H; try discriminate; reflexivity.
  - intros s Hs.
    rewrite !errors_Is_earlier_app, !errors_Is_app, !errors_Is_earlier_Joined.
    f_equal. f_equal.
    replace (errors_Is (validateFolderFormat Format (probe_format env) w f []) s)
      with false.
    2:{ destruct (errors_Is (validateFolderFormat Format (probe_format env) w f []) s)
          eqn:E; [|reflexivity]. apply Hff in E. contradiction. }
    rewrite orb_false_l. rewrite (orb_comm (errors_Is sd s)).
    destruct (validateFolderFormat Format (probe_format env) w f []); cbn.
    + rewrite orb_comm. reflexivity.
    + destruct s; try contradiction; cbn; rewrite orb_comm; reflexivity.
  - rewrite !errors_Is_earlier_app, !errors_Is_earlier_Joined, !orb_true_iff.
    split.
    + intros [H | [H | [H | [H | H]]]].
      * unfold n in H. apply validateName_Is in H. destruct H; discriminate.
      * unfold wt in H. apply validateWaitTime_Is in H. destruct H; discriminate.
      * apply Hsd in H. destruct H; discriminate.
      * destruct (validateFolderFormat Format (probe_format env) w f []);
          [discriminate | discriminate].
      * unfold ld in H. rewrite load_violations_Is in H. discriminate.
    + intros H. right. right. right. left.
      destruct (validateFolderFormat Format (probe_format env) w f []);
        [contradiction | reflexivity].
  - rewrite !errors_Is_app, !orb_true_iff. split.
    + intros [H | [H | [H | [H | H]]]].
      * unfold n in H. apply validateName_Is in H. destruct H; discriminate.
      * unfold wt in H. apply validateWaitTime_Is in H. destruct H; discriminate.
      * rewrite validateFolderFormat_cases, errors_Is_app, orb_true_iff,
          validateDir_Is in H.
        destruct (formats_collide Format w f); [left; reflexivity|].
        destruct H as [H | [_ H]]; [discriminate | right; exact H].
      * apply Hsd in H. destruct H; discriminate.
      * unfold ld in H. rewrite load_violations_Is in H. discriminate.
    + intros H. right. right. left.
      rewrite validateFolderFormat_cases, errors_Is_app, orb_true_iff, validateDir_Is.
      destruct H as [-> | H]; [left; reflexivity | right; auto].
Qed.

End EarlierAndPresent.

Lemma X22_earlier_and_present_constructor_witness :
  snd (NewWatcher GoTime.utcFormat env_all_directories "Main Watcher" "/tmp/source"
         "/tmp/destination" 1 default_layout true) = []
  /\ NewWatcher_earlier GoTime.utcFormat env_all_directories "Main Watcher"
       "/tmp/source" "/tmp/destination" 1 default_layout = [].
Proof.
  assert (H : snd (NewWatcher GoTime.utcFormat env_all_directories "Main Watcher"
                     "/tmp/source" "/tmp/destination" 1 default_layout true) = [])
    by (vm_compute; reflexivity).
  split; [exact H|].
  exact (proj2 (proj1 (X22_earlier_and_present_constructor GoTime.utcFormat
                         env_all_directories "Main Watcher" "/tmp/source"
                         "/tmp/destination" 1 default_layout true)) H).
Defined.

(* ================================================================== *)
(** * The command line                                                 *)
(* ================================================================== *)

Section CommandLineFacts.

Variable Format : string -> GoTime.Time -> string.

Lemma NewWatcher_Is_parts env name source destination w f enabled s :
  errors_Is (snd (NewWatcher Format env name source destination w f enabled)) s
  = errors_Is (validateName name []) s
    || errors_Is (validateWaitTime w []) s
    || errors_Is (validateFolderFormat Format (probe_format env) w f []) s
    || errors_Is (validateSourceAndDestination env source destination []) s.
Proof.
  rewrite NewWatcher_errors, !errors_Is_app, load_violations_Is, orb_false_r.
  rewrite !orb_assoc. reflexivity.
Qed.

Lemma validateFolderFormat_Is_only os w f s :
  errors_Is (validateFolderFormat Format os w f []) s = true ->
  s = ErrorInvalidFolderFormat.
Proof.
  rewrite validateFolderFormat_cases, errors_Is_app, orb_true_iff, validateDir_Is.
  destruct (formats_collide Format w f); cbn;
    rewrite ?orb_false_r, ?Sentinel_eqb_eq; intuition discriminate.
Qed.

Lemma validateSourceAndDestination_Is_only env source destination s :
  errors_Is (validateSourceAndDestination env source destination []) s = true ->
  s = ErrorInvalidSource \/ s = ErrorInvalidDestination.
Proof.
  rewrite validateSourceAndDestination_cases.
  unfold validateDirOld. rewrite !errors_Is_app, !orb_true_iff, !validateDir_Is.
  destruct (snd (GoPath.Abs (getwd env) source)),
    (snd (GoPath.Abs (getwd env) destination)),
    (fst (GoPath.Abs (getwd env) source) =? fst (GoPath.Abs (getwd env) destination)),
    (GoPath.Rel (fst (GoPath.Abs (getwd env) source))
       (fst (GoPath.Abs (getwd env) destination))),
    (seen_inside (fst (GoPath.Abs (getwd env) source))
       (fst (GoPath.Abs (getwd env) destination)));
    cbn; rewrite ?orb_false_r, ?orb_true_iff, ?Sentinel_eqb_eq;
    intuition (try discriminate).
Qed.

(** X23.  What [main] can come to, given that [time.Format] tells the epoch
    from one second later under the layout of the command line.  It prints
    the usage and exits exactly when it is not given two arguments.  When
    it fails creating the watcher, the error is about the directories, the
    two paths or the metadata file: never about the name, the wait time or
    the precision of the layout.  When it fails starting the watcher, it is
    on the comparison with the latest backup of a history it has loaded:
    never because the watcher is disabled or already running.  The start
    always returns.  When [main] gets to wait for the signal, the notifier
    and the backup loop were started, and the initial backup was requested
    if no history was loaded. *)
Theorem X23_main_outcomes env fs (Args : list string) :
  formats_collide Format 1 "2006-01-02_15-04-05.000000" = false ->
  let o := main Format env fs Args in
  (o = UsageExit <-> List.length Args <> 3%nat)
  /\ (forall err, o = FatalCreating err ->
        err <> []
        /\ errors_Is err ErrorInvalidNameV2 = false
        /\ errors_Is err ErrorInvalidWaitTime = false
        /\ ~ In LacksPrecision err)
  /\ (forall e, o = FatalStarting e ->
        exists cause history,
          e = CheckFailed cause
          /\ metadata_file env = MetaContent history /\ history <> [])
  /\ (forall w trace, o <> NeverStarted w trace)
  /\ (forall w trace, o = Watching w trace ->
        mu w = false
        /\ fsnotifyWatcher w = true
        /\ exists reqs,
             trace = ESpawn GoStartFSNotifyWatcher :: ESpawn GoBackupLoop :: reqs
             /\ ((forall history, metadata_file env = MetaContent history ->
                                  history = []) ->
                 reqs = [ERequestBackup])).
Proof.
  intros Hprec o. subst o.
  destruct Args as [|prog [|sourcePath [|destPath [|extra Args]]]];
    try (cbn [main List.length];
         split; [split; [intros _; lia | reflexivity]|];
         repeat split; intros; discriminate).
  cbn [main List.length].
  set (r := NewWatcher Format env "Main Watcher" sourcePath destPath 1
              "2006-01-02_15-04-05.000000" true).
  assert (Hfst : fst r
                 = mkWatcher "Main Watcher" sourcePath destPath true 1
                     "2006-01-02_15-04-05.000000"
                     (match metadata_file env with
                      | MetaContent history => history
                      | _ => []
                      end) false false [] 0) by apply NewWatcher_watcher.
  assert (Hname : errors_Is (snd r) ErrorInvalidNameV2 = false).
  { unfold r. rewrite NewWatcher_Is_parts.
    destruct (errors_Is (validateFolderFormat Format _ _ _ _) _) eqn:E1;
      [apply validateFolderFormat_Is_only in E1; discriminate|].
    destruct (errors_Is (validateSourceAndDestination _ _ _ _) _) eqn:E2;
      [apply validateSourceAndDestination_Is_only in E2; destruct E2; discriminate|].
    reflexivity. }
  assert (Hwait : errors_Is (snd r) ErrorInvalidWaitTime = false).
  { unfold r. rewrite NewWatcher_Is_WaitTime. reflexivity. }
  assert (Hlp : ~ In LacksPrecision (snd r)).
  { intros H. apply NewWatcher_LacksPrecision in H. congruence. }
  destruct r as [watcher err]. cbn [fst snd] in *.
  split; [split; [|intros H; exfalso; apply H; reflexivity]|].
  { destruct err; [|discriminate].
    destruct (StartWatcher fs watcher) as [[e|] ? ?|? ?]; discriminate. }
  destruct err as [|e0 err].
  - subst watcher.
    rewrite StartWatcher_started by reflexivity. cbn [Metadata Source].
    destruct (metadata_file env) as [| | |history] eqn:Emeta;
      try (split; [intros ? H; discriminate|];
           split; [intros ? H; discriminate|];
           split; [intros ? ? H; discriminate|];
           intros w trace H; injection H as <- <-;
           split; [reflexivity|]; split; [reflexivity|];
           eexists; split; [reflexivity | reflexivity]).
    destruct history as [|b history].
    + split; [intros ? H; discriminate|].
      split; [intros ? H; discriminate|].
      split; [intros ? ? H; discriminate|].
      intros w trace H; injection H as <- <-.
      split; [reflexivity|]. split; [reflexivity|].
      eexists; split; reflexivity.
    + destruct (doFoldersMatch fs sourcePath _) as [[|] [cause|]].
      all: split; [intros ? H; discriminate|].
      all: split;
        [intros e H; try discriminate; injection H as <-;
         exists cause, (b :: history); repeat split; discriminate|].
      all: split; [intros ? ? H; discriminate|].
      all: intros w trace H; try discriminate; injection H as <- <-.
      all: split; [reflexivity|]; split; [reflexivity|].
      all: eexists; split; [reflexivity|].
      all: intros Hh; specialize (Hh (b :: history) eq_refl); discriminate.
  - split; [intros err' H; injection H as <-;
            split; [discriminate|]; auto|].
    split; [intros ? H; discriminate|].
    split; [intros ? ? H; discriminate|].
    intros ? ? H; discriminate.
Qed.

End CommandLineFacts.

Lemma X23_main_outcomes_witness :
  formats_collide GoTime.utcFormat 1 "2006-01-02_15-04-05.000000" = false
  /\ main GoTime.utcFormat env_all_directories fs_in_sync
       ["i-saw-that"; "/tmp/source"; "/tmp/destination"]
     <> UsageExit.
Proof.
  assert (H : formats_collide GoTime.utcFormat 1 "2006-01-02_15-04-05.000000" = false)
    by (vm_compute; reflexivity).
  split; [exact H|].
  intros Hu.
  apply (proj1 (proj1 (X23_main_outcomes GoTime.utcFormat env_all_directories fs_in_sync
                         ["i-saw-that"; "/tmp/source"; "/tmp/destination"] H))) in Hu.
  apply Hu. reflexivity.
Defined.

(* ================================================================== *)
(** * The history is in the order of time                              *)
(* ================================================================== *)

Lemma UnixNano_instant n : GoTime.UnixNano (instant n) = n.
Proof.
  unfold GoTime.UnixNano, instant, GoTime.e9. cbn [GoTime.Unix GoTime.Nanosecond].
  pose proof (Z.div_mod n 1000000000). lia.
Qed.

Lemma Timestamp_of_instant Format layout n :
  (Timestamp (record_of Format layout (instant n))
   == inject_Z n / inject_Z GoTime.e9)%Q.
Proof.
  unfold record_of. cbn [Timestamp].
  rewrite seconds_since_epoch_UnixNano, UnixNano_instant. reflexivity.
Qed.

Lemma Timestamp_increases Format layout a b :
  (a < b)%Z ->
  (Timestamp (record_of Format layout (instant a))
   < Timestamp (record_of Format layout (instant b)))%Q.
Proof.
  intros H. rewrite !Timestamp_of_instant.
  apply Qmult_lt_compat_r.
  - reflexivity.
  - rewrite <- Zlt_Qlt. exact H.
Qed.

Section Chronology.

Variable Format : string -> GoTime.Time -> string.
Variable cb : Callbacks.
Variable copy : Z -> nat -> CopyResult.
Variable write : Z -> bool.


End Chronology.

